(** * VaultArchive: a shallow embedding of the archive core

    The development follows the C++ sources of the library
    ([Header.cpp], [VarcEntry.cpp], [CryptoEngine.cpp],
    [CompressionEngine.cpp], [Archive.cpp]): the binary codec, the entry
    model, the two engines and the archive controller.

    Integers of the source are [Z] with the wrap-around of their C++ type
    written out, byte vectors are [list byte], [std::string] is [string].
    OpenSSL, zlib and the file system are outside the repository: their
    entry points are the fields of the class [Primitives]. *)

From Stdlib Require Import String Ascii Strings.Byte.
From Stdlib Require Import ZArith NArith List Bool Lia.
Import ListNotations.
Local Open Scope Z_scope.

Set Implicit Arguments.

(** ** Bytes and fixed-width integers *)

Definition u8 (b : byte) : Z := Z.of_N (Byte.to_N b).

(** [static_cast<uint8_t>(z)] *)
Definition to_u8 (z : Z) : byte :=
  match Byte.of_N (Z.to_N (z mod 256)) with
  | Some b => b
  | None => x00
  end.

Definition wrap (w : Z) (z : Z) : Z := z mod 2 ^ w.
Definition u16 := wrap 16.
Definition u32 := wrap 32.
Definition u64 := wrap 64.

(** [std::string::npos], the largest [size_t] *)
Definition npos : Z := 2 ^ 64 - 1.

Definition size {A} (l : list A) : Z := Z.of_nat (length l).

(** [for (int i = k - 1; i >= 0; --i) data.push_back((x >> (i * 8)) & 0xFF);] *)
Fixpoint be_bytes (k : nat) (x : Z) : list byte :=
  match k with
  | O => []
  | S k' => to_u8 (Z.land (Z.shiftr x (8 * Z.of_nat k')) 255) :: be_bytes k' x
  end.

(** [v = 0; for (...) v = (v << 8) | data[offset + i];] in a [w]-bit type *)
Definition be_read (w : Z) (bs : list byte) : Z :=
  fold_left (fun v b => wrap w (Z.lor (Z.shiftl v 8) (u8 b))) bs 0.

(** The number a run of bytes spells, most significant byte first. *)
Definition be_val (bs : list byte) : Z := fold_left (fun v b => v * 256 + u8 b) bs 0.

(** The bytes [v[off .. off+n)] of a vector. *)
Definition slice {A} (off n : nat) (v : list A) : list A := firstn n (skipn off v).

(** ** The world around the library *)

(** Result of driving zlib's [inflate] over a whole input until it reports
    the end of the stream, an error, or stops making progress. *)
Inductive inflate_outcome :=
| Z_STREAM_END (out : list byte)
| Z_DATA_ERROR (msg : string)
| Z_INFLATE_INIT_ERROR
| Z_stalled.

(** Result of [deflateInit2] followed by one [deflate] with [Z_FINISH]
    into a buffer of [deflateBound] bytes. *)
Inductive deflate_outcome :=
| Z_DEFLATED (out : list byte)
| Z_DEFLATE_INIT_ERROR
| Z_DEFLATE_ERROR (scratch : list byte).

(** The calls by which the library changes the disk, once they have
    come back: an output stream was opened on [path], [content] was
    written to it and it was closed; [create_directories(path)] has
    returned. *)
Inductive fs_call :=
| Wrote (path : string) (content : list byte)
| MadeDirectories (path : string).

(** The calls into OpenSSL, zlib and the file system.  Where the source
    hands the library a buffer it has sized itself ([hash(HASH_SIZE)], [key(keySize)],
    [salt(size)]), the field gives what the library writes and the model
    of the caller cuts it to the buffer.

    [SHA256], [PKCS5_PBKDF2_HMAC], [RAND_bytes] and the EVP encryption
    calls are taken at their documented success: the [throw] that
    follows a failed call in the source is reached only when the library
    itself gives up.  Decryption and the two zlib calls do fail on bad
    input, and their outcome says so.

    The file system answers as it pleases: its fields give the answer
    as a function of the calls that have changed the disk so far, and
    nothing is taken for granted about them.  A property that needs a
    stream to open, or a file to hold what was written to it, says so.

    The field [stray] is not a call: it is what the process finds in
    memory behind a buffer that it reads past the end (undefined
    behaviour in C++).  Every property below holds whatever is found
    there. *)
Class Primitives := {
  (** OpenSSL [SHA256] *)
  SHA256 : list byte -> list byte;
  (** OpenSSL [PKCS5_PBKDF2_HMAC] with [EVP_sha256]: password, salt,
      iterations, key size *)
  PBKDF2 : string -> list byte -> Z -> nat -> list byte;
  (** OpenSSL [RAND_bytes]: the [k]-th request, for [n] bytes *)
  RAND_bytes : nat -> nat -> list byte;
  (** OpenSSL EVP, [EVP_aes_256_cbc], key and IV given *)
  EVP_encrypt : list byte -> list byte -> list byte -> list byte;
  EVP_decrypt : list byte -> list byte -> list byte -> option (list byte);
  (** zlib [deflate] with [Z_FINISH], by level and window bits *)
  zlib_deflate : Z -> Z -> list byte -> deflate_outcome;
  (** zlib [inflate], by window bits *)
  zlib_inflate : Z -> list byte -> inflate_outcome;
  (** what a run of [inflate] calls that ends in an error leaves behind,
      for a first output buffer of the given size: the buffer, and the
      byte count reported by the calls before the failing one *)
  zlib_partial : Z -> list byte -> list byte * Z;
  (** the byte found [k] places behind the end of a buffer *)
  stray : list byte -> nat -> byte;
  (** [std::ifstream] on a path, read to its end; [None]: the stream
      does not open *)
  fs_read : list fs_call -> string -> option (list byte);
  (** whether [std::ofstream] on a path opens *)
  fs_opens : list fs_call -> string -> bool;
  (** [std::filesystem::create_directories]; [Some what]: it throws a
      [filesystem_error] *)
  fs_create_directories : list fs_call -> string -> option string;
  (** [std::filesystem::path(p).parent_path()] *)
  fs_parent_path : string -> string
}.

Definition bytes_eqb (a b : list byte) : bool :=
  if list_eq_dec Byte.byte_eq_dec a b then true else false.

(** [v.resize(n)]: new elements are zero *)
Definition resize (v : list byte) (n : nat) : list byte :=
  firstn n v ++ repeat x00 (n - length v).

(** ** Exceptions

    A call of the source returns, leaves by a C++ exception, or runs into
    undefined behaviour that the model does not follow any further (a
    write behind the end of a buffer, a copy of 32 bytes out of a
    shorter checksum, an iterator range that ends before it starts). *)
Inductive outcome (A : Type) :=
| Ret (a : A)
| Throw (what : string)
| Crash (what : string).
Arguments Ret {A} a.
Arguments Throw {A} what.
Arguments Crash {A} what.

Definition bind {A B} (m : outcome A) (k : A -> outcome B) : outcome B :=
  match m with
  | Ret a => k a
  | Throw w => Throw w
  | Crash w => Crash w
  end.

Notation "x <- m ;; k" := (bind m (fun x => k))
  (at level 61, m at next level, right associativity).
Notation "' p <- m ;; k" := (bind m (fun x => match x with p => k end))
  (at level 61, p pattern, m at next level, right associativity).

Module ArchiveFlags.
Definition ENCRYPTED : Z := 0x0001.
Definition COMPRESSED : Z := 0x0002.
Definition HAS_METADATA : Z := 0x0004.
Definition RESERVED : Z := 0xFFF8.
End ArchiveFlags.

Module EntryFlags.
Definition COMPRESSED : Z := 0x0001.
Definition ENCRYPTED : Z := 0x0002.
Definition DIRECTORY : Z := 0x0004.
Definition SYMLINK : Z := 0x0008.
Definition HIDDEN : Z := 0x0010.
Definition READONLY : Z := 0x0020.
Definition RESERVED : Z := 0xFFC0.
End EntryFlags.

Module CompressionLevel.
Definition NO_COMPRESSION : Z := 0.
Definition FASTEST : Z := 1.
Definition DEFAULT : Z := 6.
Definition BEST : Z := 9.
End CompressionLevel.

Module FileType.
Definition UNKNOWN : Z := 0.
Definition TEXT : Z := 1.
Definition BINARY : Z := 2.
Definition IMAGE : Z := 3.
Definition AUDIO : Z := 4.
Definition VIDEO : Z := 5.
Definition DOCUMENT : Z := 6.
Definition ARCHIVE : Z := 7.
End FileType.

Section Core.
Context {prim : Primitives}.

(** [v[i]] of [std::vector]: no bounds check; behind the end the source
    has undefined behaviour and reads whatever lies there. *)
Definition at_ (v : list byte) (i : nat) : byte :=
  nth i v (stray v (i - length v)).

(** [n] bytes from [v + off], as [memcpy] and [memcmp] see them. *)
Definition peek (v : list byte) (off n : nat) : list byte :=
  map (fun i => at_ v (off + i)) (seq 0 n).

(** ** VarcHeader.hpp *)

Definition VARC_VERSION_MAJOR : Z := 0.
Definition VARC_VERSION_MINOR : Z := 3.
Definition VARC_SIGNATURE : list byte := [x56; x41; x52; x43].
Definition SALT_SIZE : nat := 32.
Definition IV_SIZE : nat := 16.
Definition CHECKSUM_SIZE : nat := 32.
Definition ENTRY_HEADER_SIZE : nat := 4 + 8 + 8 + 4 + 2.
Definition MAX_PATH_LENGTH : Z := 65535.


Record GlobalHeader := mkGlobalHeader {
  signature : list byte;   (* std::array<uint8_t, 4> *)
  version : Z;             (* uint16_t *)
  gflags : Z;              (* uint16_t flags *)
  fileCount : Z;           (* uint32_t *)
  salt : list byte;        (* std::array<uint8_t, SALT_SIZE> *)
  iv : list byte;          (* std::array<uint8_t, IV_SIZE> *)
  reserved : Z             (* uint64_t *)
}.

(** [GlobalHeader::GlobalHeader()] *)
Definition GlobalHeader_default : GlobalHeader :=
  {| signature := VARC_SIGNATURE;
     version := Z.lor (Z.shiftl VARC_VERSION_MAJOR 8) VARC_VERSION_MINOR;
     gflags := 0;
     fileCount := 0;
     salt := repeat x00 SALT_SIZE;
     iv := repeat x00 IV_SIZE;
     reserved := 0 |}.

(** [for (i = 0; i < n; ++i) data.push_back(i < a.size() ? a[i] : 0);] *)
Definition padded (n : nat) (a : list byte) : list byte :=
  map (fun i => nth i a x00) (seq 0 n).

(** [GlobalHeader::serialize] *)
Definition GlobalHeader_serialize (h : GlobalHeader) : list byte :=
  signature h
  ++ [to_u8 (Z.land (Z.shiftr (version h) 8) 255); to_u8 (Z.land (version h) 255)]
  ++ [to_u8 (Z.land (Z.shiftr (gflags h) 8) 255); to_u8 (Z.land (gflags h) 255)]
  ++ be_bytes 4 (fileCount h)
  ++ padded 32 (salt h)
  ++ padded 16 (iv h)
  ++ be_bytes 8 (reserved h).

(** [GlobalHeader::deserialize], a method: it overwrites the fields of
    [h] as it goes and answers [false] on a short buffer or a foreign
    signature.  The eight bytes of [reserved] are read at offsets 60..67. *)
Definition GlobalHeader_deserialize (h : GlobalHeader) (data : list byte)
  : bool * GlobalHeader :=
  if size data <? 64 then (false, h)
  else
    let sig := peek data 0 4 in
    if negb (bytes_eqb sig VARC_SIGNATURE)
    then (false, {| signature := sig; version := version h; gflags := gflags h;
                    fileCount := fileCount h; salt := salt h; iv := iv h;
                    reserved := reserved h |})
    else
      (true,
       {| signature := sig;
          version := Z.lor (u16 (Z.shiftl (u8 (at_ data 4)) 8)) (u8 (at_ data 5));
          gflags := Z.lor (u16 (Z.shiftl (u8 (at_ data 6)) 8)) (u8 (at_ data 7));
          fileCount := be_read 32 (peek data 8 4);
          salt := peek data 12 SALT_SIZE;
          iv := peek data 44 IV_SIZE;
          reserved := be_read 64 (peek data 60 8) |}).

Definition GlobalHeader_isValid (h : GlobalHeader) : bool :=
  bytes_eqb (signature h) VARC_SIGNATURE.

Definition GlobalHeader_isEncrypted (h : GlobalHeader) : bool :=
  negb (Z.land (gflags h) ArchiveFlags.ENCRYPTED =? 0).

Definition GlobalHeader_isCompressed (h : GlobalHeader) : bool :=
  negb (Z.land (gflags h) ArchiveFlags.COMPRESSED =? 0).

(** ** [FileType::detect] (Header.cpp) *)

(** [std::memcmp(data + off, magic, n) == 0], [n] the length of [magic] *)
Definition memcmp0 (data : list byte) (off : nat) (magic : list byte) : bool :=
  bytes_eqb (peek data off (length magic)) magic.

Definition bytes_of (s : string) : list byte := list_byte_of_string s.

(** [(data[i] >= 32 && data[i] <= 126) || '\n' || '\r' || '\t'] *)
Definition printable (b : byte) : bool :=
  ((32 <=? u8 b) && (u8 b <=? 126)) || (u8 b =? 10) || (u8 b =? 13) || (u8 b =? 9).

(** [FileType::detect(data.data(), data.size())].  The last test of the
    source, [printableCount > checkSize * 0.9] in [double], is the
    comparison [10 * printableCount > 9 * checkSize]: for [checkSize <= 256]
    the product rounds to the integer [0.9 * checkSize] whenever that is
    an integer, and is at least a tenth away from every integer otherwise. *)
Definition FileType_detect (data : list byte) : Z :=
  if size data <? 4 then FileType.UNKNOWN
  else if memcmp0 data 0 [x89; x50; x4e; x47; x0d; x0a; x1a; x0a] then FileType.IMAGE
  else if memcmp0 data 0 (bytes_of "GIF87a") || memcmp0 data 0 (bytes_of "GIF89a")
    then FileType.IMAGE
  else if ((u8 (at_ data 0) =? 0xFF) && (u8 (at_ data 1) =? 0xD8) && (u8 (at_ data 2) =? 0xFF))
          || memcmp0 data 0 (bytes_of "JFIF") || memcmp0 data 0 (bytes_of "Exif")
    then FileType.IMAGE
  else if memcmp0 data 0 (bytes_of "RIFF") && (12 <=? size data)
          && memcmp0 data 8 (bytes_of "WEBP")
    then FileType.IMAGE
  else if memcmp0 data 0 (bytes_of "ID3") || memcmp0 data 0 [xff; xfb]
          || memcmp0 data 0 [xff; xfa] || memcmp0 data 0 (bytes_of "OggS")
    then FileType.AUDIO
  else if memcmp0 data 0 [x00; x00; x00] && (4 <? size data)
          && (u8 (at_ data 4) =? 0x66) && (u8 (at_ data 5) =? 0x74)
          && (u8 (at_ data 6) =? 0x79) && (u8 (at_ data 7) =? 0x70)
    then FileType.VIDEO
  else if memcmp0 data 0 (bytes_of "%PDF") then FileType.DOCUMENT
  else if memcmp0 data 0 [x50; x4b; x03; x04] || memcmp0 data 0 [x50; x4b; x05; x06]
    then FileType.ARCHIVE
  else
    let checkSize := Z.min (size data) 256 in
    let printableCount := size (filter printable (firstn (Z.to_nat checkSize) data)) in
    if 9 * checkSize <? 10 * printableCount then FileType.TEXT else FileType.BINARY.

(** ** [EntryHeader] (Header.cpp) *)

Record EntryHeader := mkEntryHeader {
  pathLength : Z;          (* uint32_t *)
  h_originalSize : Z;      (* uint64_t *)
  h_compressedSize : Z;    (* uint64_t *)
  h_fileType : Z;          (* uint32_t *)
  h_flags : Z              (* uint32_t *)
}.

Definition EntryHeader_default : EntryHeader :=
  {| pathLength := 0; h_originalSize := 0; h_compressedSize := 0;
     h_fileType := 0; h_flags := 0 |}.

Definition EntryHeader_fixedSize : nat := ENTRY_HEADER_SIZE.

(** [EntryHeader::serialize]: the path length goes out on two bytes *)
Definition EntryHeader_serialize (h : EntryHeader) : list byte :=
  [to_u8 (Z.land (Z.shiftr (pathLength h) 8) 255); to_u8 (Z.land (pathLength h) 255)]
  ++ be_bytes 8 (h_originalSize h)
  ++ be_bytes 8 (h_compressedSize h)
  ++ be_bytes 4 (h_fileType h)
  ++ be_bytes 4 (h_flags h).

(** [EntryHeader::deserialize] *)
Definition EntryHeader_deserialize (data : list byte) : option EntryHeader :=
  if size data <? Z.of_nat EntryHeader_fixedSize then None
  else
    Some {| pathLength := Z.lor (u32 (Z.shiftl (u8 (at_ data 0)) 8)) (u8 (at_ data 1));
            h_originalSize := be_read 64 (peek data 2 8);
            h_compressedSize := be_read 64 (peek data 10 8);
            h_fileType := be_read 32 (peek data 18 4);
            h_flags := be_read 32 (peek data 22 4) |}.

(** ** [CryptoEngine] (CryptoEngine.cpp) *)

Definition AES_KEY_SIZE : nat := 32.
Definition AES_BLOCK_SIZE : nat := 16.
Definition PBKDF2_ITERATIONS : Z := 100000.
Definition HASH_SIZE : nat := 32.

Record CryptoEngine := mkCryptoEngine {
  m_key : list byte;
  m_iv : list byte;
  m_initialized : bool
}.

(** [CryptoEngine::CryptoEngine()] *)
Definition CryptoEngine_new : CryptoEngine :=
  {| m_key := []; m_iv := []; m_initialized := false |}.

Definition empty {A} (l : list A) : bool :=
  match l with [] => true | _ => false end.

Definition str_empty (s : string) : bool :=
  match s with EmptyString => true | _ => false end.

(** [CryptoEngine::isInitialized] *)
Definition CryptoEngine_isInitialized (c : CryptoEngine) : bool :=
  m_initialized c && negb (empty (m_key c)) && negb (empty (m_iv c)).

(** The random source is a counter of the requests made so far; the
    request itself is [RAND_bytes], taken to succeed. *)
Definition entropy := nat.

(** [CryptoEngine::generateSalt(size = SALT_SIZE)] *)
Definition CryptoEngine_generateSalt (k : entropy) : list byte * entropy :=
  (resize (RAND_bytes k SALT_SIZE) SALT_SIZE, S k).

(** [CryptoEngine::generateIV] *)
Definition CryptoEngine_generateIV (k : entropy) : list byte * entropy :=
  (resize (RAND_bytes k IV_SIZE) IV_SIZE, S k).

(** [CryptoEngine::deriveKey(password, salt)], with the default
    [iterations] and [keySize] *)
Definition CryptoEngine_deriveKey (password : string) (salt : list byte)
  : outcome (list byte) :=
  if str_empty password
  then Throw "Password cannot be empty for key derivation"
  else Ret (resize (PBKDF2 password salt PBKDF2_ITERATIONS AES_KEY_SIZE) AES_KEY_SIZE).

(** [CryptoEngine::initializeFromPassword] *)
Definition CryptoEngine_initializeFromPassword
    (c : CryptoEngine) (password : string) (salt : list byte) (k : entropy)
  : outcome (CryptoEngine * entropy) :=
  key <- CryptoEngine_deriveKey password salt ;;
  let (iv, k') := CryptoEngine_generateIV k in
  Ret ({| m_key := key; m_iv := iv; m_initialized := true |}, k').

(** [CryptoEngine::encrypt] *)
Definition CryptoEngine_encrypt (c : CryptoEngine) (plaintext : list byte)
  : outcome (list byte) :=
  if negb (CryptoEngine_isInitialized c)
  then Throw "CryptoEngine not initialized"
  else Ret (EVP_encrypt (m_key c) (m_iv c) plaintext).

(** [CryptoEngine::decrypt] *)
Definition CryptoEngine_decrypt (c : CryptoEngine) (ciphertext : list byte)
  : outcome (list byte) :=
  if negb (CryptoEngine_isInitialized c)
  then Throw "CryptoEngine not initialized"
  else match EVP_decrypt (m_key c) (m_iv c) ciphertext with
       | Some plaintext => Ret plaintext
       | None => Throw "Decryption finalization failed (corrupted data or wrong password)"
       end.

(** [CryptoEngine::sha256] *)
Definition CryptoEngine_sha256 (data : list byte) : list byte :=
  resize (SHA256 data) HASH_SIZE.

(** [CryptoEngine::verifyChecksum] *)
Definition CryptoEngine_verifyChecksum (data storedChecksum : list byte) : bool :=
  if negb (size storedChecksum =? Z.of_nat HASH_SIZE) then false
  else bytes_eqb (CryptoEngine_sha256 data) storedChecksum.

(** ** [CompressionEngine] (CompressionEngine.cpp) *)

Record CompressionEngine := mkCompressionEngine {
  m_compressionLevel : Z;   (* int *)
  m_windowBits : Z;         (* uint32_t *)
  z_initialized : bool
}.

(** [CompressionEngine::CompressionEngine(level = CompressionLevel::DEFAULT)] *)
Definition CompressionEngine_new (level : Z) : CompressionEngine :=
  {| m_compressionLevel := level; m_windowBits := 15 + 16; z_initialized := false |}.

(** [CompressionResult]; the [double] ratio is left out. *)
Record CompressionResult := mkCompressionResult {
  compressedData : list byte;
  c_originalSize : Z;
  c_compressedSize : Z;
  c_success : bool;
  c_errorMessage : string
}.

Record DecompressionResult := mkDecompressionResult {
  decompressedData : list byte;
  d_originalSize : Z;       (* "Expected original size" *)
  d_decompressedSize : Z;   (* "Actual decompressed size" *)
  d_success : bool;
  d_errorMessage : string
}.

(** [strm.avail_in = static_cast<uInt>(data.size())]: zlib is handed the
    first [size mod 2^32] bytes. *)
Definition avail_in (data : list byte) : list byte :=
  firstn (Z.to_nat (u32 (size data))) data.

(** [CompressionEngine::compress] *)
Definition CompressionEngine_compress (c : CompressionEngine) (data : list byte)
  : CompressionResult :=
  if empty data then
    {| compressedData := data; c_originalSize := u64 (size data);
       c_compressedSize := 0; c_success := true; c_errorMessage := "" |}
  else
    match zlib_deflate (m_compressionLevel c) (m_windowBits c) (avail_in data) with
    | Z_DEFLATE_INIT_ERROR =>
        {| compressedData := []; c_originalSize := u64 (size data);
           c_compressedSize := 0; c_success := false;
           c_errorMessage := "Failed to initialize compression" |}
    | Z_DEFLATE_ERROR scratch =>
        {| compressedData := scratch; c_originalSize := u64 (size data);
           c_compressedSize := 0; c_success := false;
           c_errorMessage := "Compression failed" |}
    | Z_DEFLATED out =>
        {| compressedData := out; c_originalSize := u64 (size data);
           c_compressedSize := u64 (size out); c_success := true;
           c_errorMessage := "" |}
    end.

(** The size of the first output buffer in [decompress]. *)
Definition decompress_bufferSize (compressedData : list byte) (expectedSize : Z) : Z :=
  let bufferSize :=
    if 0 <? expectedSize then expectedSize else u64 (size compressedData * 2) in
  if bufferSize <? size compressedData then u64 (size compressedData * 2) else bufferSize.

(** [CompressionEngine::decompress].  The loop of the source calls
    [inflate] until it answers [Z_STREAM_END], doubling the output buffer
    when it is full; it leaves early on [Z_STREAM_ERROR] and
    [Z_DATA_ERROR] only.  [None] stands for the loop that does not end
    (the inflater no longer makes progress and reports neither). *)
Definition CompressionEngine_decompress
    (c : CompressionEngine) (compressedData : list byte) (expectedSize : Z)
  : option DecompressionResult :=
  if empty compressedData then
    Some {| decompressedData := []; d_originalSize := expectedSize;
            d_decompressedSize := 0; d_success := true; d_errorMessage := "" |}
  else
    match zlib_inflate (m_windowBits c) (avail_in compressedData) with
    | Z_INFLATE_INIT_ERROR =>
        Some {| decompressedData := []; d_originalSize := expectedSize;
                d_decompressedSize := 0; d_success := false;
                d_errorMessage := "Failed to initialize decompression" |}
    | Z_DATA_ERROR msg =>
        let (scratch, done) :=
          zlib_partial (decompress_bufferSize compressedData expectedSize)
                       (avail_in compressedData) in
        Some {| decompressedData := scratch;
                d_originalSize := expectedSize;
                d_decompressedSize := done; d_success := false;
                d_errorMessage := "Decompression failed: " ++ msg |}
    | Z_stalled => None
    | Z_STREAM_END out =>
        Some {| decompressedData := out; d_originalSize := expectedSize;
                d_decompressedSize := u64 (size out); d_success := true;
                d_errorMessage := "" |}
    end.

(** ** [VarcEntry] (VarcEntry.cpp).  The two time stamps of the class
    are taken from the clock and never written to an archive; they are
    left out. *)

Inductive EntryType := FILE | DIRECTORY | SYMLINK.

Record VarcEntry := mkVarcEntry {
  m_relativePath : string;
  m_type : EntryType;
  m_originalSize : Z;       (* uint64_t, "Original file size in bytes" *)
  m_compressedSize : Z;     (* uint64_t, "Compressed size (if compressed)" *)
  m_offset : Z;
  m_fileType : Z;           (* uint32_t *)
  m_flags : Z;              (* uint32_t *)
  m_checksum : list byte;   (* "SHA-256 checksum of original data" *)
  m_data : list byte
}.

Definition is_FILE (t : EntryType) : bool :=
  match t with FILE => true | _ => false end.

(** [VarcEntry::VarcEntry()] *)
Definition VarcEntry_empty : VarcEntry :=
  {| m_relativePath := ""; m_type := FILE; m_originalSize := 0;
     m_compressedSize := 0; m_offset := 0; m_fileType := 0; m_flags := 0;
     m_checksum := []; m_data := [] |}.

(** [VarcEntry::VarcEntry(path, data, type)] *)
Definition VarcEntry_of_data (path : string) (data : list byte) (type : EntryType)
  : VarcEntry :=
  {| m_relativePath := path; m_type := type;
     m_originalSize := u64 (size data);
     m_compressedSize := u64 (size data);
     m_offset := 0;
     m_fileType := if negb (empty data) && is_FILE type
                   then FileType_detect data else 0;
     m_flags := 0;
     m_checksum := CryptoEngine_sha256 data;
     m_data := data |}.

(** [VarcEntry::VarcEntry(path, type, originalSize, fileType)] *)
Definition VarcEntry_of_meta (path : string) (type : EntryType)
    (originalSize fileType : Z) : VarcEntry :=
  {| m_relativePath := path; m_type := type;
     m_originalSize := originalSize; m_compressedSize := originalSize;
     m_offset := 0; m_fileType := fileType; m_flags := 0;
     m_checksum := []; m_data := [] |}.

Definition VarcEntry_setCompressedSize (e : VarcEntry) (n : Z) : VarcEntry :=
  {| m_relativePath := m_relativePath e; m_type := m_type e;
     m_originalSize := m_originalSize e; m_compressedSize := n;
     m_offset := m_offset e; m_fileType := m_fileType e; m_flags := m_flags e;
     m_checksum := m_checksum e; m_data := m_data e |}.

Definition VarcEntry_setFlags (e : VarcEntry) (f : Z) : VarcEntry :=
  {| m_relativePath := m_relativePath e; m_type := m_type e;
     m_originalSize := m_originalSize e; m_compressedSize := m_compressedSize e;
     m_offset := m_offset e; m_fileType := m_fileType e; m_flags := f;
     m_checksum := m_checksum e; m_data := m_data e |}.

Definition VarcEntry_setChecksum (e : VarcEntry) (c : list byte) : VarcEntry :=
  {| m_relativePath := m_relativePath e; m_type := m_type e;
     m_originalSize := m_originalSize e; m_compressedSize := m_compressedSize e;
     m_offset := m_offset e; m_fileType := m_fileType e; m_flags := m_flags e;
     m_checksum := c; m_data := m_data e |}.

(** [VarcEntry::setData], both overloads: sizes and checksum follow the
    new content. *)
Definition VarcEntry_setData (e : VarcEntry) (data : list byte) : VarcEntry :=
  {| m_relativePath := m_relativePath e; m_type := m_type e;
     m_originalSize := u64 (size data);
     m_compressedSize := u64 (size data);
     m_offset := m_offset e;
     m_fileType := if (m_fileType e =? 0) && negb (empty data)
                   then FileType_detect data else m_fileType e;
     m_flags := m_flags e;
     m_checksum := CryptoEngine_sha256 data;
     m_data := data |}.

Definition VarcEntry_isCompressed (e : VarcEntry) : bool :=
  negb (Z.land (m_flags e) EntryFlags.COMPRESSED =? 0).

Definition VarcEntry_isEncrypted (e : VarcEntry) : bool :=
  negb (Z.land (m_flags e) EntryFlags.ENCRYPTED =? 0).

Definition VarcEntry_isDirectory (e : VarcEntry) : bool :=
  match m_type e with DIRECTORY => true | _ => false end
  || negb (Z.land (m_flags e) EntryFlags.DIRECTORY =? 0).

(** [VarcEntry::getTotalSize] *)
Definition VarcEntry_getTotalSize (e : VarcEntry) : Z :=
  u64 (Z.of_nat EntryHeader_fixedSize
       + u32 (Z.of_nat (String.length (m_relativePath e)))
       + m_compressedSize e + Z.of_nat CHECKSUM_SIZE).

(** ** [Archive] (Archive.cpp) *)

Record CreateOptions := mkCreateOptions {
  compress : bool;
  compressionLevel : Z;
  encrypt : bool;
  password : string
}.

(** [CreateOptions::CreateOptions()] *)
Definition CreateOptions_default : CreateOptions :=
  {| compress := true; compressionLevel := 6; encrypt := false; password := "" |}.

Record Archive := mkArchive {
  m_filepath : string;
  m_header : GlobalHeader;
  m_entries : list VarcEntry;
  m_archiveData : list byte;
  m_modified : bool;
  m_loaded : bool;
  m_errorMessage : string;
  m_crypto : CryptoEngine;
  m_compression : CompressionEngine
}.

(** What lies outside the object: the disk, as the calls that have
    changed it, and the random source. *)
Record World := mkWorld {
  calls : list fs_call;
  rand : entropy
}.

(** What an input stream on [path] reads. *)
Definition files (w : World) (path : string) : option (list byte) :=
  fs_read (calls w) path.

(** The world after an output stream on [path] was opened, given
    [content] and closed. *)
Definition write_file (w : World) (path : string) (content : list byte) : World :=
  {| calls := calls w ++ [Wrote path content]; rand := rand w |}.

Definition with_rand (w : World) (k : entropy) : World :=
  {| calls := calls w; rand := k |}.

(** [std::filesystem::create_directories(path)] *)
Definition make_directories (w : World) (path : string) : outcome World :=
  match fs_create_directories (calls w) path with
  | Some what => Throw what
  | None => Ret {| calls := calls w ++ [MadeDirectories path]; rand := rand w |}
  end.

(** [parentDir = std::filesystem::path(outputPath).parent_path();
    if (!parentDir.empty()) create_directories(parentDir);] *)
Definition make_parent (w : World) (outputPath : string) : outcome World :=
  let parentDir := fs_parent_path outputPath in
  if str_empty parentDir then Ret w else make_directories w parentDir.

(** [Archive::Archive()] *)
Definition Archive_new : Archive :=
  {| m_filepath := ""; m_header := GlobalHeader_default; m_entries := [];
     m_archiveData := []; m_modified := false; m_loaded := false;
     m_errorMessage := ""; m_crypto := CryptoEngine_new;
     m_compression := CompressionEngine_new CompressionLevel.DEFAULT |}.

Definition set_error (a : Archive) (msg : string) : Archive :=
  {| m_filepath := m_filepath a; m_header := m_header a; m_entries := m_entries a;
     m_archiveData := m_archiveData a; m_modified := m_modified a;
     m_loaded := m_loaded a; m_errorMessage := msg; m_crypto := m_crypto a;
     m_compression := m_compression a |}.

Definition set_header (a : Archive) (h : GlobalHeader) : Archive :=
  {| m_filepath := m_filepath a; m_header := h; m_entries := m_entries a;
     m_archiveData := m_archiveData a; m_modified := m_modified a;
     m_loaded := m_loaded a; m_errorMessage := m_errorMessage a;
     m_crypto := m_crypto a; m_compression := m_compression a |}.

Definition set_entries (a : Archive) (es : list VarcEntry) : Archive :=
  {| m_filepath := m_filepath a; m_header := m_header a; m_entries := es;
     m_archiveData := m_archiveData a; m_modified := m_modified a;
     m_loaded := m_loaded a; m_errorMessage := m_errorMessage a;
     m_crypto := m_crypto a; m_compression := m_compression a |}.

Definition set_archiveData (a : Archive) (d : list byte) : Archive :=
  {| m_filepath := m_filepath a; m_header := m_header a; m_entries := m_entries a;
     m_archiveData := d; m_modified := m_modified a;
     m_loaded := m_loaded a; m_errorMessage := m_errorMessage a;
     m_crypto := m_crypto a; m_compression := m_compression a |}.

Definition set_modified (a : Archive) (b : bool) : Archive :=
  {| m_filepath := m_filepath a; m_header := m_header a; m_entries := m_entries a;
     m_archiveData := m_archiveData a; m_modified := b;
     m_loaded := m_loaded a; m_errorMessage := m_errorMessage a;
     m_crypto := m_crypto a; m_compression := m_compression a |}.

Definition set_loaded (a : Archive) (b : bool) : Archive :=
  {| m_filepath := m_filepath a; m_header := m_header a; m_entries := m_entries a;
     m_archiveData := m_archiveData a; m_modified := m_modified a;
     m_loaded := b; m_errorMessage := m_errorMessage a;
     m_crypto := m_crypto a; m_compression := m_compression a |}.

Definition set_filepath (a : Archive) (f : string) : Archive :=
  {| m_filepath := f; m_header := m_header a; m_entries := m_entries a;
     m_archiveData := m_archiveData a; m_modified := m_modified a;
     m_loaded := m_loaded a; m_errorMessage := m_errorMessage a;
     m_crypto := m_crypto a; m_compression := m_compression a |}.

Definition set_crypto (a : Archive) (c : CryptoEngine) : Archive :=
  {| m_filepath := m_filepath a; m_header := m_header a; m_entries := m_entries a;
     m_archiveData := m_archiveData a; m_modified := m_modified a;
     m_loaded := m_loaded a; m_errorMessage := m_errorMessage a;
     m_crypto := c; m_compression := m_compression a |}.

Definition header_set_flags (h : GlobalHeader) (f : Z) : GlobalHeader :=
  {| signature := signature h; version := version h; gflags := f;
     fileCount := fileCount h; salt := salt h; iv := iv h; reserved := reserved h |}.

Definition header_set_fileCount (h : GlobalHeader) (n : Z) : GlobalHeader :=
  {| signature := signature h; version := version h; gflags := gflags h;
     fileCount := n; salt := salt h; iv := iv h; reserved := reserved h |}.

(** [std::memcpy(a.data(), src.data(), src.size())] into a [std::array]
    that is at least as long as [src] *)
Definition array_copy (a src : list byte) : list byte :=
  src ++ skipn (length src) a.

Definition header_set_salt_iv (h : GlobalHeader) (s i : list byte) : GlobalHeader :=
  {| signature := signature h; version := version h; gflags := gflags h;
     fileCount := fileCount h; salt := array_copy (salt h) s;
     iv := array_copy (iv h) i; reserved := reserved h |}.

(** [Archive::isOpen] *)
Definition Archive_isOpen (a : Archive) : bool := m_loaded a.

(** [Archive::updateHeader] *)
Definition Archive_updateHeader (a : Archive) : Archive :=
  let h := header_set_fileCount (m_header a) (u32 (size (m_entries a))) in
  if empty (m_entries a) then
    let f1 := u16 (Z.land (gflags h) (Z.lnot ArchiveFlags.ENCRYPTED)) in
    let f2 := u16 (Z.land f1 (Z.lnot ArchiveFlags.COMPRESSED)) in
    set_header a (header_set_flags h f2)
  else set_header a h.

(** The header of one entry as [writeArchive] fills it in. *)
Definition entry_header (e : VarcEntry) : EntryHeader :=
  {| pathLength := u32 (Z.of_nat (String.length (m_relativePath e)));
     h_originalSize := m_originalSize e;
     h_compressedSize := m_compressedSize e;
     h_fileType := m_fileType e;
     h_flags := m_flags e |}.

(** What the first three [memcpy] of one round of [writeArchive] copy:
    the entry header, [pathLength] bytes of the path, the data. *)
Definition entry_front (e : VarcEntry) : list byte :=
  EntryHeader_serialize (entry_header e)
  ++ peek (bytes_of (m_relativePath e)) 0
       (Z.to_nat (u32 (Z.of_nat (String.length (m_relativePath e)))))
  ++ m_data e.

(** The bytes one entry contributes when its checksum vector holds 32
    bytes or more: the fourth [memcpy] copies the first 32 of them. *)
Definition entry_record (e : VarcEntry) : list byte :=
  entry_front e ++ firstn 32 (m_checksum e).

(** The second loop of [writeArchive], over the entries that are left:
    [written] is what was copied into the buffer of [totalSize] bytes so
    far.  A copy that ends behind the buffer overruns it; the fourth
    [memcpy] reads 32 bytes from [checksum.data()], which is behind the
    end of a shorter checksum (and a null pointer for the empty vector
    of an entry that never had one). *)
Fixpoint writeEntries (totalSize : nat) (written : list byte) (es : list VarcEntry)
  : outcome (list byte) :=
  match es with
  | [] => Ret written
  | e :: es' =>
    let written := written ++ entry_front e in
    if (totalSize <? length written)%nat
    then Crash "writeArchive: write behind the end of m_archiveData"
    else if (length (m_checksum e) <? 32)%nat
    then Crash "writeArchive: read behind the end of a checksum"
    else
      let written := written ++ firstn 32 (m_checksum e) in
      if (totalSize <? length written)%nat
      then Crash "writeArchive: write behind the end of m_archiveData"
      else writeEntries totalSize written es'
  end.

(** [totalSize] of [writeArchive] *)
Definition archive_totalSize (es : list VarcEntry) : Z :=
  fold_left (fun total e =>
               u64 (total + Z.of_nat EntryHeader_fixedSize
                    + u32 (Z.of_nat (String.length (m_relativePath e)))
                    + m_compressedSize e + 32))
            es 64.

(** [Archive::writeArchive]: the buffer is resized to [totalSize] and
    filled from the front, the 64 bytes of the header first. *)
Definition Archive_writeArchive (a : Archive) : outcome Archive :=
  let a := Archive_updateHeader a in
  let totalSize := Z.to_nat (archive_totalSize (m_entries a)) in
  let buffer := resize (m_archiveData a) totalSize in
  let headerData := GlobalHeader_serialize (m_header a) in
  let headerData := if size headerData <? 64 then resize headerData 64 else headerData in
  if (totalSize <? 64)%nat
  then Crash "writeArchive: write behind the end of m_archiveData"
  else
    written <- writeEntries totalSize (firstn 64 headerData) (m_entries a) ;;
    Ret (set_archiveData a (written ++ skipn (length written) buffer)).

(** [Archive::save] *)
Definition Archive_save (filepath : string) (w : World) (a : Archive)
  : outcome (bool * World * Archive) :=
  let outputPath := if str_empty filepath then m_filepath a else filepath in
  if str_empty outputPath
  then Ret (false, w, set_error a "No output path specified")
  else
    a <- Archive_writeArchive a ;;
    if negb (fs_opens (calls w) outputPath)
    then Ret (false, w, set_error a ("Cannot create archive file: " ++ outputPath))
    else Ret (true, write_file w outputPath (m_archiveData a),
              set_modified (set_filepath a outputPath) false).

(** [Archive::close]: what [save] answers is not looked at; the engines
    are kept. *)
Definition Archive_close (w : World) (a : Archive) : outcome (World * Archive) :=
  '(_, w, a) <- (if m_modified a then Archive_save "" w a else Ret (true, w, a)) ;;
  Ret (w, {| m_filepath := ""; m_header := GlobalHeader_default; m_entries := [];
             m_archiveData := []; m_modified := false; m_loaded := false;
             m_errorMessage := ""; m_crypto := m_crypto a;
             m_compression := m_compression a |}).

(** [Archive::create] *)
Definition Archive_create (filepath : string) (w : World) (a : Archive)
  : outcome (bool * World * Archive) :=
  '(w, a) <- Archive_close w a ;;
  Ret (true, w,
       {| m_filepath := filepath; m_header := GlobalHeader_default; m_entries := [];
          m_archiveData := m_archiveData a; m_modified := true; m_loaded := true;
          m_errorMessage := m_errorMessage a; m_crypto := m_crypto a;
          m_compression := m_compression a |}).

(** One round of the loop of [readArchive]; the answer is the error
    message, if any, with the entries pushed so far.  [offset] is a
    [size_t]. *)
Fixpoint readEntries (n : nat) (data : list byte) (offset : Z) (acc : list VarcEntry)
  : outcome (option string * list VarcEntry) :=
  match n with
  | O => Ret (None, acc)
  | S n' =>
    if size data <? u64 (offset + Z.of_nat EntryHeader_fixedSize)
    then Ret (Some "Unexpected end of archive"%string, acc)
    else
      let entryHeaderData := slice (Z.to_nat offset) EntryHeader_fixedSize data in
      let offset := u64 (offset + Z.of_nat EntryHeader_fixedSize) in
      match EntryHeader_deserialize entryHeaderData with
      | None => Ret (Some "Invalid entry header"%string, acc)
      | Some entryHeader =>
        if size data <? u64 (offset + pathLength entryHeader)
        then Ret (Some "Unexpected end of archive (path)"%string, acc)
        else
          let path := string_of_list_byte
                        (slice (Z.to_nat offset) (Z.to_nat (pathLength entryHeader)) data) in
          let offset := u64 (offset + pathLength entryHeader) in
          let dataSize := h_compressedSize entryHeader in
          if size data <? u64 (offset + dataSize)
          then Ret (Some "Unexpected end of archive (data)"%string, acc)
          else if u64 (offset + dataSize) <? offset
          then Crash "readArchive: the range of the entry data ends before it starts"
          else
            let data_ := slice (Z.to_nat offset) (Z.to_nat dataSize) data in
            let offset := u64 (offset + dataSize) in
            if size data <? u64 (offset + 32)
            then Ret (Some "Unexpected end of archive (checksum)"%string, acc)
            else
              let checksum := slice (Z.to_nat offset) 32 data in
              let offset := u64 (offset + 32) in
              let entry := VarcEntry_of_meta path FILE (h_originalSize entryHeader)
                                             (h_fileType entryHeader) in
              let entry := VarcEntry_setCompressedSize entry (h_compressedSize entryHeader) in
              let entry := VarcEntry_setFlags entry (h_flags entryHeader) in
              let entry := VarcEntry_setChecksum entry checksum in
              let entry := VarcEntry_setData entry data_ in
              readEntries n' data offset (acc ++ [entry])
    end
  end.

(** [Archive::readArchive] *)
Definition Archive_readArchive (password : string) (w : World) (a : Archive)
  : outcome (bool * World * Archive) :=
  if size (m_archiveData a) <? 64
  then Ret (false, w, set_error a "Archive file too small")
  else
    let headerData := firstn 64 (m_archiveData a) in
    let (ok, h) := GlobalHeader_deserialize (m_header a) headerData in
    let a := set_header a h in
    if negb ok then Ret (false, w, set_error a "Invalid archive header")
    else if negb (GlobalHeader_isValid h)
    then Ret (false, w, set_error a "Invalid archive signature")
    else
      let init :=
        if GlobalHeader_isEncrypted h then
          if str_empty password
          then Ret (Some "Password required for encrypted archive"%string, w, a)
          else
            match CryptoEngine_initializeFromPassword (m_crypto a) password (salt h) (rand w) with
            | Ret (c, k) => Ret (None, with_rand w k, set_crypto a c)
            | Throw what => Ret (Some ("Failed to initialize encryption: " ++ what)%string, w, a)
            | Crash what => Crash what
            end
        else Ret (None, w, a) in
      '(err, w, a) <- init ;;
      match err with
      | Some msg => Ret (false, w, set_error a msg)
      | None =>
        '(err, es) <- readEntries (Z.to_nat (fileCount h)) (m_archiveData a) 64 [] ;;
        let a := set_entries a es in
        match err with
        | Some msg => Ret (false, w, set_error a msg)
        | None => Ret (true, w, a)
        end
      end.

(** [Archive::open] *)
Definition Archive_open (filepath password : string) (w : World) (a : Archive)
  : outcome (bool * World * Archive) :=
  '(w, a) <- Archive_close w a ;;
  let a := set_archiveData (set_filepath a filepath) [] in
  match files w filepath with
  | None => Ret (false, w, set_error a ("Cannot open archive file: " ++ filepath))
  | Some content =>
    let a := set_archiveData a content in
    '(ok, w, a) <- Archive_readArchive password w a ;;
    if negb ok then Ret (false, w, a)
    else Ret (true, w, set_modified (set_loaded a true) false)
  end.

(** [Archive::processEntry], its first block:
    [if (options.encrypt && !options.password.empty()) { ... }] *)
Definition processEntry_encrypt (entry : VarcEntry) (options : CreateOptions)
    (w : World) (a : Archive) : outcome (VarcEntry * World * Archive) :=
  if encrypt options && negb (str_empty (password options)) then
    '(w, a) <-
      (if negb (CryptoEngine_isInitialized (m_crypto a)) then
         let (salt, k) := CryptoEngine_generateSalt (rand w) in
         '(c, k) <- CryptoEngine_initializeFromPassword
                      (m_crypto a) (password options) salt k ;;
         let (iv, k) := CryptoEngine_generateIV k in
         let h := header_set_salt_iv (m_header a) salt (firstn 16 iv) in
         let h := header_set_flags h (u16 (Z.lor (gflags h) ArchiveFlags.ENCRYPTED)) in
         Ret (with_rand w k, set_header (set_crypto a c) h)
       else Ret (w, a)) ;;
    encrypted <- CryptoEngine_encrypt (m_crypto a) (m_data entry) ;;
    let entry := VarcEntry_setData entry encrypted in
    let entry := VarcEntry_setFlags entry
                   (u32 (Z.lor (m_flags entry) EntryFlags.ENCRYPTED)) in
    Ret (entry, w, a)
  else Ret (entry, w, a).

(** [Archive::processEntry], its second block:
    [if (options.compress) { ... }] *)
Definition processEntry_compress (entry : VarcEntry) (options : CreateOptions)
    (a : Archive) : VarcEntry :=
  if compress options then
    let result := CompressionEngine_compress (m_compression a) (m_data entry) in
    if c_success result then
      let entry := VarcEntry_setData entry (compressedData result) in
      let entry := VarcEntry_setCompressedSize entry (c_compressedSize result) in
      VarcEntry_setFlags entry (u32 (Z.lor (m_flags entry) EntryFlags.COMPRESSED))
    else entry
  else entry.

(** [Archive::processEntry] *)
Definition Archive_processEntry (entry : VarcEntry) (options : CreateOptions)
    (w : World) (a : Archive) : outcome (bool * World * Archive) :=
  '(entry, w, a) <- processEntry_encrypt entry options w a ;;
  let entry := processEntry_compress entry options a in
  Ret (true, w, set_modified (set_entries a (m_entries a ++ [entry])) true).

(** [Archive::addVirtualFile] *)
Definition Archive_addVirtualFile (virtualPath : string) (data : list byte)
    (options : CreateOptions) (w : World) (a : Archive)
  : outcome (bool * World * Archive) :=
  if negb (Archive_isOpen a) then Ret (false, w, set_error a "Archive not open")
  else Archive_processEntry (VarcEntry_of_data virtualPath data FILE) options w a.

(** [Archive::addEntry] *)
Definition Archive_addEntry (entry : VarcEntry) (options : CreateOptions)
    (w : World) (a : Archive) : outcome (bool * World * Archive) :=
  if negb (Archive_isOpen a) then Ret (false, w, set_error a "Archive not open")
  else Archive_processEntry entry options w a.

(** [m_entries.erase(std::find_if(...))]: the first entry with that path *)
Fixpoint erase_first (path : string) (es : list VarcEntry) : option (list VarcEntry) :=
  match es with
  | [] => None
  | e :: es' =>
    if String.eqb (m_relativePath e) path then Some es'
    else option_map (cons e) (erase_first path es')
  end.

(** [Archive::removeEntry] *)
Definition Archive_removeEntry (path : string) (a : Archive) : bool * Archive :=
  match erase_first path (m_entries a) with
  | None => (false, set_error a ("Entry not found: " ++ path))
  | Some es => (true, set_modified (set_entries a es) true)
  end.

(** [Archive::clearEntries] *)
Definition Archive_clearEntries (a : Archive) : Archive :=
  set_modified (set_entries a []) true.

(** *** [std::string] operations used by the wildcard matcher *)

Definition ssize (s : string) : Z := Z.of_nat (String.length s).

(** [s[i]], for [i < s.size()] *)
Definition char_at (s : string) (i : Z) : ascii :=
  match String.get (Z.to_nat i) s with
  | Some c => c
  | None => Ascii.zero
  end.

(** [s.find(needle, pos)]: the first place at or after [pos] where
    [needle] occurs, [npos] if there is none *)
Definition str_find (s needle : string) (pos : Z) : Z :=
  match String.index (Z.to_nat pos) needle s with
  | Some p => Z.of_nat p
  | None => npos
  end.

(** [s.substr(pos, n)], for [pos <= s.size()]: at most [n] characters,
    and no more than the string holds *)
Definition substr (s : string) (pos n : Z) : string :=
  String.substring (Z.to_nat pos) (Z.to_nat (Z.min n (ssize s - pos))) s.

(** The lambda [matchesPattern] of [findEntries] and [removeEntries]:
    the body of its [while] loop, run at most [fuel] times.  [i], [j],
    [next], [pos] are [size_t]. *)
Fixpoint matchesPattern_loop (fuel : nat) (str pattern : string) (i j : Z)
  : option bool :=
  match fuel with
  | O => None
  | S fuel' =>
    if (i <? ssize str) && (j <? ssize pattern) then
      if Ascii.eqb (char_at pattern j) "*" then
        if u64 (j + 1) <? ssize pattern then
          let next := str_find pattern "*" (u64 (j + 1)) in
          let segment := substr pattern (u64 (j + 1)) (u64 (next - j - 1)) in
          let pos := str_find str segment i in
          if pos =? npos then Some false
          else matchesPattern_loop fuel' str pattern (u64 (pos + ssize segment)) next
        else Some true
      else if Ascii.eqb (char_at pattern j) "?"
              || Ascii.eqb (char_at pattern j) (char_at str i)
      then matchesPattern_loop fuel' str pattern (u64 (i + 1)) (u64 (j + 1))
      else Some false
    else Some ((i =? ssize str) && (j =? ssize pattern))
  end.

(** Every round that goes on moves [j] forward, so the loop is left
    after at most [pattern.size() + 1] rounds. *)
Definition matchesPattern (str pattern : string) : option bool :=
  matchesPattern_loop (S (String.length pattern)) str pattern 0 0.

Definition matches (pattern : string) (e : VarcEntry) : bool :=
  match matchesPattern (m_relativePath e) pattern with
  | Some b => b
  | None => false
  end.

(** [Archive::findEntry]; [None] is [nullptr] *)
Fixpoint findEntry (es : list VarcEntry) (path : string) : option VarcEntry :=
  match es with
  | [] => None
  | e :: es' => if String.eqb (m_relativePath e) path then Some e else findEntry es' path
  end.

Definition Archive_findEntry (a : Archive) (path : string) : option VarcEntry :=
  findEntry (m_entries a) path.

(** [Archive::findEntries] *)
Definition Archive_findEntries (a : Archive) (pattern : string) : list VarcEntry :=
  filter (matches pattern) (m_entries a).

(** [Archive::removeEntries] *)
Definition Archive_removeEntries (pattern : string) (a : Archive) : Z * Archive :=
  let count := u64 (size (filter (matches pattern) (m_entries a))) in
  let a := set_entries a (filter (fun e => negb (matches pattern e)) (m_entries a)) in
  (count, if 0 <? count then set_modified a true else a).

(** [Archive::getEntryData] *)
Definition Archive_getEntryData (a : Archive) (path : string) : list byte :=
  match Archive_findEntry a path with
  | None => []
  | Some entry => m_data entry
  end.

(** [Archive::extractFile].  The [password] is not looked at.  With
    no data the stream is opened and closed all the same. *)
Definition Archive_extractFile (path outputPath password : string)
    (w : World) (a : Archive) : outcome (bool * World * Archive) :=
  match Archive_findEntry a path with
  | None => Ret (false, w, set_error a ("Entry not found: " ++ path))
  | Some entry =>
    let data := m_data entry in
    if empty data && (0 <? m_originalSize entry)
    then Ret (false, w, set_error a ("Empty entry data: " ++ path))
    else
      w <- make_parent w outputPath ;;
      if negb (fs_opens (calls w) outputPath)
      then Ret (false, w, set_error a ("Cannot create output file: " ++ outputPath))
      else Ret (true, write_file w outputPath data, a)
  end.

(** [Archive::verifyEntry] *)
Definition Archive_verifyEntry (path password : string) (a : Archive) : bool * Archive :=
  match Archive_findEntry a path with
  | None => (false, set_error a ("Entry not found: " ++ path))
  | Some entry => (true, a)
  end.

(** The loop of [Archive::verify] *)
Fixpoint verify_loop (es : list VarcEntry) (password : string) (a : Archive)
  : bool * Archive :=
  match es with
  | [] => (true, a)
  | entry :: es' =>
    let (ok, a) := Archive_verifyEntry (m_relativePath entry) password a in
    if negb ok then (false, a) else verify_loop es' password a
  end.

(** [Archive::verify] *)
Definition Archive_verify (password : string) (w : World) (a : Archive)
  : outcome (bool * World * Archive) :=
  if negb (GlobalHeader_isValid (m_header a))
  then Ret (false, w, set_error a "Invalid archive header")
  else
    '(stop, w, a) <-
      (if GlobalHeader_isEncrypted (m_header a) then
         if str_empty password
         then Ret (true, w, set_error a "Password required for encrypted archive")
         else
           '(c, k) <- CryptoEngine_initializeFromPassword
                        (m_crypto a) password (salt (m_header a)) (rand w) ;;
           Ret (false, with_rand w k, set_crypto a c)
       else Ret (false, w, a)) ;;
    if stop : bool then Ret (false, w, a)
    else let (ok, a) := verify_loop (m_entries a) password a in Ret (ok, w, a).

(** [Archive::lock] *)
Definition Archive_lock (password : string) (w : World) (a : Archive)
  : outcome (bool * World * Archive) :=
  if str_empty password then Ret (false, w, set_error a "Password cannot be empty")
  else
    let (salt, k) := CryptoEngine_generateSalt (rand w) in
    let (iv, k) := CryptoEngine_generateIV k in
    let h := header_set_salt_iv (m_header a) salt iv in
    let h := header_set_flags h (u16 (Z.lor (gflags h) ArchiveFlags.ENCRYPTED)) in
    '(c, k) <- CryptoEngine_initializeFromPassword (m_crypto a) password salt k ;;
    let es := map (fun entry =>
                     VarcEntry_setFlags entry
                       (u32 (Z.lor (m_flags entry) EntryFlags.ENCRYPTED)))
                  (m_entries a) in
    Ret (true, with_rand w k,
         set_modified (set_entries (set_crypto (set_header a h) c) es) true).

(** [Archive::unlock]: the [try] block is left by the exception of
    [deriveKey] before anything is changed. *)
Definition Archive_unlock (password : string) (w : World) (a : Archive)
  : outcome (bool * World * Archive) :=
  if negb (GlobalHeader_isEncrypted (m_header a))
  then Ret (false, w, set_error a "Archive is not encrypted")
  else
    match CryptoEngine_initializeFromPassword
            (m_crypto a) password (salt (m_header a)) (rand w) with
    | Ret (c, k) =>
      let h := header_set_flags (m_header a)
                 (u16 (Z.land (gflags (m_header a)) (Z.lnot ArchiveFlags.ENCRYPTED))) in
      let es := map (fun entry =>
                       VarcEntry_setFlags entry
                         (u32 (Z.land (m_flags entry) (Z.lnot EntryFlags.ENCRYPTED))))
                    (m_entries a) in
      Ret (true, with_rand w k,
           set_modified (set_entries (set_crypto (set_header a h) c) es) true)
    | Throw _ => Ret (false, w, set_error a "Incorrect password or decryption failed")
    | Crash what => Crash what
    end.

(** [Archive::createEntryFromPath] and [Archive::addFile]: the file is
    read whole; a file that cannot be opened is an exception. *)
Definition Archive_addFile (filepath : string) (options : CreateOptions)
    (w : World) (a : Archive) : outcome (bool * World * Archive) :=
  if negb (Archive_isOpen a) then Ret (false, w, set_error a "Archive not open")
  else
    match files w filepath with
    | None => Throw ("Cannot open file: " ++ filepath)
    | Some data => Archive_processEntry (VarcEntry_of_data filepath data FILE) options w a
    end.

(** *** Sessions *)

(** The mutations of an open archive. *)
Inductive mutation :=
| AddVirtualFile (virtualPath : string) (data : list byte) (options : CreateOptions)
| AddFile (filepath : string) (options : CreateOptions)
| AddEntry (entry : VarcEntry) (options : CreateOptions)
| RemoveEntry (path : string)
| RemoveEntries (pattern : string)
| ClearEntries.

Definition mutate (m : mutation) (w : World) (a : Archive) : outcome (World * Archive) :=
  match m with
  | AddVirtualFile p d o => '(_, w, a) <- Archive_addVirtualFile p d o w a ;; Ret (w, a)
  | AddFile p o => '(_, w, a) <- Archive_addFile p o w a ;; Ret (w, a)
  | AddEntry e o => '(_, w, a) <- Archive_addEntry e o w a ;; Ret (w, a)
  | RemoveEntry p => Ret (w, snd (Archive_removeEntry p a))
  | RemoveEntries p => Ret (w, snd (Archive_removeEntries p a))
  | ClearEntries => Ret (w, Archive_clearEntries a)
  end.

Fixpoint mutations (ms : list mutation) (w : World) (a : Archive)
  : outcome (World * Archive) :=
  match ms with
  | [] => Ret (w, a)
  | m :: ms' => '(w, a) <- mutate m w a ;; mutations ms' w a
  end.

(** [create(f); addVirtualFile(P, B, options); save(f); open(f, pw);
    extractFile(P, out, pw)] on a new [Archive] object. *)
Definition roundtrip (f P out : string) (B : list byte) (options : CreateOptions)
    (pw : string) (w : World) : outcome (bool * World * Archive) :=
  '(_, w, a) <- Archive_create f w Archive_new ;;
  '(_, w, a) <- Archive_addVirtualFile P B options w a ;;
  '(_, w, a) <- Archive_save f w a ;;
  '(_, w, a) <- Archive_open f pw w a ;;
  Archive_extractFile P out pw w a.

(** The bytes [processEntry] leaves in an entry that came with the
    content [B], on an engine that is not yet initialised and a random
    source at request [k]. *)
Definition pipeline_key (pw : string) (k : entropy) : list byte :=
  resize (PBKDF2 pw (resize (RAND_bytes k SALT_SIZE) SALT_SIZE)
                 PBKDF2_ITERATIONS AES_KEY_SIZE) AES_KEY_SIZE.

Definition pipeline_iv (k : entropy) : list byte :=
  resize (RAND_bytes (S k) IV_SIZE) IV_SIZE.

Definition pipeline_output (options : CreateOptions) (k : entropy) (B : list byte)
  : list byte :=
  let d := if encrypt options && negb (str_empty (password options))
           then EVP_encrypt (pipeline_key (password options) k) (pipeline_iv k) B
           else B in
  if compress options then
    let result := CompressionEngine_compress
                    (CompressionEngine_new CompressionLevel.DEFAULT) d in
    if c_success result then compressedData result else d
  else d.

(** *** What the specification asks of verification

    "Reverse the pipeline for the selected entry: inflate if COMPRESSED,
    then decrypt if ENCRYPTED; compare sha256(result) with the stored
    checksum; true iff all succeed", written with the engines of the
    source. *)
Definition spec_reverse_pipeline (a : Archive) (e : VarcEntry) : option (list byte) :=
  let inflated :=
    if VarcEntry_isCompressed e then
      match CompressionEngine_decompress (m_compression a) (m_data e) (m_originalSize e) with
      | Some r => if d_success r then Some (decompressedData r) else None
      | None => None
      end
    else Some (m_data e) in
  match inflated with
  | None => None
  | Some d =>
    if VarcEntry_isEncrypted e then
      match CryptoEngine_decrypt (m_crypto a) d with
      | Ret plaintext => Some plaintext
      | _ => None
      end
    else Some d
  end.

Definition spec_verify_entry (a : Archive) (e : VarcEntry) : bool :=
  match spec_reverse_pipeline a e with
  | Some d => CryptoEngine_verifyChecksum d (m_checksum e)
  | None => false
  end.

Definition spec_verify (a : Archive) : bool :=
  forallb (spec_verify_entry a) (m_entries a).

(** *** States and shapes the properties speak of *)

(** What [readArchive] makes of an entry that was written: type [FILE],
    and sizes, type tag and checksum as [setData] derives them from the
    stored bytes. *)
Definition reloaded (e : VarcEntry) : VarcEntry :=
  VarcEntry_setData
    (VarcEntry_setChecksum
       (VarcEntry_setFlags
          (VarcEntry_setCompressedSize
             (VarcEntry_of_meta (m_relativePath e) FILE (m_originalSize e) (m_fileType e))
             (m_compressedSize e))
          (m_flags e))
       (firstn 32 (m_checksum e)))
    (m_data e).

(** Entries whose fields fit the widths of the format, with a
    checksum of 32 bytes. *)
Definition wf_entry (e : VarcEntry) : Prop :=
  ssize (m_relativePath e) <= MAX_PATH_LENGTH
  /\ 0 <= m_originalSize e < 2 ^ 64
  /\ m_compressedSize e = size (m_data e)
  /\ 0 <= m_fileType e < 2 ^ 32
  /\ 0 <= m_flags e < 2 ^ 32
  /\ length (m_checksum e) = CHECKSUM_SIZE.

(** Headers whose fields fit the widths of the format. *)
Definition wf_header (h : GlobalHeader) : Prop :=
  signature h = VARC_SIGNATURE
  /\ 0 <= version h < 2 ^ 16
  /\ 0 <= gflags h < 2 ^ 16.

(** The bytes [save] writes and the state it leaves. *)
Definition archive_bytes (a : Archive) : list byte :=
  firstn 64 (GlobalHeader_serialize (m_header (Archive_updateHeader a)))
  ++ flat_map entry_record (m_entries a).

Definition saved (a : Archive) (f : string) : Archive :=
  set_modified (set_filepath (set_archiveData (Archive_updateHeader a) (archive_bytes a)) f)
               false.

(** The state in which [open] calls [readArchive]. *)
Definition opening (a : Archive) (f : string) (content : list byte) : Archive :=
  set_archiveData
    (set_archiveData
       (set_filepath
          {| m_filepath := ""; m_header := GlobalHeader_default;
             m_entries := []; m_archiveData := []; m_modified := false;
             m_loaded := false; m_errorMessage := "";
             m_crypto := m_crypto a; m_compression := m_compression a |} f) [])
    content.

(** Entries as the controller keeps them: both sizes are the length of
    the bytes held, cast to 64 bits. *)
Definition normal (e : VarcEntry) : Prop :=
  m_originalSize e = u64 (size (m_data e))
  /\ m_compressedSize e = u64 (size (m_data e))
  /\ 0 <= m_fileType e < 2 ^ 32
  /\ 0 <= m_flags e < 2 ^ 32.

(** Entries as the library builds them: both sizes from the bytes
    held, and a checksum of 32 bytes. *)
Definition built (e : VarcEntry) : Prop :=
  normal e /\ length (m_checksum e) = CHECKSUM_SIZE.


(** In the world [w] an output stream on [f] opens, and the file then
    reads back what was written to it. *)
Definition keeps (w : World) (f : string) : Prop :=
  fs_opens (calls w) f = true
  /\ forall content, files (write_file w f content) f = Some content.

(** In the world [w] the parent directory of [out] can be made, and
    [out] is kept from then on. *)
Definition receives (w : World) (out : string) : Prop :=
  exists w1, make_parent w out = Ret w1 /\ keeps w1 out.

(** The state [create] leaves on a new object. *)
Definition created (f : string) : Archive :=
  {| m_filepath := f; m_header := GlobalHeader_default; m_entries := [];
     m_archiveData := []; m_modified := true; m_loaded := true;
     m_errorMessage := ""; m_crypto := CryptoEngine_new;
     m_compression := CompressionEngine_new CompressionLevel.DEFAULT |}.

End Core.

(** ** The rest of the library

    The parts of the five sources that the controller above does not
    go through: the metadata codec, the remaining methods of the entry
    and of the two engines, and the operations of [Archive] that list,
    extract and re-key. *)

Section Library.
Context {prim : Primitives}.

(** *** [ArchiveMetadata] (Header.cpp) *)

Record ArchiveMetadata := mkArchiveMetadata {
  creationTime : Z;        (* uint64_t *)
  modificationTime : Z;    (* uint64_t *)
  creator : string;
  description : string;
  customTags : list (string * string)
}.

(** [ArchiveMetadata::ArchiveMetadata()], at the second [now] of the
    system clock *)
Definition ArchiveMetadata_new (now : Z) : ArchiveMetadata :=
  {| creationTime := u64 now; modificationTime := u64 now;
     creator := ""; description := ""; customTags := [] |}.

(** One tag as [serialize] writes it: the lengths go out on two bytes,
    the strings in full. *)
Definition tag_record (tag : string * string) : list byte :=
  be_bytes 2 (u16 (ssize (fst tag))) ++ bytes_of (fst tag)
  ++ be_bytes 2 (u16 (ssize (snd tag))) ++ bytes_of (snd tag).

(** [ArchiveMetadata::serialize] *)
Definition ArchiveMetadata_serialize (m : ArchiveMetadata) : list byte :=
  be_bytes 8 (creationTime m)
  ++ be_bytes 8 (modificationTime m)
  ++ be_bytes 4 (u32 (ssize (creator m))) ++ bytes_of (creator m)
  ++ be_bytes 4 (u32 (ssize (description m))) ++ bytes_of (description m)
  ++ be_bytes 2 (u16 (size (customTags m)))
  ++ flat_map tag_record (customTags m).

(** [data[offset + i]] for [i = 0 .. n-1], the sum taken in [size_t] *)
Definition peek64 (data : list byte) (offset : Z) (n : nat) : list byte :=
  map (fun i => at_ data (Z.to_nat (u64 (offset + Z.of_nat i)))) (seq 0 n).

(** [std::string(reinterpret_cast<const char*>(data.data() + offset), n)] *)
Definition string_at (data : list byte) (offset n : Z) : string :=
  string_of_list_byte (peek data (Z.to_nat offset) (Z.to_nat n)).

Definition with_times (m : ArchiveMetadata) (c t : Z) : ArchiveMetadata :=
  {| creationTime := c; modificationTime := t; creator := creator m;
     description := description m; customTags := customTags m |}.

Definition with_creator (m : ArchiveMetadata) (s : string) : ArchiveMetadata :=
  {| creationTime := creationTime m; modificationTime := modificationTime m;
     creator := s; description := description m; customTags := customTags m |}.

Definition with_description (m : ArchiveMetadata) (s : string) : ArchiveMetadata :=
  {| creationTime := creationTime m; modificationTime := modificationTime m;
     creator := creator m; description := s; customTags := customTags m |}.

Definition with_tag (m : ArchiveMetadata) (key value : string) : ArchiveMetadata :=
  {| creationTime := creationTime m; modificationTime := modificationTime m;
     creator := creator m; description := description m;
     customTags := customTags m ++ [(key, value)] |}.

(** The loop over the tags in [ArchiveMetadata::deserialize]: [n] rounds
    are left.  The answer is the offset behind the last tag, or 0 as
    soon as the buffer is too short; the tags read so far stay. *)
Fixpoint readTags (n : nat) (data : list byte) (offset : Z) (m : ArchiveMetadata)
  : Z * ArchiveMetadata :=
  match n with
  | O => (offset, m)
  | S n' =>
    if size data <? u64 (offset + 2) then (0, m)
    else
      let keyLen := be_read 16 (peek64 data offset 2) in
      let offset := u64 (offset + 2) in
      if size data <? u64 (offset + keyLen) then (0, m)
      else
        let key := string_at data offset keyLen in
        let offset := u64 (offset + keyLen) in
        if size data <? u64 (offset + 2) then (0, m)
        else
          let valueLen := be_read 16 (peek64 data offset 2) in
          let offset := u64 (offset + 2) in
          if size data <? u64 (offset + valueLen) then (0, m)
          else
            let value := string_at data offset valueLen in
            let offset := u64 (offset + valueLen) in
            readTags n' data offset (with_tag m key value)
  end.

(** [ArchiveMetadata::deserialize(data, offset)], a method: the fields
    of [m] are overwritten as they are read, and the tags are added to
    those [m] has.  The lengths of creator and description and the
    number of tags are read without a look at the size of the buffer. *)
Definition ArchiveMetadata_deserialize (m : ArchiveMetadata) (data : list byte)
    (offset : Z) : Z * ArchiveMetadata :=
  if size data <? u64 (offset + 16) then (0, m)
  else
    let c := be_read 64 (peek64 data offset 8) in
    let offset := u64 (offset + 8) in
    let t := be_read 64 (peek64 data offset 8) in
    let offset := u64 (offset + 8) in
    let m := with_times m c t in
    let creatorLen := be_read 32 (peek64 data offset 4) in
    let offset := u64 (offset + 4) in
    if size data <? u64 (offset + creatorLen) then (0, m)
    else
      let m := with_creator m (string_at data offset creatorLen) in
      let offset := u64 (offset + creatorLen) in
      let descLen := be_read 32 (peek64 data offset 4) in
      let offset := u64 (offset + 4) in
      if size data <? u64 (offset + descLen) then (0, m)
      else
        let m := with_description m (string_at data offset descLen) in
        let offset := u64 (offset + descLen) in
        let tagCount := be_read 16 (peek64 data offset 2) in
        let offset := u64 (offset + 2) in
        readTags (Z.to_nat tagCount) data offset m.

(** *** [VarcEntry], the remaining methods *)

(** [VarcEntry::setType]: the flag of the new type is added, none is
    taken away. *)
Definition VarcEntry_setType (e : VarcEntry) (type : EntryType) : VarcEntry :=
  {| m_relativePath := m_relativePath e; m_type := type;
     m_originalSize := m_originalSize e; m_compressedSize := m_compressedSize e;
     m_offset := m_offset e; m_fileType := m_fileType e;
     m_flags := match type with
                | DIRECTORY => u32 (Z.lor (m_flags e) EntryFlags.DIRECTORY)
                | SYMLINK => u32 (Z.lor (m_flags e) EntryFlags.SYMLINK)
                | FILE => m_flags e
                end;
     m_checksum := m_checksum e; m_data := m_data e |}.

Definition VarcEntry_isSymlink (e : VarcEntry) : bool :=
  match m_type e with SYMLINK => true | _ => false end
  || negb (Z.land (m_flags e) EntryFlags.SYMLINK =? 0).

(** [VarcEntry::getTypeString] *)
Definition VarcEntry_getTypeString (e : VarcEntry) : string :=
  if m_fileType e =? FileType.TEXT then "Text"
  else if m_fileType e =? FileType.BINARY then "Binary"
  else if m_fileType e =? FileType.IMAGE then "Image"
  else if m_fileType e =? FileType.AUDIO then "Audio"
  else if m_fileType e =? FileType.VIDEO then "Video"
  else if m_fileType e =? FileType.DOCUMENT then "Document"
  else if m_fileType e =? FileType.ARCHIVE then "Archive"
  else "Unknown".

(** *** [CryptoEngine], the remaining methods *)

(** [CryptoEngine::initialize(key, iv)] *)
Definition CryptoEngine_initialize (c : CryptoEngine) (key iv : list byte)
  : outcome CryptoEngine :=
  if negb (length key =? AES_KEY_SIZE)%nat
  then Throw "Invalid key size for AES-256"
  else if negb (length iv =? IV_SIZE)%nat
  then Throw "Invalid IV size for AES"
  else Ret {| m_key := key; m_iv := iv; m_initialized := true |}.

(** [std::memset(p, 0, size)] *)
Definition memset0 (buffer : list byte) : list byte := map (fun _ => x00) buffer.

(** [CryptoEngine::secureWipe]: zeros, random bytes, zeros.  The
    answer of [RAND_bytes] is not looked at. *)
Definition CryptoEngine_secureWipe (buffer : list byte) (k : entropy)
  : list byte * entropy :=
  if empty buffer then (buffer, k)
  else
    let buffer := memset0 buffer in
    let buffer := resize (RAND_bytes k (length buffer)) (length buffer) in
    let buffer := memset0 buffer in
    (buffer, S k).

(** [CryptoEngine::clear] *)
Definition CryptoEngine_clear (c : CryptoEngine) (k : entropy)
  : CryptoEngine * entropy :=
  let (_, k) := CryptoEngine_secureWipe (m_key c) k in
  let (_, k) := CryptoEngine_secureWipe (m_iv c) k in
  ({| m_key := []; m_iv := []; m_initialized := false |}, k).

(** A digit of [std::hex] output (lower case). *)
Definition hex_digit (n : Z) : ascii :=
  if n <? 10 then ascii_of_nat (Z.to_nat (48 + n))
  else ascii_of_nat (Z.to_nat (87 + n)).

(** [oss << std::hex << n] for [0 <= n < 256]: one digit or two *)
Definition hex_of_int (n : Z) : string :=
  if n <? 16 then String (hex_digit n) ""
  else String (hex_digit (n / 16)) (String (hex_digit (n mod 16)) "").

(** [std::setw(w)] with [std::setfill(c)]: short fields are filled up
    on the left. *)
Definition setw (w : nat) (c : ascii) (s : string) : string :=
  string_of_list_ascii (repeat c (w - String.length s)) ++ s.

(** [CryptoEngine::bytesToHex] *)
Definition CryptoEngine_bytesToHex (data : list byte) : string :=
  fold_right (fun b s => setw 2 "0" (hex_of_int (u8 b)) ++ s)%string ""%string data.

(** The value of a hexadecimal digit, in either case. *)
Definition hex_value (c : ascii) : option Z :=
  let n := Z.of_nat (nat_of_ascii c) in
  if (48 <=? n) && (n <=? 57) then Some (n - 48)
  else if (97 <=? n) && (n <=? 102) then Some (n - 87)
  else if (65 <=? n) && (n <=? 70) then Some (n - 55)
  else None.

(** [std::istringstream iss(byteStr); iss >> std::hex >> byte;] on a
    field of two characters.  Two digits are read as the number they
    spell.  What the [unsigned int] holds after any other field (a
    sign, a blank, a letter behind the digits, nothing that can be
    read) is given by [other]. *)
Definition extract_hex (other : string -> Z) (c1 c2 : ascii) : Z :=
  match hex_value c1, hex_value c2 with
  | Some h, Some l => 16 * h + l
  | _, _ => other (String c1 (String c2 ""))
  end.

(** The loop of [hexToBytes] over a string of even length. *)
Fixpoint hexToBytes_loop (other : string -> Z) (hex : string) : list byte :=
  match hex with
  | String c1 (String c2 rest) =>
      to_u8 (extract_hex other c1 c2) :: hexToBytes_loop other rest
  | _ => []
  end.

(** [CryptoEngine::hexToBytes] *)
Definition CryptoEngine_hexToBytes (other : string -> Z) (hex : string)
  : outcome (list byte) :=
  if negb (ssize hex mod 2 =? 0) then Throw "Invalid hex string: odd length"
  else Ret (hexToBytes_loop other hex).

(** *** [CompressionEngine], the remaining methods *)

(** [CompressionEngine::setCompressionLevel] *)
Definition CompressionEngine_setCompressionLevel (c : CompressionEngine) (level : Z)
  : CompressionEngine :=
  {| m_compressionLevel := Z.max 0 (Z.min 9 level);
     m_windowBits := m_windowBits c; z_initialized := z_initialized c |}.

(** [CompressionEngine::getOptimalLevel] *)
Definition CompressionEngine_getOptimalLevel (dataType : Z) : Z :=
  if dataType =? FileType.TEXT then CompressionLevel.BEST
  else if dataType =? FileType.DOCUMENT then CompressionLevel.BEST
  else if dataType =? FileType.IMAGE then CompressionLevel.DEFAULT
  else if (dataType =? FileType.AUDIO) || (dataType =? FileType.VIDEO)
  then CompressionLevel.FASTEST
  else CompressionLevel.DEFAULT.

(** [CompressionEngine::getLevelName] *)
Definition CompressionEngine_getLevelName (level : Z) : string :=
  if level =? 0 then "None"
  else if level <=? 1 then "Fastest"
  else if level <=? 3 then "Fast"
  else if level <=? 6 then "Default"
  else if level <=? 9 then "Best"
  else "Custom".

(** *** [Archive], the remaining operations *)

(** [Archive::entryExists] *)
Definition Archive_entryExists (a : Archive) (path : string) : bool :=
  match Archive_findEntry a path with Some _ => true | None => false end.

(** [Archive::getEntryCount] *)
Definition Archive_getEntryCount (a : Archive) : Z := u64 (size (m_entries a)).

(** [Archive::getTotalOriginalSize] *)
Definition Archive_getTotalOriginalSize (a : Archive) : Z :=
  fold_left (fun total entry => u64 (total + m_originalSize entry)) (m_entries a) 0.

(** [Archive::getTotalCompressedSize] *)
Definition Archive_getTotalCompressedSize (a : Archive) : Z :=
  fold_left (fun total entry => u64 (total + m_compressedSize entry)) (m_entries a) 0.

(** [Archive::changePassword].  The key derived from the old password
    is not used. *)
Definition Archive_changePassword (oldPassword newPassword : string)
    (w : World) (a : Archive) : outcome (bool * World * Archive) :=
  if negb (GlobalHeader_isEncrypted (m_header a))
  then Ret (false, w, set_error a "Archive is not encrypted")
  else
    oldKey <- CryptoEngine_deriveKey oldPassword (salt (m_header a)) ;;
    let (newSalt, k) := CryptoEngine_generateSalt (rand w) in
    let (newIV, k) := CryptoEngine_generateIV k in
    let h := header_set_salt_iv (m_header a) newSalt newIV in
    '(c, k) <- CryptoEngine_initializeFromPassword (m_crypto a) newPassword newSalt k ;;
    Ret (true, with_rand w k, set_modified (set_crypto (set_header a h) c) true).

(** [Archive::setMetadata]: the metadata itself is not kept. *)
Definition Archive_setMetadata (metadata : ArchiveMetadata) (a : Archive) : Archive :=
  set_modified
    (set_header a (header_set_flags (m_header a)
                     (u16 (Z.lor (gflags (m_header a)) ArchiveFlags.HAS_METADATA))))
    true.

(** [Archive::getMetadata]: a function-local static object, built at
    the first call, at the second [first] of the system clock. *)
Definition Archive_getMetadata (first : Z) (a : Archive) : ArchiveMetadata :=
  ArchiveMetadata_new first.

(** [ArchiveResult]; [message], [timeMs] and [stats] are not written
    by the operations below. *)
Record ArchiveResult := mkArchiveResult {
  r_success : bool;
  filesProcessed : Z;      (* uint64_t *)
  bytesProcessed : Z       (* uint64_t *)
}.

Record ExtractOptions := mkExtractOptions {
  overwrite : bool;
  preservePermissions : bool;
  preserveTimestamps : bool;
  outputDirectory : string;
  x_filter : list string   (* filter *)
}.

(** [ExtractOptions::ExtractOptions()] *)
Definition ExtractOptions_default : ExtractOptions :=
  {| overwrite := false; preservePermissions := true; preserveTimestamps := true;
     outputDirectory := "."; x_filter := [] |}.

(** The filter of [extractAll]: no filter at all, or a filter string
    that occurs somewhere in the path. *)
Definition passes_filter (options : ExtractOptions) (entry : VarcEntry) : bool :=
  empty (x_filter options)
  || existsb (fun f => negb (str_find (m_relativePath entry) f 0 =? npos))
             (x_filter options).

(** The loop of [Archive::extractAll] over the entries that are left.
    No progress callback is installed. *)
Fixpoint extractAll_loop (es : list VarcEntry) (outputDir password : string)
    (options : ExtractOptions) (result : ArchiveResult) (w : World) (a : Archive)
  : outcome (ArchiveResult * World * Archive) :=
  match es with
  | [] => Ret (result, w, a)
  | entry :: es' =>
    if VarcEntry_isDirectory entry
    then
      w <- make_directories w (outputDir ++ "/" ++ m_relativePath entry) ;;
      extractAll_loop es' outputDir password options result w a
    else if negb (passes_filter options entry)
    then extractAll_loop es' outputDir password options result w a
    else
      let outputPath := (outputDir ++ "/" ++ m_relativePath entry)%string in
      w <- make_parent w outputPath ;;
      '(ok, w, a) <- Archive_extractFile (m_relativePath entry) outputPath password w a ;;
      let result :=
        if ok : bool then
          {| r_success := r_success result;
             filesProcessed := u64 (filesProcessed result + 1);
             bytesProcessed := u64 (bytesProcessed result + m_originalSize entry) |}
        else
          {| r_success := false; filesProcessed := filesProcessed result;
             bytesProcessed := bytesProcessed result |} in
      extractAll_loop es' outputDir password options result w a
  end.

(** [Archive::extractAll] *)
Definition Archive_extractAll (outputDir password : string) (options : ExtractOptions)
    (w : World) (a : Archive) : outcome (ArchiveResult * World * Archive) :=
  let result := {| r_success := true; filesProcessed := 0; bytesProcessed := 0 |} in
  w <- make_directories w outputDir ;;
  '(stop, w, a) <-
    (if GlobalHeader_isEncrypted (m_header a) then
       if str_empty password
       then Ret (true, w, set_error a "Password required for encrypted archive")
       else
         '(c, k) <- CryptoEngine_initializeFromPassword
                      (m_crypto a) password (salt (m_header a)) (rand w) ;;
         Ret (false, with_rand w k, set_crypto a c)
     else Ret (false, w, a)) ;;
  if stop : bool
  then Ret ({| r_success := false; filesProcessed := 0; bytesProcessed := 0 |}, w, a)
  else extractAll_loop (m_entries a) outputDir password options result w a.

(** [Archive::extractPattern]: the paths of the matching entries become
    the filter of [extractAll]. *)
Definition Archive_extractPattern (pattern outputDir password : string)
    (w : World) (a : Archive) : outcome (ArchiveResult * World * Archive) :=
  let matching := Archive_findEntries a pattern in
  let options :=
    {| overwrite := overwrite ExtractOptions_default;
       preservePermissions := preservePermissions ExtractOptions_default;
       preserveTimestamps := preserveTimestamps ExtractOptions_default;
       outputDirectory := outputDir;
       x_filter := map m_relativePath matching |} in
  Archive_extractAll outputDir password options w a.

(** The first bytes of the magic numbers of [FileType::detect] that
    are printable characters: [%PDF], [Exif], [GIF8], [ID3], [JFIF],
    [OggS], [PK], [RIFF]. *)
Definition magic_initials : list byte := [x25; x45; x47; x49; x4a; x4f; x50; x52].

(** Tags whose key and value fit the two bytes of their length. *)
Definition short_tag (tag : string * string) : Prop :=
  ssize (fst tag) < 2 ^ 16 /\ ssize (snd tag) < 2 ^ 16.

(** What every entry that [readArchive] has pushed looks like. *)
Definition as_loaded (e : VarcEntry) : Prop :=
  m_type e = FILE
  /\ m_checksum e = CryptoEngine_sha256 (m_data e)
  /\ m_originalSize e = u64 (size (m_data e))
  /\ m_compressedSize e = u64 (size (m_data e)).

(** The entries [extractAll] writes: no directory, and let through by
    the filter. *)
Definition selected (options : ExtractOptions) (entry : VarcEntry) : bool :=
  negb (VarcEntry_isDirectory entry) && passes_filter options entry.

(** [outputDir + "/" + entry.getPath()], the file [extractAll] writes
    an entry to. *)
Definition output_of (outputDir : string) (entry : VarcEntry) : string :=
  (outputDir ++ "/" ++ m_relativePath entry)%string.

(** Some entry of [es] is written to the file [p]. *)
Definition hits (options : ExtractOptions) (outputDir p : string) (es : list VarcEntry)
  : Prop :=
  exists e, In e es /\ selected options e = true /\ output_of outputDir e = p.

(** The directories [extractAll] makes: the output directory, one for
    each directory entry, and the parent of each file it writes, unless
    that is the empty path. *)
Definition made_by (options : ExtractOptions) (outputDir : string)
    (es : list VarcEntry) (d : string) : Prop :=
  d = outputDir
  \/ (exists e, In e es /\ VarcEntry_isDirectory e = true /\ d = output_of outputDir e)
  \/ (exists e, In e es /\ selected options e = true
                 /\ d = fs_parent_path (output_of outputDir e)
                 /\ str_empty d = false).

(** A set [good] of states of the disk serves an extraction: in each
    of its states the directories of the extraction can be made and a
    stream opens on each of its output files; the state that follows
    is in the set again; the file that was written reads back what
    was written, and the other output files read as they did. *)
Definition serves (good : list fs_call -> Prop) (options : ExtractOptions)
    (outputDir : string) (es : list VarcEntry) : Prop :=
  (forall cs d,
      good cs -> made_by options outputDir es d ->
      fs_create_directories cs d = None
      /\ good (cs ++ [MadeDirectories d])
      /\ forall e, In e es -> selected options e = true ->
                   fs_read (cs ++ [MadeDirectories d]) (output_of outputDir e)
                   = fs_read cs (output_of outputDir e))
  /\ (forall cs e content,
         good cs -> In e es -> selected options e = true ->
         fs_opens cs (output_of outputDir e) = true
         /\ good (cs ++ [Wrote (output_of outputDir e) content])
         /\ fs_read (cs ++ [Wrote (output_of outputDir e) content]) (output_of outputDir e)
            = Some content
         /\ forall e', In e' es -> selected options e' = true ->
                       output_of outputDir e' <> output_of outputDir e ->
                       fs_read (cs ++ [Wrote (output_of outputDir e) content])
                               (output_of outputDir e')
                       = fs_read cs (output_of outputDir e')).

(** The sum of a list of sizes. *)
Definition total (sizes : list Z) : Z := fold_right Z.add 0 sizes.

(** *** Shapes of patterns and strings *)

(** No star in a pattern. *)
Fixpoint star_free (pattern : string) : bool :=
  match pattern with
  | EmptyString => true
  | String c rest => negb (Ascii.eqb c "*") && star_free rest
  end.

(** Neither star nor question mark. *)
Fixpoint literal (pattern : string) : bool :=
  match pattern with
  | EmptyString => true
  | String c rest => negb (Ascii.eqb c "*") && negb (Ascii.eqb c "?") && literal rest
  end.

(** Position by position: the same length, and every character of the
    pattern is a question mark or the character of the string. *)
Fixpoint agrees (str pattern : string) : bool :=
  match str, pattern with
  | EmptyString, EmptyString => true
  | String c str', String p pattern' =>
      (Ascii.eqb p "?" || Ascii.eqb p c) && agrees str' pattern'
  | _, _ => false
  end.

(** The string goes on behind a front that agrees with the pattern. *)
Fixpoint extends (str pattern : string) : bool :=
  match pattern, str with
  | EmptyString, String _ _ => true
  | String p pattern', String c str' =>
      (Ascii.eqb p "?" || Ascii.eqb p c) && extends str' pattern'
  | _, EmptyString => false
  end.

End Library.

(** ** A stand-in for OpenSSL, zlib and the file system

    The controller can be run on concrete archives once the primitives
    are given.  The stand-ins below keep the shape of the real ones (a
    32-byte digest, PKCS#7 padding to whole blocks of 16 bytes, a
    two-byte magic in front of a deflated stream, a disk that reads
    back what was written) and nothing of their strength. *)
Module Standin.

Definition digest (d : list byte) : list byte :=
  be_bytes 32 (fold_left (fun acc b => (acc * 257 + u8 b + 1) mod 2 ^ 256) d 7).

Definition kdf (pw : string) (salt : list byte) (it : Z) (n : nat) : list byte :=
  let seed := fold_left (fun acc b => (acc * 31 + u8 b + 1) mod 2 ^ 64)
                        (list_byte_of_string pw ++ salt) it in
  map (fun i => to_u8 (seed + Z.of_nat i)) (seq 0 n).

Definition random (k n : nat) : list byte :=
  map (fun i => to_u8 (Z.of_nat (17 * k + i + 1))) (seq 0 n).

Definition xor_stream (key iv : list byte) (d : list byte) : list byte :=
  map (fun '(i, b) => to_u8 (Z.lxor (u8 b)
                               (Z.lxor (u8 (nth (i mod 32) key x00))
                                       (u8 (nth (i mod 16) iv x00)))))
      (combine (seq 0 (length d)) d).

Definition pkcs7_pad (d : list byte) : list byte :=
  let p := (16 - length d mod 16)%nat in
  d ++ repeat (to_u8 (Z.of_nat p)) p.

Definition pkcs7_unpad (d : list byte) : option (list byte) :=
  let p := Z.to_nat (u8 (last d x00)) in
  if ((1 <=? p) && (p <=? 16) && (p <=? length d) && (length d mod 16 =? 0))%nat
     && bytes_eqb (skipn (length d - p) d) (repeat (last d x00) p)
  then Some (firstn (length d - p) d)
  else None.

Definition cbc_encrypt (key iv pt : list byte) : list byte :=
  xor_stream key iv (pkcs7_pad pt).

Definition cbc_decrypt (key iv ct : list byte) : option (list byte) :=
  pkcs7_unpad (xor_stream key iv ct).

Definition deflate (level windowBits : Z) (d : list byte) : deflate_outcome :=
  if (0 <=? level) && (level <=? 9) then Z_DEFLATED (x1f :: x8b :: d)
  else Z_DEFLATE_INIT_ERROR.

Definition inflate (windowBits : Z) (d : list byte) : inflate_outcome :=
  match d with
  | x1f :: x8b :: rest => Z_STREAM_END rest
  | [] | [x1f] => Z_stalled
  | _ => Z_DATA_ERROR "incorrect header check"
  end.

(** A disk that starts empty, on which every stream opens and every
    directory can be made: a path reads what was last written to it. *)
Fixpoint last_written (cs : list fs_call) (p : string) : option (list byte) :=
  match cs with
  | [] => None
  | c :: cs' =>
    match last_written cs' p with
    | Some content => Some content
    | None =>
      match c with
      | Wrote q content => if String.eqb q p then Some content else None
      | MadeDirectories _ => None
      end
    end
  end.

Fixpoint has_slash (s : string) : bool :=
  match s with
  | EmptyString => false
  | String c rest => Ascii.eqb c "/" || has_slash rest
  end.

Fixpoint up_to_last_slash (s : string) : string :=
  match s with
  | EmptyString => EmptyString
  | String c rest => if has_slash rest then String c (up_to_last_slash rest) else EmptyString
  end.

Definition primitives : Primitives :=
  {| SHA256 := digest;
     PBKDF2 := kdf;
     RAND_bytes := random;
     EVP_encrypt := cbc_encrypt;
     EVP_decrypt := cbc_decrypt;
     zlib_deflate := deflate;
     zlib_inflate := inflate;
     zlib_partial := fun n _ => (repeat x00 (Z.to_nat n), 0);
     stray := fun _ _ => x00;
     fs_read := last_written;
     fs_opens := fun _ _ => true;
     fs_create_directories := fun _ _ => None;
     fs_parent_path := up_to_last_slash |}.

(** An empty disk and a fresh random source. *)
Definition world : World := {| calls := []; rand := O |}.

(** The first 64 bytes of an empty archive. *)
Definition header64 : list byte := VARC_SIGNATURE ++ [x00; x03] ++ repeat x00 58.

Definition plain : CreateOptions :=
  {| compress := false; compressionLevel := 6; encrypt := false; password := "" |}.

Definition with_password : CreateOptions :=
  {| compress := false; compressionLevel := 6; encrypt := true; password := "pw" |}.

Definition no_password : CreateOptions :=
  {| compress := false; compressionLevel := 6; encrypt := true; password := "" |}.

(** [create("f")] and [addVirtualFile("a", "A", with_password)]. *)
Definition locked : Archive :=
  match Archive_addVirtualFile (prim := primitives) "a" [x41] with_password
          world (created "f") with
  | Ret (_, _, a) => a
  | _ => Archive_new
  end.

(** [locked], saved and opened again with a password. *)
Definition reopen_locked (password : string) : outcome (bool * World * Archive) :=
  '(_, w, a) <- Archive_save (prim := primitives) "f" world locked ;;
  Archive_open (prim := primitives) "f" password w a.

(** An entry whose checksum was set by hand, to no bytes at all, and
    an archive that holds it. *)
Definition forged_entry : VarcEntry :=
  VarcEntry_setChecksum (VarcEntry_of_data (prim := primitives) "a" [x41] FILE) [].

Definition forged : Archive :=
  match Archive_addEntry (prim := primitives) forged_entry plain world (created "f") with
  | Ret (_, _, a) => a
  | _ => Archive_new
  end.

(** Two files are added to a new archive and the first is removed. *)
Definition session : list mutation :=
  [AddVirtualFile "a" [x41] plain; AddVirtualFile "b" [x42] plain; RemoveEntry "a"].

Definition after_session : World * Archive :=
  match mutations (prim := primitives) session world (created "f") with
  | Ret st => st
  | _ => (world, Archive_new)
  end.

Definition after_save : World * Archive :=
  match Archive_save (prim := primitives) "f" (fst after_session) (snd after_session) with
  | Ret (_, w, a) => (w, a)
  | _ => (world, Archive_new)
  end.

End Standin.

(** ** Sample values

    Concrete headers, metadata, entries and archives on which the
    properties of the rest of the library are run, with the stand-in
    primitives. *)
Module Sample.

(** A path length that does not fit two bytes. *)
Definition long_path_header : EntryHeader :=
  {| pathLength := 70000; h_originalSize := 5; h_compressedSize := 5;
     h_fileType := 1; h_flags := 0 |}.

(** A header with salt, IV and a reserved word that uses its low
    bytes. *)
Definition header : GlobalHeader :=
  {| signature := VARC_SIGNATURE; version := 3; gflags := 1; fileCount := 2;
     salt := Standin.random 0 32; iv := Standin.random 1 16; reserved := 258 |}.

Definition metadata : ArchiveMetadata :=
  {| creationTime := 1; modificationTime := 2; creator := "me";
     description := "notes"; customTags := [("k", "v"); ("key", "")]%string |}.

(** Metadata that hold one tag already. *)
Definition tagged : ArchiveMetadata :=
  {| creationTime := 0; modificationTime := 0; creator := "";
     description := ""; customTags := [("old", "tag")]%string |}.

(** An archive with the entries [dir/a] (twice, with different
    content) and [b], none compressed or encrypted. *)
Definition twice : Archive :=
  match mutations (prim := Standin.primitives)
          [AddVirtualFile "dir/a" [x41] Standin.plain;
           AddVirtualFile "b" [x42; x43] Standin.plain;
           AddVirtualFile "dir/a" [x44] Standin.plain]
          Standin.world (created "f") with
  | Ret (_, a) => a
  | _ => Archive_new
  end.

End Sample.

Ltac pow64 :=
  change (2 ^ 64) with 18446744073709551616 in *;
  change (2 ^ 32) with 4294967296 in *;
  change (2 ^ 16) with 65536 in *.

(** * Properties *)

(** ** Bytes and big-endian fields *)

Lemma u8_range (b : byte) : 0 <= u8 b < 256.
Proof.
  unfold u8. pose proof (Byte.to_N_bounded b). lia.
Qed.

Lemma to_u8_u8 (b : byte) : to_u8 (u8 b) = b.
Proof.
  unfold to_u8. rewrite Z.mod_small by apply u8_range.
  unfold u8. rewrite N2Z.id, Byte.of_to_N. reflexivity.
Qed.

Lemma u8_to_u8 (z : Z) : u8 (to_u8 z) = z mod 256.
Proof.
  unfold to_u8, u8.
  assert (Hr : 0 <= z mod 256 < 256) by (apply Z.mod_pos_bound; lia).
  pose proof (Byte.to_of_N_option_map (Z.to_N (z mod 256))) as H.
  destruct (Byte.of_N (Z.to_N (z mod 256))) as [b|] eqn:E; simpl in H.
  - destruct (N.leb_spec (Z.to_N (z mod 256)) 255); [|discriminate].
    injection H as ->. rewrite Z2N.id; lia.
  - destruct (N.leb_spec (Z.to_N (z mod 256)) 255); [discriminate|]. lia.
Qed.

Lemma land_255 (z : Z) : Z.land z 255 = z mod 256.
Proof. change 255 with (Z.ones 8). rewrite Z.land_ones by lia. reflexivity. Qed.

Lemma lor_shiftl_8 (v b : Z) :
  0 <= b < 256 -> Z.lor (Z.shiftl v 8) b = v * 256 + b.
Proof.
  intros Hb.
  assert (H0 : Z.land (Z.shiftl v 8) b = 0).
  { apply Z.bits_inj'. intros n Hn. rewrite Z.land_spec, Z.bits_0.
    destruct (Z.ltb_spec n 8).
    - rewrite Z.shiftl_spec_low by lia. reflexivity.
    - rewrite <- (Z.mod_small b (2 ^ 8)) by (change (2 ^ 8) with 256; lia).
      rewrite Z.mod_pow2_bits_high by lia. apply andb_false_r. }
  rewrite <- Z.lxor_lor, <- Z.add_nocarry_lxor by assumption.
  rewrite Z.shiftl_mul_pow2 by lia. reflexivity.
Qed.

Lemma be_val_from (bs : list byte) (v : Z) :
  fold_left (fun v b => v * 256 + u8 b) bs v = v * 256 ^ size bs + be_val bs.
Proof.
  unfold be_val, size. revert v.
  induction bs as [|b bs IH]; intros v; cbn [length fold_left].
  - simpl. lia.
  - rewrite IH, (IH (0 * 256 + u8 b)).
    rewrite Nat2Z.inj_succ, Z.pow_succ_r by lia. ring.
Qed.

Lemma be_val_range (bs : list byte) : 0 <= be_val bs < 256 ^ size bs.
Proof.
  unfold size. induction bs as [|b bs IH] using rev_ind.
  - unfold be_val. simpl. lia.
  - unfold be_val in *. rewrite fold_left_app. simpl.
    rewrite length_app, Nat2Z.inj_add. simpl length.
    rewrite Z.pow_add_r by lia. change (256 ^ Z.of_nat 1) with 256.
    pose proof (u8_range b). nia.
Qed.

Lemma be_read_val (w : Z) (bs : list byte) :
  8 * size bs <= w -> be_read w bs = be_val bs.
Proof.
  unfold be_read, be_val, size.
  induction bs as [|b bs IH] using rev_ind; intros Hw.
  - reflexivity.
  - rewrite length_app, Nat2Z.inj_add in Hw. simpl length in Hw.
    rewrite !fold_left_app. cbn [fold_left]. rewrite IH by lia.
    rewrite lor_shiftl_8 by apply u8_range.
    unfold wrap. apply Z.mod_small.
    pose proof (be_val_range bs) as Hr. pose proof (u8_range b) as Hb.
    unfold be_val, size in Hr.
    assert (256 ^ Z.of_nat (length bs) * 256 <= 2 ^ w).
    { replace 256 with (2 ^ 8) by reflexivity.
      rewrite <- Z.pow_mul_r, <- Z.pow_add_r by lia.
      apply Z.pow_le_mono_r; lia. }
    nia.
Qed.

Lemma be_bytes_length (k : nat) (x : Z) : length (be_bytes k x) = k.
Proof. induction k; simpl; congruence. Qed.

Lemma be_bytes_head (k : nat) (x : Z) :
  u8 (to_u8 (Z.land (Z.shiftr x (8 * Z.of_nat k)) 255)) = (x / 256 ^ Z.of_nat k) mod 256.
Proof.
  rewrite u8_to_u8, land_255, Z.mod_mod by lia.
  rewrite Z.shiftr_div_pow2 by lia.
  rewrite Z.pow_mul_r by lia. reflexivity.
Qed.

Lemma be_val_be_bytes (k : nat) (x : Z) :
  be_val (be_bytes k x) = x mod 256 ^ Z.of_nat k.
Proof.
  induction k as [|k IH].
  - simpl. rewrite Z.mod_1_r. reflexivity.
  - cbn [be_bytes]. unfold be_val. cbn [fold_left].
    rewrite be_val_from. unfold size. rewrite be_bytes_length, IH.
    rewrite Z.mul_0_l, Z.add_0_l, be_bytes_head.
    rewrite Nat2Z.inj_succ, Z.pow_succ_r by lia.
    rewrite (Z.mul_comm 256), Z.rem_mul_r by lia. ring.
Qed.

Lemma be_read_be_bytes (w : Z) (k : nat) (x : Z) :
  8 * Z.of_nat k <= w -> 0 <= x < 256 ^ Z.of_nat k ->
  be_read w (be_bytes k x) = x.
Proof.
  intros Hw Hx. rewrite be_read_val by (unfold size; rewrite be_bytes_length; lia).
  rewrite be_val_be_bytes. apply Z.mod_small. assumption.
Qed.

Lemma be_bytes_mod (k : nat) (x : Z) :
  be_bytes k (x mod 256 ^ Z.of_nat k) = be_bytes k x.
Proof.
  assert (G : forall j, (k <= j)%nat -> be_bytes k (x mod 256 ^ Z.of_nat j) = be_bytes k x).
  { induction k as [|k IH]; intros j Hj; [reflexivity|].
    cbn [be_bytes]. f_equal.
    - rewrite <- (to_u8_u8 (to_u8 _)), be_bytes_head.
      rewrite <- (to_u8_u8 (to_u8 (Z.land (Z.shiftr x _) _))), be_bytes_head.
      f_equal.
      replace (Z.of_nat j) with (Z.of_nat k + (Z.of_nat j - Z.of_nat k)) by lia.
      rewrite Z.pow_add_r by lia.
      rewrite Z.rem_mul_r by lia.
      rewrite Z.mul_comm, Z.div_add by lia.
      rewrite Z.div_small by (apply Z.mod_pos_bound; lia).
      rewrite Z.add_0_l.
      replace (Z.of_nat j - Z.of_nat k) with (1 + (Z.of_nat j - Z.of_nat k - 1)) by lia.
      rewrite Z.pow_add_r by lia. change (256 ^ 1) with 256.
      rewrite Z.rem_mul_r by lia.
      rewrite Z.mul_comm, Z.mod_add by lia. apply Z.mod_mod. lia.
    - apply IH. lia. }
  apply G. lia.
Qed.

Lemma be_bytes_be_val (bs : list byte) : be_bytes (length bs) (be_val bs) = bs.
Proof.
  induction bs as [|b bs IH]; [reflexivity|].
  simpl length. cbn [be_bytes]. unfold be_val. cbn [fold_left].
  rewrite be_val_from, Z.mul_0_l, Z.add_0_l. unfold size.
  pose proof (be_val_range bs) as Hr. unfold size in Hr.
  f_equal.
  - rewrite <- (to_u8_u8 (to_u8 _)), be_bytes_head.
    rewrite Z.div_add_l by lia. rewrite Z.div_small by lia.
    rewrite Z.add_0_r, Z.mod_small by apply u8_range. apply to_u8_u8.
  - rewrite <- be_bytes_mod. rewrite Z.add_comm, Z.mod_add by lia.
    rewrite Z.mod_small by lia. exact IH.
Qed.

Lemma be_bytes_be_read (w : Z) (k : nat) (bs : list byte) :
  length bs = k -> 8 * Z.of_nat k <= w -> be_bytes k (be_read w bs) = bs.
Proof.
  intros <- Hw. rewrite be_read_val by exact Hw. apply be_bytes_be_val.
Qed.

Lemma be_read_range (w : Z) (bs : list byte) : 0 < w -> 0 <= be_read w bs < 2 ^ w.
Proof.
  intros Hw. unfold be_read.
  destruct bs as [|b bs] using rev_ind.
  - simpl. split; [lia|]. apply Z.pow_pos_nonneg; lia.
  - rewrite fold_left_app. simpl. unfold wrap. apply Z.mod_pos_bound.
    apply Z.pow_pos_nonneg; lia.
Qed.

(** ** Reading from buffers *)

Section Buffers.
Context {prim : Primitives}.

Lemma peek_length (v : list byte) (off n : nat) : length (peek v off n) = n.
Proof. unfold peek. rewrite length_map, length_seq. reflexivity. Qed.

Lemma peek_S (v : list byte) (off n : nat) :
  peek v off (S n) = at_ v off :: peek v (S off) n.
Proof.
  unfold peek. cbn [seq map]. rewrite Nat.add_0_r. f_equal.
  rewrite <- seq_shift, map_map. apply map_ext. intros i. f_equal. lia.
Qed.

Lemma peek_app (v : list byte) (off n m : nat) :
  peek v off (n + m) = peek v off n ++ peek v (off + n) m.
Proof.
  revert off. induction n as [|n IH]; intros off.
  - rewrite Nat.add_0_r. reflexivity.
  - cbn [Nat.add]. rewrite !peek_S, IH. cbn [app].
    do 3 f_equal. lia.
Qed.

Lemma skipn_nth (A : Type) (d : A) (v : list A) (off : nat) :
  (off < length v)%nat -> skipn off v = nth off v d :: skipn (S off) v.
Proof.
  revert off. induction v as [|x v IH]; intros off H; simpl in H; [lia|].
  destruct off as [|off]; [reflexivity|].
  cbn [skipn nth]. rewrite IH by lia. reflexivity.
Qed.

Lemma peek_in (v : list byte) (off n : nat) :
  (off + n <= length v)%nat -> peek v off n = slice off n v.
Proof.
  unfold slice. revert off. induction n as [|n IH]; intros off H.
  - reflexivity.
  - rewrite peek_S, IH by lia.
    rewrite (@skipn_nth _ (stray v (off - length v)) v off) by lia.
    reflexivity.
Qed.

Lemma peek_all (v : list byte) : peek v 0 (length v) = v.
Proof.
  rewrite peek_in by lia. unfold slice. rewrite skipn_0. apply firstn_all.
Qed.

Lemma peek_app_l (v rest : list byte) (n : nat) :
  (n <= length v)%nat -> peek (v ++ rest) 0 n = firstn n v.
Proof.
  intros H. rewrite peek_in by (rewrite length_app; lia).
  unfold slice. rewrite skipn_0, firstn_app.
  replace (n - length v)%nat with O by lia. rewrite firstn_0, app_nil_r. reflexivity.
Qed.

Lemma padded_id (n : nat) (a : list byte) : length a = n -> padded n a = a.
Proof.
  intros <-. unfold padded.
  induction a as [|x a IH]; [reflexivity|].
  cbn [length seq map nth]. f_equal.
  rewrite <- seq_shift, map_map. exact IH.
Qed.

Lemma padded_length (n : nat) (a : list byte) : length (padded n a) = n.
Proof. unfold padded. rewrite length_map, length_seq. reflexivity. Qed.

(** Two bytes read into a wider unsigned field, and written back. *)
Lemma two_bytes_value (w : Z) (x y : byte) :
  16 <= w -> Z.lor (wrap w (Z.shiftl (u8 x) 8)) (u8 y) = u8 x * 256 + u8 y.
Proof.
  intros Hw. pose proof (u8_range x) as Hx. pose proof (u8_range y) as Hy.
  unfold wrap. rewrite Z.mod_small.
  - apply lor_shiftl_8. exact Hy.
  - rewrite Z.shiftl_mul_pow2 by lia. change (2 ^ 8) with 256.
    assert (2 ^ 16 <= 2 ^ w) by (apply Z.pow_le_mono_r; lia).
    change (2 ^ 16) with 65536 in *. lia.
Qed.

Lemma two_bytes_back (v : Z) (x y : byte) :
  v = u8 x * 256 + u8 y ->
  [to_u8 (Z.land (Z.shiftr v 8) 255); to_u8 (Z.land v 255)] = [x; y].
Proof.
  intros ->. pose proof (u8_range x) as Hx. pose proof (u8_range y) as Hy.
  rewrite !land_255, Z.shiftr_div_pow2 by lia. change (2 ^ 8) with 256.
  rewrite Z.div_add_l, Z.div_small, Z.add_0_r by lia.
  rewrite (Z.add_comm (u8 x * 256)), Z.mod_add by lia.
  rewrite !Z.mod_small by lia. rewrite !to_u8_u8. reflexivity.
Qed.

Lemma two_bytes_of_value (v : Z) :
  0 <= v < 65536 ->
  exists x y, [to_u8 (Z.land (Z.shiftr v 8) 255); to_u8 (Z.land v 255)] = [x; y]
              /\ u8 x * 256 + u8 y = v.
Proof.
  intros Hv. do 2 eexists. split; [reflexivity|].
  rewrite !u8_to_u8, !land_255, !Z.mod_mod by lia.
  rewrite Z.shiftr_div_pow2 by lia. change (2 ^ 8) with 256.
  rewrite (Z.mod_small (v / 256)) by (split; [apply Z.div_pos; lia | apply Z.div_lt_upper_bound; lia]).
  pose proof (Z.div_mod v 256). lia.
Qed.

End Buffers.

(** ** The global header on 64 bytes *)

Section HeaderCodec.
Context {prim : Primitives}.

Lemma bytes_eqb_eq (a b : list byte) : bytes_eqb a b = true <-> a = b.
Proof.
  unfold bytes_eqb. destruct (list_eq_dec Byte.byte_eq_dec a b); split; congruence.
Qed.

Lemma GlobalHeader_deserialize_accepts (h0 : GlobalHeader) (b : list byte) :
  fst (GlobalHeader_deserialize h0 b) = true
  <-> (64 <= size b /\ firstn 4 b = VARC_SIGNATURE).
Proof.
  unfold GlobalHeader_deserialize.
  destruct (Z.ltb_spec (size b) 64) as [Hs|Hs]; cbn [fst].
  - split; [discriminate | lia].
  - assert (Hp : peek b 0 4 = firstn 4 b).
    { rewrite peek_in by (unfold size in Hs; lia). reflexivity. }
    rewrite Hp.
    destruct (bytes_eqb (firstn 4 b) VARC_SIGNATURE) eqn:E; cbn [negb fst].
    + apply bytes_eqb_eq in E. split; auto.
    + split; [discriminate|]. intros [_ H]. apply bytes_eqb_eq in H. congruence.
Qed.

(** Whatever is accepted is written back as the 68 bytes the decoder
    looked at: the buffer, and behind 64 bytes what lay behind it. *)
Lemma GlobalHeader_reencode (h0 : GlobalHeader) (b : list byte) :
  fst (GlobalHeader_deserialize h0 b) = true ->
  GlobalHeader_serialize (snd (GlobalHeader_deserialize h0 b)) = peek b 0 68.
Proof.
  unfold GlobalHeader_deserialize.
  destruct (size b <? 64); [discriminate|].
  destruct (bytes_eqb (peek b 0 4) VARC_SIGNATURE) eqn:E; [|discriminate].
  intros _. cbn [negb snd]. unfold GlobalHeader_serialize.
  cbn [signature version gflags fileCount salt iv reserved].
  unfold u16. rewrite !two_bytes_value by lia.
  rewrite (@two_bytes_back _ (at_ b 4) (at_ b 5) eq_refl).
  rewrite (@two_bytes_back _ (at_ b 6) (at_ b 7) eq_refl).
  rewrite be_bytes_be_read by (rewrite ?peek_length; lia).
  rewrite be_bytes_be_read by (rewrite ?peek_length; lia).
  rewrite !padded_id by apply peek_length.
  change 68%nat with (4 + (2 + (2 + (4 + (32 + (16 + 8))))))%nat.
  rewrite !peek_app. reflexivity.
Qed.

Lemma GlobalHeader_serialize_length (h : GlobalHeader) :
  length (GlobalHeader_serialize h) = (length (signature h) + 64)%nat.
Proof.
  unfold GlobalHeader_serialize.
  rewrite !length_app, !padded_length, !be_bytes_length. simpl. lia.
Qed.

(** C6 (the code departs from the claim).  The decoder refuses exactly
    the buffers that are shorter than 64 bytes or do not start with
    [VARC], as claimed.  But a header that was decoded from 64 bytes is
    encoded on 68 bytes: the fields add up to 4+2+2+4+32+16+8.  The first
    64 of them are the input, so the re-encoding is never identical to
    a 64-byte input. *)
Theorem C6_header_reencoded_on_68_bytes :
  forall (h0 : GlobalHeader) (b : list byte),
    (fst (GlobalHeader_deserialize h0 b) = false
     <-> (size b < 64 \/ firstn 4 b <> VARC_SIGNATURE))
    /\ (length b = 64%nat ->
        fst (GlobalHeader_deserialize h0 b) = true ->
        let h := snd (GlobalHeader_deserialize h0 b) in
        length (GlobalHeader_serialize h) = 68%nat
        /\ firstn 64 (GlobalHeader_serialize h) = b
        /\ GlobalHeader_serialize h <> b).
Proof.
  intros h0 b. split.
  - pose proof (GlobalHeader_deserialize_accepts h0 b) as A.
    destruct (fst (GlobalHeader_deserialize h0 b)).
    + split; [discriminate|]. intros [H|H].
      * destruct A as [A _]. specialize (A eq_refl). lia.
      * destruct A as [A _]. specialize (A eq_refl). tauto.
    + split; [|reflexivity]. intros _.
      destruct (Z.ltb_spec (size b) 64); [left; assumption|]. right.
      intros H'. destruct A as [_ A]. discriminate A. split; [lia | assumption].
  - intros Hlen Hok h.
    assert (Hs : GlobalHeader_serialize h = peek b 0 68)
      by (apply GlobalHeader_reencode; exact Hok).
    assert (H68 : length (GlobalHeader_serialize h) = 68%nat)
      by (rewrite Hs; apply peek_length).
    split; [exact H68|]. split.
    + assert (P64 : peek b 0 64 = b) by (rewrite <- Hlen; apply peek_all).
      rewrite Hs. change 68%nat with (64 + 4)%nat.
      rewrite peek_app, P64, firstn_app, <- Hlen, firstn_all, Nat.sub_diag.
      rewrite firstn_0, app_nil_r. reflexivity.
    + intros E. rewrite E in H68. lia.
Qed.

End HeaderCodec.

(** C6, at the header of an empty archive. *)
Lemma C6_header_reencoded_on_68_bytes_witness :
  length Standin.header64 = 64%nat
  /\ fst (GlobalHeader_deserialize (prim := Standin.primitives)
            GlobalHeader_default Standin.header64) = true
  /\ length (GlobalHeader_serialize
               (snd (GlobalHeader_deserialize (prim := Standin.primitives)
                       GlobalHeader_default Standin.header64))) = 68%nat.
Proof.
  split; [reflexivity|]. split; [reflexivity|].
  apply (proj2 (C6_header_reencoded_on_68_bytes (prim := Standin.primitives)
                  GlobalHeader_default Standin.header64)); reflexivity.
Defined.

(** ** The wildcard matcher *)

Section Wildcards.
Context {prim : Primitives}.

Lemma index_ge (n : nat) (s1 s2 : string) (m : nat) :
  String.index n s1 s2 = Some m -> (n <= m)%nat.
Proof.
  revert n m. induction s2 as [|c s2 IH]; intros n m H.
  - destruct n; simpl in H.
    + destruct s1; [injection H as <-; lia | discriminate].
    + discriminate.
  - destruct n as [|n]; [lia|].
    simpl in H. destruct (String.index n s1 s2) as [p|] eqn:E; [|discriminate].
    injection H as <-. apply IH in E. lia.
Qed.

Lemma str_find_ge (s needle : string) (pos : Z) :
  0 <= pos -> str_find s needle pos = npos \/ pos <= str_find s needle pos.
Proof.
  intros Hpos. unfold str_find.
  destruct (String.index (Z.to_nat pos) needle s) as [p|] eqn:E; [right | left; reflexivity].
  apply index_ge in E. lia.
Qed.

(** The loop is left as soon as [j] is not below the length of the
    pattern; it then answers [false] unless [j] is that length. *)
Lemma matchesPattern_loop_out (fuel : nat) (str pattern : string) (i j : Z) :
  ssize pattern <= j ->
  matchesPattern_loop (S fuel) str pattern i j
  = Some ((i =? ssize str) && (j =? ssize pattern)).
Proof.
  intros H. cbn [matchesPattern_loop].
  destruct (Z.ltb_spec j (ssize pattern)); [lia|].
  rewrite andb_false_r. reflexivity.
Qed.

(** The loop returns: [pattern.size() + 1] rounds are enough. *)
Lemma matchesPattern_loop_returns (str pattern : string) :
  ssize pattern < 2 ^ 64 ->
  forall (fuel : nat) (i j : Z),
    0 <= j -> ssize pattern - j < Z.of_nat fuel -> (0 < fuel)%nat ->
    exists b, matchesPattern_loop fuel str pattern i j = Some b.
Proof.
  intros Hsz. induction fuel as [|fuel IH]; intros i j Hj Hm Hf.
  - lia.
  - cbn [matchesPattern_loop].
    destruct ((i <? ssize str) && (j <? ssize pattern)) eqn:C; [|eauto].
    apply andb_true_iff in C. destruct C as [_ C]. apply Z.ltb_lt in C.
    assert (Hj1 : u64 (j + 1) = j + 1)
      by (unfold u64, wrap; apply Z.mod_small; pow64; lia).
    rewrite Hj1.
    destruct (Ascii.eqb (char_at pattern j) "*").
    + destruct (j + 1 <? ssize pattern); [|eauto].
      destruct (_ =? npos); [eauto|].
      destruct (@str_find_ge pattern "*" (j + 1) ltac:(lia)) as [E|E].
      * rewrite E. apply IH; unfold npos in *; pow64; lia.
      * apply IH; lia.
    + destruct (_ || _); [|eauto]. apply IH; lia.
Qed.

Lemma matchesPattern_returns (str pattern : string) :
  ssize pattern < 2 ^ 64 -> exists b, matchesPattern str pattern = Some b.
Proof.
  intros H. unfold matchesPattern.
  apply matchesPattern_loop_returns; unfold ssize in *; lia.
Qed.

(** A pattern that is a star followed by a star-free tail: the matcher
    sets [j] to [npos] after the tail was found, and [npos] is not the
    length of the pattern. *)
Lemma matchesPattern_star_txt (str : string) :
  matchesPattern str "*.txt" = Some false.
Proof.
  unfold matchesPattern.
  change (S (String.length "*.txt")) with 6%nat.
  cbn [matchesPattern_loop].
  change (ssize "*.txt") with 5.
  destruct (0 <? ssize str); cbn [andb].
  - change (0 <? 5) with true. cbv iota.
    change (Ascii.eqb (char_at "*.txt" 0) "*") with true. cbv iota.
    change (u64 (0 + 1) <? 5) with true. cbv iota.
    change (str_find "*.txt" "*" (u64 (0 + 1))) with npos.
    change (substr "*.txt" (u64 (0 + 1)) (u64 (npos - 0 - 1))) with ".txt"%string.
    destruct (str_find str ".txt" 0 =? npos); [reflexivity|].
    change (ssize "*.txt") with 5.
    destruct (_ <? ssize str); cbn [andb]; rewrite ?andb_false_r; reflexivity.
  - rewrite andb_false_r. reflexivity.
Qed.

Lemma filter_none (A : Type) (f : A -> bool) (l : list A) :
  (forall x, f x = false) -> filter f l = [].
Proof.
  intros H. induction l as [|x l IH]; [reflexivity|].
  simpl. rewrite H. exact IH.
Qed.

(** C8 (the code departs from the claim).  For the pattern [*.txt],
    [findEntries] returns no entry at all, whatever the paths in the
    archive are: not the entries whose path ends in [.txt]. *)
Theorem C8_star_txt_finds_nothing :
  forall (a : Archive), Archive_findEntries a "*.txt" = [].
Proof.
  intros a. unfold Archive_findEntries. apply filter_none.
  intros e. unfold matches. rewrite matchesPattern_star_txt. reflexivity.
Qed.

End Wildcards.

(** C8 at an archive that holds [a.txt] alone. *)
Lemma C8_a_txt_is_not_found :
  let entry := VarcEntry_of_data (prim := Standin.primitives) "a.txt" [x41] FILE in
  Archive_findEntries (set_entries Archive_new [entry]) "*.txt" = []
  /\ matchesPattern "a.txt" "*.txt" = Some false.
Proof.
  split; reflexivity.
Qed.

(** ** The pipeline of [processEntry] *)

Section Pipeline.
Context {prim : Primitives}.

Lemma resize_length (v : list byte) (n : nat) : length (resize v n) = n.
Proof.
  unfold resize. rewrite length_app, repeat_length.
  destruct (Nat.le_gt_cases n (length v)).
  - rewrite firstn_length_le by assumption. lia.
  - rewrite firstn_all2 by lia. lia.
Qed.

Lemma sha256_length (data : list byte) : length (CryptoEngine_sha256 data) = 32%nat.
Proof. unfold CryptoEngine_sha256. apply resize_length. Qed.

Lemma resize_not_empty (v : list byte) (n : nat) : empty (resize v (S n)) = false.
Proof.
  pose proof (resize_length v (S n)) as H.
  destruct (resize v (S n)); [discriminate H | reflexivity].
Qed.

Lemma str_empty_true (s : string) : str_empty s = true <-> s = ""%string.
Proof. destruct s; simpl; split; congruence. Qed.

(** A non-empty password always initialises the engine. *)
Lemma initializeFromPassword_ok (c : CryptoEngine) (pw : string) (s : list byte) (k : entropy) :
  str_empty pw = false ->
  exists c', CryptoEngine_initializeFromPassword c pw s k = Ret (c', S k)
             /\ CryptoEngine_isInitialized c' = true
             /\ m_key c' = resize (PBKDF2 pw s PBKDF2_ITERATIONS AES_KEY_SIZE) AES_KEY_SIZE
             /\ m_iv c' = resize (RAND_bytes k IV_SIZE) IV_SIZE.
Proof.
  intros Hpw. unfold CryptoEngine_initializeFromPassword, CryptoEngine_deriveKey.
  rewrite Hpw. cbn [bind CryptoEngine_generateIV].
  eexists. split; [reflexivity|].
  unfold CryptoEngine_isInitialized. cbn [m_initialized m_key m_iv].
  unfold AES_KEY_SIZE, IV_SIZE. rewrite !resize_not_empty. auto.
Qed.

(** An empty password is refused by [deriveKey], before the engine is
    touched. *)
Lemma initializeFromPassword_empty (c : CryptoEngine) (s : list byte) (k : entropy) :
  CryptoEngine_initializeFromPassword c "" s k
  = Throw "Password cannot be empty for key derivation".
Proof. reflexivity. Qed.

(** The first block never fails; it leaves the entry alone unless a
    password came with the request. *)
Lemma processEntry_encrypt_spec (entry : VarcEntry) (options : CreateOptions)
    (w : World) (a : Archive) :
  exists e1 w1 a1,
    processEntry_encrypt entry options w a = Ret (e1, w1, a1)
    /\ m_entries a1 = m_entries a
    /\ m_errorMessage a1 = m_errorMessage a
    /\ m_compression a1 = m_compression a
    /\ m_loaded a1 = m_loaded a
    /\ (encrypt options && negb (str_empty (password options)) = false ->
        e1 = entry /\ w1 = w /\ a1 = a)
    /\ (encrypt options && negb (str_empty (password options)) = true ->
        e1 = VarcEntry_setFlags
               (VarcEntry_setData entry
                  (EVP_encrypt (m_key (m_crypto a1)) (m_iv (m_crypto a1)) (m_data entry)))
               (u32 (Z.lor (m_flags entry) EntryFlags.ENCRYPTED))
        /\ (CryptoEngine_isInitialized (m_crypto a) = true -> a1 = a /\ w1 = w)
        /\ (CryptoEngine_isInitialized (m_crypto a) = false ->
            m_key (m_crypto a1) = pipeline_key (password options) (rand w)
            /\ m_iv (m_crypto a1) = pipeline_iv (rand w)
            /\ GlobalHeader_isEncrypted (m_header a1) = true
            /\ signature (m_header a1) = signature (m_header a)
            /\ version (m_header a1) = version (m_header a))).
Proof.
  unfold processEntry_encrypt.
  destruct (encrypt options && negb (str_empty (password options))) eqn:C.
  - apply andb_true_iff in C. destruct C as [_ C]. apply negb_true_iff in C.
    destruct (CryptoEngine_isInitialized (m_crypto a)) eqn:I; cbn [negb bind].
    + unfold CryptoEngine_encrypt. rewrite I. cbn [negb bind].
      do 3 eexists. split; [reflexivity|]. repeat split; auto; discriminate.
    + cbn [CryptoEngine_generateSalt].
      destruct (initializeFromPassword_ok (m_crypto a) (password options)
                  (resize (RAND_bytes (rand w) SALT_SIZE) SALT_SIZE) (S (rand w)) C)
        as (c' & -> & Hinit & Hkey & Hiv).
      cbn [bind CryptoEngine_generateIV].
      unfold CryptoEngine_encrypt. cbn [m_crypto set_header set_crypto].
      rewrite Hinit. cbn [negb bind].
      do 3 eexists. split; [reflexivity|].
      cbn [m_entries m_errorMessage m_compression m_loaded m_crypto m_header
           set_header set_crypto].
      repeat split; auto; try discriminate.
      unfold GlobalHeader_isEncrypted, header_set_flags, header_set_salt_iv.
      cbn [gflags]. unfold u16, wrap, ArchiveFlags.ENCRYPTED.
      apply negb_true_iff, Z.eqb_neq. intros E.
      assert (T : Z.testbit (Z.land (Z.lor (gflags (m_header a)) 1 mod 2 ^ 16) 1) 0 = true).
      { rewrite Z.land_spec, Z.mod_pow2_bits_low, Z.lor_spec by lia.
        rewrite orb_true_r. reflexivity. }
      rewrite E in T. discriminate T.
  - do 3 eexists. split; [reflexivity|]. repeat split; auto; discriminate.
Qed.

Lemma no_encryption_requested (options : CreateOptions) :
  encrypt options = false \/ password options = ""%string ->
  encrypt options && negb (str_empty (password options)) = false.
Proof.
  intros [H|H]; rewrite H; [reflexivity|]. apply andb_false_r.
Qed.

(** C10.  [processEntry] never answers [false] and never throws: it
    appends exactly one entry and sets no error message.  Without
    [encrypt], or with [encrypt] and an empty password, the first block
    leaves the entry as it came (plaintext, flags untouched); without
    [compress], or when the compression fails, the second block leaves
    the entry as the first one handed it over (uncompressed, flags
    untouched).  So does [addVirtualFile] on an open archive, whose
    entry starts with no flag at all. *)
Theorem C10_processEntry_never_fails :
  forall (entry : VarcEntry) (options : CreateOptions) (w : World) (a : Archive),
    (exists w' a' e1 e',
        Archive_processEntry entry options w a = Ret (true, w', a')
        /\ m_entries a' = m_entries a ++ [e']
        /\ m_errorMessage a' = m_errorMessage a
        /\ e' = processEntry_compress e1 options a
        /\ (encrypt options = false \/ password options = ""%string -> e1 = entry)
        /\ (compress options = false
            \/ c_success (CompressionEngine_compress (m_compression a) (m_data e1)) = false ->
            e' = e1))
    /\ forall (virtualPath : string) (data : list byte),
        Archive_isOpen a = true ->
        exists w' a' e',
          Archive_addVirtualFile virtualPath data options w a = Ret (true, w', a')
          /\ m_entries a' = m_entries a ++ [e']
          /\ m_errorMessage a' = m_errorMessage a
          /\ (encrypt options = false \/ password options = ""%string ->
              VarcEntry_isEncrypted e' = false
              /\ (compress options = false
                  \/ c_success (CompressionEngine_compress (m_compression a) data) = false ->
                  m_data e' = data /\ VarcEntry_isCompressed e' = false)).
Proof.
  intros entry options w a.
  assert (G : forall entry,
             exists w' a' e1 e',
               Archive_processEntry entry options w a = Ret (true, w', a')
               /\ m_entries a' = m_entries a ++ [e']
               /\ m_errorMessage a' = m_errorMessage a
               /\ e' = processEntry_compress e1 options a
               /\ (encrypt options = false \/ password options = ""%string -> e1 = entry)
               /\ (compress options = false
                   \/ c_success (CompressionEngine_compress (m_compression a) (m_data e1))
                      = false ->
                   e' = e1)).
  { clear entry. intros entry. unfold Archive_processEntry.
    destruct (processEntry_encrypt_spec entry options w a)
      as (e1 & w1 & a1 & -> & Hes & Herr & Hcomp & _ & Hplain & _).
    cbn [bind].
    exists w1, (set_modified
                  (set_entries a1 (m_entries a1 ++ [processEntry_compress e1 options a1]))
                  true), e1, (processEntry_compress e1 options a1).
    split; [reflexivity|].
    assert (Hc : processEntry_compress e1 options a1 = processEntry_compress e1 options a)
      by (unfold processEntry_compress; rewrite Hcomp; reflexivity).
    cbn [m_entries m_errorMessage set_modified set_entries].
    rewrite Hes, Herr, Hc. repeat split; auto.
    - intros Hno. apply Hplain. apply no_encryption_requested. exact Hno.
    - intros [Hco|Hfail]; unfold processEntry_compress.
      + rewrite Hco. reflexivity.
      + destruct (compress options); [rewrite Hfail|]; reflexivity. }
  split; [apply G|].
  intros virtualPath data Hopen. unfold Archive_addVirtualFile. rewrite Hopen. cbn [negb].
  destruct (G (VarcEntry_of_data virtualPath data FILE))
    as (w' & a' & e1 & e' & -> & Hes & Herr & He' & Hplain & Hsame).
  exists w', a', e'. split; [reflexivity|]. split; [exact Hes|]. split; [exact Herr|].
  intros Hno. specialize (Hplain Hno). subst e1. split.
  - rewrite He'. unfold processEntry_compress.
    destruct (compress options); [|reflexivity].
    destruct (c_success _); reflexivity.
  - intros Hco. rewrite (Hsame Hco). split; reflexivity.
Qed.

End Pipeline.

(** ** Checksums, verification, unlocking, decompression *)

Section Controller.
Context {prim : Primitives}.

Lemma processEntry_compress_checksum (e1 : VarcEntry) (options : CreateOptions) (a : Archive) :
  m_checksum e1 = CryptoEngine_sha256 (m_data e1) ->
  m_originalSize e1 = u64 (size (m_data e1)) ->
  let e' := processEntry_compress e1 options a in
  m_checksum e' = CryptoEngine_sha256 (m_data e')
  /\ m_originalSize e' = u64 (size (m_data e')).
Proof.
  intros H1 H2. unfold processEntry_compress.
  destruct (compress options); [|auto].
  destruct (c_success _); [|auto].
  split; reflexivity.
Qed.

(** C2 (the code departs from the claim).  Whatever the options, the
    entry that [addVirtualFile] stores carries the SHA-256 of the bytes it
    stores and their length as its original size, because every
    [setData] of the pipeline computes both anew.  With encryption
    alone the stored bytes are the ciphertext of the content: the
    checksum is that of the ciphertext, not of the content. *)
Theorem C2_checksum_is_of_the_stored_bytes :
  forall (path : string) (B : list byte) (options : CreateOptions)
         (w : World) (a : Archive),
    Archive_isOpen a = true ->
    exists w' a' e',
      Archive_addVirtualFile path B options w a = Ret (true, w', a')
      /\ m_entries a' = m_entries a ++ [e']
      /\ m_checksum e' = CryptoEngine_sha256 (m_data e')
      /\ m_originalSize e' = u64 (size (m_data e'))
      /\ (encrypt options = true -> password options <> ""%string ->
          compress options = false ->
          m_data e' = EVP_encrypt (m_key (m_crypto a')) (m_iv (m_crypto a')) B).
Proof.
  intros path B options w a Hopen.
  unfold Archive_addVirtualFile. rewrite Hopen. cbn [negb].
  unfold Archive_processEntry.
  destruct (processEntry_encrypt_spec (VarcEntry_of_data path B FILE) options w a)
    as (e1 & w1 & a1 & -> & Hes & _ & _ & _ & Hplain & Hcipher).
  cbn [bind]. do 3 eexists. split; [reflexivity|].
  cbn [m_entries m_crypto set_modified set_entries]. rewrite Hes.
  split; [reflexivity|].
  assert (H1 : m_checksum e1 = CryptoEngine_sha256 (m_data e1)
               /\ m_originalSize e1 = u64 (size (m_data e1))).
  { destruct (encrypt options && negb (str_empty (password options))) eqn:C.
    - destruct (Hcipher eq_refl) as (-> & _). split; reflexivity.
    - destruct (Hplain eq_refl) as (-> & _). split; reflexivity. }
  destruct H1 as [H1 H2].
  destruct (processEntry_compress_checksum e1 options a1 H1 H2) as [H3 H4].
  repeat split; auto.
  intros He Hpw Hco.
  assert (C : encrypt options && negb (str_empty (password options)) = true).
  { rewrite He. cbn [andb]. apply negb_true_iff.
    destruct (str_empty (password options)) eqn:E; [|reflexivity].
    apply str_empty_true in E. contradiction. }
  destruct (Hcipher C) as (-> & _).
  unfold processEntry_compress. rewrite Hco. reflexivity.
Qed.

Lemma findEntry_in (es : list VarcEntry) (e : VarcEntry) :
  In e es -> exists e', findEntry es (m_relativePath e) = Some e'.
Proof.
  induction es as [|x es IH]; intros H; [contradiction|].
  cbn [findEntry]. destruct (String.eqb_spec (m_relativePath x) (m_relativePath e)).
  - eauto.
  - destruct H as [->|H]; [contradiction | auto].
Qed.

(** The loop of [verify] is happy with every entry of the archive. *)
Lemma verify_loop_true (es : list VarcEntry) (password : string) (a : Archive) :
  incl es (m_entries a) -> verify_loop es password a = (true, a).
Proof.
  induction es as [|e es IH]; intros H; [reflexivity|].
  cbn [verify_loop]. unfold Archive_verifyEntry, Archive_findEntry.
  destruct (findEntry_in (m_entries a) e) as [e' ->]; [apply H; left; reflexivity|].
  cbn [negb]. apply IH. intros x Hx. apply H. right. exact Hx.
Qed.

Lemma spec_verify_entry_short_checksum (a : Archive) (e : VarcEntry) :
  length (m_checksum e) <> 32%nat -> spec_verify_entry a e = false.
Proof.
  intros H. unfold spec_verify_entry.
  destruct (spec_reverse_pipeline a e); [|reflexivity].
  unfold CryptoEngine_verifyChecksum.
  destruct (Z.eqb_spec (size (m_checksum e)) (Z.of_nat HASH_SIZE)) as [E|E]; [|reflexivity].
  unfold size, HASH_SIZE in E. lia.
Qed.

(** C3 (the code departs from the claim).  [verify] answers [true] for
    every archive with a valid header (and a password, if the header is
    ENCRYPTED): no entry is inflated, decrypted or hashed.  It does so
    for archives on which the verification of the specification fails,
    such as every archive with an entry whose stored checksum is not 32
    bytes long. *)
Theorem C3_verify_compares_nothing :
  forall (password : string) (w : World) (a : Archive),
    GlobalHeader_isValid (m_header a) = true ->
    (GlobalHeader_isEncrypted (m_header a) = false \/ password <> ""%string) ->
    exists w' a',
      Archive_verify password w a = Ret (true, w', a')
      /\ m_entries a' = m_entries a
      /\ (forall e, In e (m_entries a) -> length (m_checksum e) <> 32%nat ->
          spec_verify a' = false).
Proof.
  intros password w a Hvalid Hpw. unfold Archive_verify. rewrite Hvalid. cbn [negb].
  assert (G : forall w1 a1, m_entries a1 = m_entries a ->
              exists w' a',
                (let (ok, a0) := verify_loop (m_entries a1) password a1 in
                 @Ret (bool * World * Archive) (ok, w1, a0))
                = Ret (true, w', a')
                /\ m_entries a' = m_entries a
                /\ (forall e, In e (m_entries a) -> length (m_checksum e) <> 32%nat ->
                    spec_verify a' = false)).
  { intros w1 a1 Hes. rewrite verify_loop_true by apply incl_refl.
    exists w1, a1. split; [reflexivity|]. split; [exact Hes|].
    intros e Hin Hlen. unfold spec_verify. rewrite Hes.
    apply not_true_is_false. intros F. rewrite forallb_forall in F.
    specialize (F e Hin). rewrite spec_verify_entry_short_checksum in F by exact Hlen.
    discriminate F. }
  destruct (GlobalHeader_isEncrypted (m_header a)) eqn:E.
  - destruct Hpw as [Hpw|Hpw]; [discriminate|].
    destruct (str_empty password) eqn:P; [apply str_empty_true in P; contradiction|].
    destruct (initializeFromPassword_ok (m_crypto a) password (salt (m_header a)) (rand w) P)
      as (c' & -> & _).
    cbn [bind]. apply G. reflexivity.
  - cbn [bind]. apply G. reflexivity.
Qed.

Lemma land_clear_bit (w k f : Z) :
  0 <= k < w -> Z.land (wrap w (Z.land f (Z.lnot (2 ^ k)))) (2 ^ k) = 0.
Proof.
  intros Hk. apply Z.bits_inj'. intros n Hn.
  rewrite Z.land_spec, Z.bits_0, Z.pow2_bits_eqb by lia.
  destruct (Z.eqb_spec k n) as [<-|]; [|apply andb_false_r].
  unfold wrap. rewrite Z.mod_pow2_bits_low, Z.land_spec, Z.lnot_spec by lia.
  rewrite Z.pow2_bits_true by lia. rewrite andb_false_r. reflexivity.
Qed.

(** C9.  [unlock] answers [false] exactly when the header is not
    ENCRYPTED or the password is empty, and then changes neither header
    nor entries; with any other password, right or wrong, it answers
    [true], clears ENCRYPTED in the header and in every entry, and
    touches nothing else of the entries. *)
Theorem C9_unlock_accepts_any_password :
  forall (password : string) (w : World) (a : Archive),
    exists ok w' a',
      Archive_unlock password w a = Ret (ok, w', a')
      /\ (ok = false <->
          (GlobalHeader_isEncrypted (m_header a) = false \/ password = ""%string))
      /\ (ok = false -> m_header a' = m_header a /\ m_entries a' = m_entries a)
      /\ (ok = true ->
          GlobalHeader_isEncrypted (m_header a') = false
          /\ Forall (fun e => VarcEntry_isEncrypted e = false) (m_entries a')
          /\ map m_data (m_entries a') = map m_data (m_entries a)
          /\ map m_relativePath (m_entries a') = map m_relativePath (m_entries a)).
Proof.
  intros password w a. unfold Archive_unlock.
  destruct (GlobalHeader_isEncrypted (m_header a)) eqn:E; cbn [negb].
  - destruct (str_empty password) eqn:P.
    + apply str_empty_true in P. subst password.
      rewrite initializeFromPassword_empty.
      do 3 eexists. split; [reflexivity|].
      split; [split; auto|]. split; [auto | discriminate].
    + destruct (initializeFromPassword_ok (m_crypto a) password (salt (m_header a)) (rand w) P)
        as (c' & -> & _).
      do 3 eexists. split; [reflexivity|].
      split; [|split; [discriminate|]].
      * split; [discriminate|]. intros [H|H]; [discriminate|].
        subst password. discriminate P.
      * intros _. cbn [m_header m_entries set_modified set_entries set_crypto set_header].
        split; [|split; [|split]].
        -- unfold GlobalHeader_isEncrypted, header_set_flags. cbn [gflags].
           unfold u16, ArchiveFlags.ENCRYPTED. change 1 with (2 ^ 0).
           rewrite land_clear_bit by lia. reflexivity.
        -- apply Forall_forall. intros e He. apply in_map_iff in He.
           destruct He as (e0 & <- & _).
           unfold VarcEntry_isEncrypted, VarcEntry_setFlags. cbn [m_flags].
           unfold u32, EntryFlags.ENCRYPTED. change 2 with (2 ^ 1).
           rewrite land_clear_bit by lia. reflexivity.
        -- rewrite map_map. reflexivity.
        -- rewrite map_map. reflexivity.
  - do 3 eexists. split; [reflexivity|].
    split; [split; auto|]. split; [auto | discriminate].
Qed.

(** C7 (the code departs from the claim).  [decompress] never compares
    the length of its output with [expectedSize]: the value is copied to
    [originalSize] and sizes the first output buffer, nothing more.
    Whenever [decompress] reports success, [decompressedSize] is the
    length of the output it returns; an empty input is a success with
    an empty output whatever was expected; and for every input, whether
    [decompress] succeeds does not depend on [expectedSize]. *)
Theorem C7_decompress_ignores_expected_size :
  forall (c : CompressionEngine) (data : list byte) (expectedSize : Z),
    (forall r, CompressionEngine_decompress c data expectedSize = Some r ->
               d_success r = true ->
               d_originalSize r = expectedSize
               /\ d_decompressedSize r = u64 (size (decompressedData r)))
    /\ (data = [] ->
        exists r, CompressionEngine_decompress c data expectedSize = Some r
                  /\ d_success r = true /\ decompressedData r = [])
    /\ (forall expectedSize',
           option_map d_success (CompressionEngine_decompress c data expectedSize')
           = option_map d_success (CompressionEngine_decompress c data expectedSize)).
Proof.
  intros c data expectedSize. unfold CompressionEngine_decompress.
  split; [|split].
  - intros r. destruct (empty data).
    + intros [= <-] _. split; reflexivity.
    + destruct (zlib_inflate _ _).
      * intros [= <-] _. split; reflexivity.
      * destruct (zlib_partial _ _). intros [= <-]. discriminate.
      * intros [= <-]. discriminate.
      * discriminate.
  - intros ->. eexists. split; [reflexivity|]. split; reflexivity.
  - intros e'. destruct (empty data); [reflexivity|].
    destruct (zlib_inflate _ _); try reflexivity.
    do 2 destruct (zlib_partial _ _). reflexivity.
Qed.

End Controller.

(** C7, the failing input: five bytes were expected, none came out,
    and the call reports success. *)
Lemma C7_empty_input_succeeds_with_no_output :
  exists r,
    CompressionEngine_decompress (prim := Standin.primitives)
      (CompressionEngine_new CompressionLevel.DEFAULT) [] 5 = Some r
    /\ 0 < 5
    /\ size (decompressedData r) <> 5
    /\ d_success r = true.
Proof.
  eexists. split; [reflexivity|]. repeat split; discriminate.
Qed.

(** ** Writing an archive and reading it back *)

Section SaveAndOpen.
Context {prim : Primitives}.

Lemma slice_mid (A : Type) (pre x rest : list A) (off n : nat) :
  off = length pre -> n = length x -> slice off n (pre ++ x ++ rest) = x.
Proof.
  intros -> ->. unfold slice.
  rewrite skipn_app, skipn_all, Nat.sub_diag, skipn_0. cbn [app].
  rewrite firstn_app, firstn_all, Nat.sub_diag, firstn_0. apply app_nil_r.
Qed.

Lemma EntryHeader_serialize_length (h : EntryHeader) :
  length (EntryHeader_serialize h) = 26%nat.
Proof. reflexivity. Qed.

Lemma pow256 (k : nat) : 256 ^ Z.of_nat k = 2 ^ (8 * Z.of_nat k).
Proof. change 256 with (2 ^ 8). rewrite <- Z.pow_mul_r by lia. reflexivity. Qed.

(** An entry header whose fields fit their width on disk is read back
    as it was written. *)
Lemma EntryHeader_roundtrip (h : EntryHeader) :
  0 <= pathLength h < 2 ^ 16 ->
  0 <= h_originalSize h < 2 ^ 64 ->
  0 <= h_compressedSize h < 2 ^ 64 ->
  0 <= h_fileType h < 2 ^ 32 ->
  0 <= h_flags h < 2 ^ 32 ->
  EntryHeader_deserialize (EntryHeader_serialize h) = Some h.
Proof.
  intros Hp Ho Hc Ht Hf.
  assert (E1 : be_read 64 (be_bytes 8 (h_originalSize h)) = h_originalSize h)
    by (apply be_read_be_bytes; [lia | rewrite pow256; exact Ho]).
  assert (E2 : be_read 64 (be_bytes 8 (h_compressedSize h)) = h_compressedSize h)
    by (apply be_read_be_bytes; [lia | rewrite pow256; exact Hc]).
  assert (E3 : be_read 32 (be_bytes 4 (h_fileType h)) = h_fileType h)
    by (apply be_read_be_bytes; [lia | rewrite pow256; exact Ht]).
  assert (E4 : be_read 32 (be_bytes 4 (h_flags h)) = h_flags h)
    by (apply be_read_be_bytes; [lia | rewrite pow256; exact Hf]).
  destruct (@two_bytes_of_value (pathLength h)) as (x & y & Exy & Ev); [pow64; lia|].
  unfold EntryHeader_deserialize, EntryHeader_serialize.
  rewrite Exy.
  change (size _ <? Z.of_nat EntryHeader_fixedSize) with false. cbv iota.
  cbn [be_bytes app] in *.
  cbn [peek seq map at_ nth Nat.add].
  rewrite E1, E2, E3, E4.
  unfold u32. rewrite two_bytes_value, Ev by lia.
  destruct h; reflexivity.
Qed.

Lemma bytes_of_length (s : string) : length (bytes_of s) = String.length s.
Proof.
  unfold bytes_of, list_byte_of_string.
  rewrite length_map. induction s as [|c s IH]; simpl; congruence.
Qed.

Lemma entry_record_wf (e : VarcEntry) :
  wf_entry e ->
  entry_record e
  = EntryHeader_serialize (entry_header e)
    ++ bytes_of (m_relativePath e) ++ m_data e ++ firstn 32 (m_checksum e).
Proof.
  intros (Hp & _). unfold entry_record, entry_front, MAX_PATH_LENGTH, ssize in *.
  unfold u32, wrap. rewrite Z.mod_small by (pow64; lia).
  rewrite Nat2Z.id, <- bytes_of_length, peek_all, <- !app_assoc. reflexivity.
Qed.

Lemma checksum_firstn (e : VarcEntry) :
  wf_entry e -> length (firstn 32 (m_checksum e)) = 32%nat.
Proof.
  intros (_ & _ & _ & _ & _ & Hc). unfold CHECKSUM_SIZE in Hc.
  rewrite length_firstn. lia.
Qed.

Lemma entry_record_size (e : VarcEntry) :
  wf_entry e ->
  size (entry_record e) = 26 + ssize (m_relativePath e) + size (m_data e) + 32.
Proof.
  intros H. rewrite entry_record_wf by exact H. unfold size, ssize.
  rewrite !length_app, EntryHeader_serialize_length, bytes_of_length, checksum_firstn
    by exact H.
  lia.
Qed.

End SaveAndOpen.

Section ReadBack.
Context {prim : Primitives}.

Lemma slice_at1 (A : Type) (pre x rest : list A) (off : Z) (n : nat) :
  off = size pre -> n = length x ->
  slice (Z.to_nat off) n (pre ++ x ++ rest) = x.
Proof.
  intros -> ->. apply slice_mid; unfold size; lia.
Qed.

Lemma slice_at2 (A : Type) (pre a x rest : list A) (off : Z) (n : nat) :
  off = size pre + size a -> n = length x ->
  slice (Z.to_nat off) n (pre ++ a ++ x ++ rest) = x.
Proof.
  intros -> ->. rewrite (app_assoc pre a).
  apply slice_mid; unfold size; rewrite ?length_app; lia.
Qed.

Lemma slice_at3 (A : Type) (pre a b x rest : list A) (off : Z) (n : nat) :
  off = size pre + size a + size b -> n = length x ->
  slice (Z.to_nat off) n (pre ++ a ++ b ++ x ++ rest) = x.
Proof.
  intros -> ->. rewrite (app_assoc a b), (app_assoc pre (a ++ b)).
  apply slice_mid; unfold size; rewrite ?length_app; lia.
Qed.

Lemma slice_at4 (A : Type) (pre a b c x rest : list A) (off : Z) (n : nat) :
  off = size pre + size a + size b + size c -> n = length x ->
  slice (Z.to_nat off) n (pre ++ a ++ b ++ c ++ x ++ rest) = x.
Proof.
  intros -> ->. rewrite (app_assoc b c), (app_assoc a (b ++ c)), (app_assoc pre (a ++ b ++ c)).
  apply slice_mid; unfold size; rewrite ?length_app; lia.
Qed.

Lemma u64_small (z : Z) : 0 <= z < 2 ^ 64 -> u64 z = z.
Proof. intros H. unfold u64, wrap. apply Z.mod_small. exact H. Qed.

Lemma size_nonneg (A : Type) (l : list A) : 0 <= size l.
Proof. unfold size. lia. Qed.

Lemma size_app (A : Type) (l1 l2 : list A) : size (l1 ++ l2) = size l1 + size l2.
Proof. unfold size. rewrite length_app. lia. Qed.

Lemma readEntries_step (n : nat) (pre rest : list byte) (e : VarcEntry)
    (acc : list VarcEntry) :
  wf_entry e ->
  size pre + size (entry_record e) < 2 ^ 64 ->
  readEntries (S n) (pre ++ entry_record e ++ rest) (size pre) acc
  = readEntries n ((pre ++ entry_record e) ++ rest) (size (pre ++ entry_record e))
                (acc ++ [reloaded e]).
Proof.
  intros Hwf Hsz.
  pose proof (entry_record_size Hwf) as Hrs.
  rewrite size_app.
  rewrite <- (app_assoc pre).
  rewrite Hrs in *.
  rewrite (entry_record_wf Hwf). rewrite <- !app_assoc.
  pose proof (checksum_firstn Hwf) as HLC.
  destruct Hwf as (Hp & Ho & Hc & Ht & Hf & _).
  unfold MAX_PATH_LENGTH in Hp.
  set (H := EntryHeader_serialize (entry_header e)).
  set (Pb := bytes_of (m_relativePath e)).
  set (D := m_data e) in *.
  set (C := firstn 32 (m_checksum e)) in *.
  assert (LH : size H = 26) by reflexivity.
  assert (LP : size Pb = ssize (m_relativePath e))
    by (unfold size, ssize, Pb; rewrite bytes_of_length; reflexivity).
  assert (LC : size C = 32) by (unfold size; rewrite HLC; reflexivity).
  assert (Ldata : size (pre ++ H ++ Pb ++ D ++ C ++ rest)
                  = size pre + 26 + size Pb + size D + 32 + size rest)
    by (rewrite !size_app; lia).
  pose proof (size_nonneg pre). pose proof (size_nonneg D).
  pose proof (size_nonneg Pb). pose proof (size_nonneg rest).
  assert (EH : EntryHeader_deserialize H = Some (entry_header e)).
  { apply EntryHeader_roundtrip; unfold entry_header;
      cbn [pathLength h_originalSize h_compressedSize h_fileType h_flags]; auto.
    - unfold u32, wrap, ssize in *. rewrite Z.mod_small; pow64; lia.
    - rewrite Hc. pow64. lia. }
  assert (PL : pathLength (entry_header e) = size Pb).
  { unfold entry_header. cbn [pathLength]. rewrite LP.
    unfold u32, wrap, ssize in *. apply Z.mod_small. pow64. lia. }
  cbn [readEntries].
  change (Z.of_nat EntryHeader_fixedSize) with 26.
  change EntryHeader_fixedSize with 26%nat.
  rewrite (u64_small (z := size pre + 26)) by lia.
  rewrite (@slice_at1 _ pre H (Pb ++ D ++ C ++ rest) (size pre) 26 eq_refl eq_refl).
  rewrite EH, PL.
  cbn [h_originalSize h_compressedSize h_fileType h_flags entry_header].
  rewrite Hc.
  rewrite (u64_small (z := size pre + 26 + size Pb)) by lia.
  rewrite (u64_small (z := size pre + 26 + size Pb + size D)) by lia.
  rewrite (u64_small (z := size pre + 26 + size Pb + size D + 32)) by lia.
  rewrite Ldata.
  destruct (Z.ltb_spec (size pre + 26 + size Pb + size D + 32 + size rest)
                       (size pre + 26)); [lia|].
  destruct (Z.ltb_spec (size pre + 26 + size Pb + size D + 32 + size rest)
                       (size pre + 26 + size Pb)); [lia|].
  destruct (Z.ltb_spec (size pre + 26 + size Pb + size D + 32 + size rest)
                       (size pre + 26 + size Pb + size D)); [lia|].
  destruct (Z.ltb_spec (size pre + 26 + size Pb + size D) (size pre + 26 + size Pb)); [lia|].
  destruct (Z.ltb_spec (size pre + 26 + size Pb + size D + 32 + size rest)
                       (size pre + 26 + size Pb + size D + 32)); [lia|].
  rewrite (@slice_at2 _ pre H Pb (D ++ C ++ rest)
             (size pre + 26) (Z.to_nat (size Pb))) by (unfold size in *; lia).
  rewrite (@slice_at3 _ pre H Pb D (C ++ rest)
             (size pre + 26 + size Pb) (Z.to_nat (size D))) by (unfold size in *; lia).
  rewrite (@slice_at4 _ pre H Pb D C rest (size pre + 26 + size Pb + size D) 32)
    by (try (symmetry; exact HLC); unfold size in *; lia).
  replace (string_of_list_byte Pb) with (m_relativePath e)
    by (unfold Pb, bytes_of; rewrite string_of_list_byte_of_string; reflexivity).
  unfold reloaded. rewrite Hc. fold C. f_equal. lia.
Qed.

(** The loop of [readArchive] reads back the records it is given, one
    entry for each. *)
Lemma readEntries_records (es : list VarcEntry) :
  forall (pre rest : list byte) (acc : list VarcEntry),
    Forall wf_entry es ->
    size pre + size (flat_map entry_record es) < 2 ^ 64 ->
    readEntries (length es) (pre ++ flat_map entry_record es ++ rest) (size pre) acc
    = Ret (None, acc ++ map reloaded es).
Proof.
  induction es as [|e es IH]; intros pre rest acc Hwf Hsz.
  - cbn. rewrite app_nil_r. reflexivity.
  - inversion Hwf as [|? ? He Hes]; subst.
    cbn [flat_map length map] in *. rewrite size_app in Hsz.
    pose proof (size_nonneg (flat_map entry_record es)).
    rewrite <- app_assoc.
    rewrite readEntries_step by (auto; lia).
    rewrite (IH (pre ++ entry_record e) rest) by (auto; rewrite size_app; lia).
    rewrite <- app_assoc. reflexivity.
Qed.

(** Whatever the loop was given, when it comes to its end without an
    error it has pushed as many entries as it was asked for. *)
Lemma readEntries_length (n : nat) :
  forall (data : list byte) (offset : Z) (acc es : list VarcEntry),
    readEntries n data offset acc = Ret (None, es) ->
    length es = (length acc + n)%nat.
Proof.
  induction n as [|n IH]; intros data offset acc es H.
  - cbn in H. injection H as <-. lia.
  - cbn [readEntries] in H.
    repeat match type of H with
           | (if ?c then _ else _) = _ => destruct c; [discriminate H|]
           | match ?c with Some _ => _ | None => _ end = _ =>
               destruct c; [|discriminate H]
           end.
    apply IH in H. rewrite length_app in H. cbn [length] in H. lia.
Qed.
End ReadBack.

Section Reopen.
Context {prim : Primitives}.

(** The first 64 bytes of a written header are read back with the
    signature, version, flags and file count that were written. *)
Lemma GlobalHeader_read_back (h0 h : GlobalHeader) (rest : list byte) :
  wf_header h -> 0 <= fileCount h < 2 ^ 32 ->
  let r := GlobalHeader_deserialize h0
             (firstn 64 (firstn 64 (GlobalHeader_serialize h) ++ rest)) in
  fst r = true
  /\ signature (snd r) = VARC_SIGNATURE
  /\ version (snd r) = version h
  /\ gflags (snd r) = gflags h
  /\ fileCount (snd r) = fileCount h.
Proof.
  intros (Hs & Hv & Hf) Hc.
  assert (E : be_read 32 (be_bytes 4 (fileCount h)) = fileCount h)
    by (apply be_read_be_bytes; [lia | rewrite pow256; exact Hc]).
  destruct (@two_bytes_of_value (version h)) as (v1 & v2 & Ev & Evv); [pow64; lia|].
  destruct (@two_bytes_of_value (gflags h)) as (f1 & f2 & Ef & Eff); [pow64; lia|].
  unfold GlobalHeader_serialize. rewrite Hs, Ev, Ef.
  cbn [be_bytes app] in *.
  unfold padded. cbn [seq map VARC_SIGNATURE app firstn].
  match goal with
  | |- context [GlobalHeader_deserialize h0 ?l] => set (L := l)
  end.
  assert (S64 : (size L <? 64) = false) by reflexivity.
  assert (P0 : peek L 0 4 = VARC_SIGNATURE) by reflexivity.
  assert (A4 : at_ L 4 = v1) by reflexivity.
  assert (A5 : at_ L 5 = v2) by reflexivity.
  assert (A6 : at_ L 6 = f1) by reflexivity.
  assert (A7 : at_ L 7 = f2) by reflexivity.
  assert (P8 : be_read 32 (peek L 8 4) = fileCount h) by exact E.
  unfold GlobalHeader_deserialize. rewrite S64, P0.
  change (bytes_eqb VARC_SIGNATURE VARC_SIGNATURE) with true.
  cbn [negb fst snd signature version gflags fileCount].
  rewrite A4, A5, A6, A7, P8. unfold u16.
  rewrite !two_bytes_value by lia. rewrite Evv, Eff. auto.
Qed.

Lemma header_on_disk_size (h : GlobalHeader) :
  size (firstn 64 (GlobalHeader_serialize h)) = 64.
Proof.
  unfold size. rewrite firstn_length_le; [reflexivity|].
  rewrite GlobalHeader_serialize_length. lia.
Qed.

Lemma archive_totalSize_from (es : list VarcEntry) (t : Z) :
  Forall wf_entry es -> 0 <= t ->
  t + size (flat_map entry_record es) < 2 ^ 64 ->
  fold_left (fun total e =>
               u64 (total + Z.of_nat EntryHeader_fixedSize
                    + u32 (Z.of_nat (String.length (m_relativePath e)))
                    + m_compressedSize e + 32))
            es t
  = t + size (flat_map entry_record es).
Proof.
  revert t. induction es as [|e es IH]; intros t Hwf Ht Hsz.
  - cbn. unfold size. cbn. lia.
  - inversion Hwf as [|? ? He Hes]; subst.
    cbn [fold_left flat_map] in *. rewrite size_app in *.
    pose proof (size_nonneg (flat_map entry_record es)).
    pose proof (entry_record_size He) as Hr.
    destruct He as (Hp & _ & Hc & _). unfold MAX_PATH_LENGTH, ssize in *.
    pose proof (size_nonneg (m_data e)).
    assert (E : u64 (t + Z.of_nat EntryHeader_fixedSize
                     + u32 (Z.of_nat (String.length (m_relativePath e)))
                     + m_compressedSize e + 32)
                = t + size (entry_record e)).
    { unfold u32, wrap. rewrite (Z.mod_small (Z.of_nat _)) by (pow64; lia).
      change (Z.of_nat EntryHeader_fixedSize) with 26.
      rewrite u64_small; lia. }
    rewrite E, IH; auto; lia.
Qed.

Lemma archive_totalSize_wf (es : list VarcEntry) :
  Forall wf_entry es ->
  64 + size (flat_map entry_record es) < 2 ^ 64 ->
  archive_totalSize es = 64 + size (flat_map entry_record es).
Proof.
  intros. unfold archive_totalSize. apply archive_totalSize_from; auto. lia.
Qed.

Lemma updateHeader_entries (a : Archive) :
  m_entries (Archive_updateHeader a) = m_entries a.
Proof. unfold Archive_updateHeader. destruct (empty (m_entries a)); reflexivity. Qed.

Lemma updateHeader_fileCount (a : Archive) :
  fileCount (m_header (Archive_updateHeader a)) = u32 (size (m_entries a)).
Proof. unfold Archive_updateHeader. destruct (empty (m_entries a)); reflexivity. Qed.

Lemma wrap_range (w z : Z) : 0 <= w -> 0 <= wrap w z < 2 ^ w.
Proof. intros. unfold wrap. apply Z.mod_pos_bound. apply Z.pow_pos_nonneg; lia. Qed.

Lemma updateHeader_wf (a : Archive) :
  wf_header (m_header a) -> wf_header (m_header (Archive_updateHeader a)).
Proof.
  intros (Hs & Hv & Hf). unfold Archive_updateHeader.
  destruct (empty (m_entries a)); (split; [|split]);
    cbn [m_header set_header signature version gflags header_set_flags
         header_set_fileCount]; auto.
  unfold u16 at 1. apply wrap_range. lia.
Qed.

(** Entries with a checksum of 32 bytes whose records fit the buffer
    are copied into it back to back. *)
Lemma writeEntries_wf (totalSize : nat) (es : list VarcEntry) :
  forall written : list byte,
    Forall (fun e => length (m_checksum e) = CHECKSUM_SIZE) es ->
    (length written + length (flat_map entry_record es) <= totalSize)%nat ->
    writeEntries totalSize written es = Ret (written ++ flat_map entry_record es).
Proof.
  induction es as [|e es IH]; intros written Hck Hfit.
  - cbn. rewrite app_nil_r. reflexivity.
  - inversion Hck as [|? ? He Hes]; subst. unfold CHECKSUM_SIZE in He.
    cbn [flat_map writeEntries] in *. unfold entry_record in *.
    rewrite !length_app in Hfit.
    assert (L : length (firstn 32 (m_checksum e)) = 32%nat)
      by (rewrite length_firstn; lia).
    rewrite L in Hfit.
    destruct (Nat.ltb_spec totalSize (length (written ++ entry_front e))) as [C|_];
      [rewrite length_app in C; lia|].
    destruct (Nat.ltb_spec (length (m_checksum e)) 32) as [C|_]; [lia|].
    destruct (Nat.ltb_spec totalSize
                (length ((written ++ entry_front e) ++ firstn 32 (m_checksum e))))
      as [C|_]; [rewrite !length_app, L in C; lia|].
    rewrite IH; [|exact Hes | rewrite !length_app, L; lia].
    rewrite <- !app_assoc. reflexivity.
Qed.

Lemma wf_checksums (es : list VarcEntry) :
  Forall wf_entry es -> Forall (fun e => length (m_checksum e) = CHECKSUM_SIZE) es.
Proof.
  intros H. eapply Forall_impl; [|exact H].
  intros e (_ & _ & _ & _ & _ & Hc). exact Hc.
Qed.

(** With entries that fit the format, [writeArchive] lays out the 64
    header bytes and the records, back to back. *)
Lemma writeArchive_wf (a : Archive) :
  Forall wf_entry (m_entries a) ->
  64 + size (flat_map entry_record (m_entries a)) < 2 ^ 64 ->
  Archive_writeArchive a
  = Ret (set_archiveData (Archive_updateHeader a)
           (firstn 64 (GlobalHeader_serialize (m_header (Archive_updateHeader a)))
            ++ flat_map entry_record (m_entries a))).
Proof.
  intros Hwf Hsz. unfold Archive_writeArchive.
  rewrite updateHeader_entries.
  set (h := m_header (Archive_updateHeader a)).
  pose proof (GlobalHeader_serialize_length h) as Hl.
  destruct (Z.ltb_spec (size (GlobalHeader_serialize h)) 64) as [C|C];
    [unfold size in C; lia|].
  rewrite archive_totalSize_wf by assumption.
  set (written := firstn 64 (GlobalHeader_serialize h) ++ flat_map entry_record (m_entries a)).
  assert (Hw : length written = Z.to_nat (64 + size (flat_map entry_record (m_entries a)))).
  { unfold written. rewrite length_app.
    pose proof (header_on_disk_size h) as H64. unfold size in *. lia. }
  pose proof (header_on_disk_size h) as H64.
  destruct (Nat.ltb_spec (Z.to_nat (64 + size (flat_map entry_record (m_entries a)))) 64)
    as [C'|_]; [unfold size in C'; lia|].
  rewrite writeEntries_wf;
    [|apply wf_checksums; exact Hwf | unfold size in *; lia].
  cbn [bind]. fold written. rewrite <- Hw.
  rewrite skipn_all2 by (rewrite resize_length; lia).
  rewrite app_nil_r. reflexivity.
Qed.

Lemma isValid_VARC (h : GlobalHeader) :
  signature h = VARC_SIGNATURE -> GlobalHeader_isValid h = true.
Proof. intros H. unfold GlobalHeader_isValid. rewrite H. reflexivity. Qed.

(** [readArchive] on the bytes of a written archive: every entry comes
    back, and any password will do unless it is empty. *)
Lemma readArchive_written (password : string) (w : World) (a : Archive)
    (h : GlobalHeader) (es : list VarcEntry) :
  wf_header h ->
  fileCount h = size es -> size es < 2 ^ 32 ->
  Forall wf_entry es ->
  64 + size (flat_map entry_record es) < 2 ^ 64 ->
  m_archiveData a = firstn 64 (GlobalHeader_serialize h) ++ flat_map entry_record es ->
  (GlobalHeader_isEncrypted h = true -> password <> ""%string) ->
  exists w' a',
    Archive_readArchive password w a = Ret (true, w', a')
    /\ m_entries a' = map reloaded es
    /\ fileCount (m_header a') = size es
    /\ gflags (m_header a') = gflags h
    /\ calls w' = calls w
    /\ m_filepath a' = m_filepath a.
Proof.
  intros Hh Hfc Hn Hwf Hsz Hdata Hpw.
  pose proof (size_nonneg es) as Hes0.
  pose proof (size_nonneg (flat_map entry_record es)) as Hfl0.
  unfold Archive_readArchive. rewrite Hdata.
  rewrite size_app, header_on_disk_size.
  destruct (Z.ltb_spec (64 + size (flat_map entry_record es)) 64); [lia|].
  destruct (@GlobalHeader_read_back (m_header a) h (flat_map entry_record es) Hh)
    as (R1 & R2 & R3 & R4 & R5); [lia|].
  destruct (GlobalHeader_deserialize (m_header a) _) as [ok h'].
  cbn [fst snd] in *. subst ok. cbn [negb].
  rewrite (isValid_VARC h') by assumption. cbn [negb].
  assert (Henc : GlobalHeader_isEncrypted h' = GlobalHeader_isEncrypted h)
    by (unfold GlobalHeader_isEncrypted; rewrite R4; reflexivity).
  rewrite Henc, R5, Hfc.
  assert (Hread : forall acc,
             readEntries (Z.to_nat (size es))
               (firstn 64 (GlobalHeader_serialize h) ++ flat_map entry_record es) 64 acc
             = Ret (None, acc ++ map reloaded es)).
  { intros acc. unfold size at 1. rewrite Nat2Z.id.
    pose proof (@readEntries_records _ es (firstn 64 (GlobalHeader_serialize h)) [] acc Hwf)
      as R.
    rewrite header_on_disk_size, app_nil_r in R. apply R. exact Hsz. }
  destruct (GlobalHeader_isEncrypted h) eqn:E.
  - destruct (str_empty password) eqn:P;
      [apply str_empty_true in P; exfalso; apply Hpw; auto|].
    destruct (initializeFromPassword_ok (m_crypto (set_header a h')) password
                (salt h') (rand w) P) as (c' & -> & _).
    cbn [bind m_archiveData set_crypto set_header]. rewrite Hdata, Hread.
    cbn [bind]. do 2 eexists. split; [reflexivity|].
    cbn [m_entries m_header set_entries set_crypto set_header calls with_rand m_filepath].
    rewrite R5, Hfc. auto.
  - cbn [bind m_archiveData set_header]. rewrite Hdata, Hread.
    cbn [bind]. do 2 eexists. split; [reflexivity|].
    cbn [m_entries m_header set_entries set_header m_filepath].
    rewrite R5, Hfc. auto.
Qed.

End Reopen.

Section SaveOpen.
Context {prim : Primitives}.

Lemma deserialize_fileCount (h0 h : GlobalHeader) (data : list byte) :
  GlobalHeader_deserialize h0 data = (true, h) -> 0 <= fileCount h < 2 ^ 32.
Proof.
  unfold GlobalHeader_deserialize.
  destruct (size data <? 64); [discriminate|].
  destruct (negb _); [discriminate|].
  intros [= <-]. cbn [fileCount]. apply be_read_range. lia.
Qed.

(** When [readArchive] succeeds, the header it has decoded counts the
    entries it has pushed. *)
Lemma readArchive_count (password : string) (w w' : World) (a a' : Archive) :
  Archive_readArchive password w a = Ret (true, w', a') ->
  fileCount (m_header a') = size (m_entries a').
Proof.
  unfold Archive_readArchive.
  destruct (size (m_archiveData a) <? 64); [discriminate|].
  destruct (GlobalHeader_deserialize _ _) as [ok h] eqn:D.
  destruct ok; cbn [negb]; [|discriminate].
  apply deserialize_fileCount in D.
  destruct (GlobalHeader_isValid h); cbn [negb]; [|discriminate].
  assert (G : forall w1 a1,
             m_header a1 = h ->
             (' (err, es) <- readEntries (Z.to_nat (fileCount h)) (m_archiveData a1) 64 [];;
              (let a2 := set_entries a1 es in
               match err with
               | Some msg => Ret (false, w1, set_error a2 msg)
               | None => Ret (true, w1, a2)
               end)) = Ret (true, w', a') ->
             fileCount (m_header a') = size (m_entries a')).
  { intros w1 a1 Hh H.
    destruct (readEntries _ _ _ _) as [[err es]| |] eqn:R; cbn [bind] in H;
      try discriminate H.
    destruct err; [discriminate H|].
    injection H as _ <-. apply readEntries_length in R.
    cbn [m_header m_entries set_entries]. rewrite Hh. unfold size.
    rewrite R. cbn [length]. lia. }
  destruct (GlobalHeader_isEncrypted h).
  - destruct (str_empty password); cbn [bind]; [discriminate|].
    destruct (CryptoEngine_initializeFromPassword _ _ _ _) as [[c k]| |];
      cbn [bind]; try discriminate.
    apply G. reflexivity.
  - cbn [bind]. apply G. reflexivity.
Qed.

(** So does [open]. *)
Lemma open_count (f password : string) (w w' : World) (a a' : Archive) :
  Archive_open f password w a = Ret (true, w', a') ->
  fileCount (m_header a') = size (m_entries a').
Proof.
  unfold Archive_open.
  destruct (Archive_close w a) as [[w1 a1]| |]; cbn [bind]; try discriminate.
  destruct (files w1 f) as [content|]; [|discriminate].
  destruct (Archive_readArchive _ _ _) as [[[ok w2] a2]| |] eqn:R; cbn [bind];
    try discriminate.
  destruct ok; cbn [negb]; [|discriminate].
  intros [= <- <-]. apply readArchive_count in R. exact R.
Qed.

Lemma land_bit_stays (w k x m : Z) :
  0 <= k < w -> Z.land x (2 ^ k) = 0 -> Z.land (wrap w (Z.land x m)) (2 ^ k) = 0.
Proof.
  intros Hk Hx.
  assert (Hb : Z.testbit x k = false).
  { apply (f_equal (fun z => Z.testbit z k)) in Hx.
    rewrite Z.land_spec, Z.bits_0, Z.pow2_bits_true, andb_true_r in Hx by lia.
    exact Hx. }
  apply Z.bits_inj'. intros n Hn.
  rewrite Z.land_spec, Z.bits_0, Z.pow2_bits_eqb by lia.
  destruct (Z.eqb_spec k n) as [<-|]; [|apply andb_false_r].
  unfold wrap. rewrite Z.mod_pow2_bits_low, Z.land_spec, Hb by lia. reflexivity.
Qed.

(** [updateHeader] on an archive without entries clears both hints. *)
Lemma updateHeader_empty (a : Archive) :
  m_entries a = [] ->
  GlobalHeader_isEncrypted (m_header (Archive_updateHeader a)) = false
  /\ GlobalHeader_isCompressed (m_header (Archive_updateHeader a)) = false.
Proof.
  intros H. unfold Archive_updateHeader. rewrite H. cbn [empty].
  unfold GlobalHeader_isEncrypted, GlobalHeader_isCompressed.
  cbn [m_header set_header gflags header_set_flags header_set_fileCount].
  unfold u16, ArchiveFlags.ENCRYPTED, ArchiveFlags.COMPRESSED.
  split.
  - change 1 with (2 ^ 0). rewrite land_bit_stays; [reflexivity | lia |].
    apply land_clear_bit. lia.
  - change 2 with (2 ^ 1). rewrite land_clear_bit by lia. reflexivity.
Qed.

End SaveOpen.

Section RoundTrip.
Context {prim : Primitives}.

Lemma u32_small_size (A : Type) (l : list A) : size l < 2 ^ 32 -> u32 (size l) = size l.
Proof.
  intros H. unfold u32, wrap. apply Z.mod_small. pose proof (size_nonneg l). lia.
Qed.

Lemma save_wf (f : string) (w : World) (a : Archive) :
  f <> ""%string ->
  Forall wf_entry (m_entries a) ->
  64 + size (flat_map entry_record (m_entries a)) < 2 ^ 64 ->
  fs_opens (calls w) f = true ->
  Archive_save f w a = Ret (true, write_file w f (archive_bytes a), saved a f).
Proof.
  intros Hf Hwf Hsz Hopens.
  assert (Ef : str_empty f = false) by (destruct f; [contradiction | reflexivity]).
  unfold Archive_save. rewrite Ef, Ef, writeArchive_wf by assumption.
  cbn [bind]. rewrite Hopens. reflexivity.
Qed.

Lemma open_unmodified (f password : string) (w : World) (a : Archive)
    (content : list byte) :
  m_modified a = false -> files w f = Some content ->
  Archive_open f password w a
  = ('(ok, w, a) <- Archive_readArchive password w (opening a f content) ;;
     if negb ok then Ret (false, w, a)
     else Ret (true, w, set_modified (set_loaded a true) false)).
Proof.
  intros Hm Hfile. unfold Archive_open, Archive_close.
  rewrite Hm. cbn [bind]. rewrite Hfile. reflexivity.
Qed.

(** An archive whose header and entries fit the format is written by
    [save] and read back by [open], entry by entry; a password is asked
    for when the header is ENCRYPTED, and any will do. *)
Lemma save_open_roundtrip (f password : string) (w : World) (a : Archive) :
  f <> ""%string ->
  wf_header (m_header a) ->
  Forall wf_entry (m_entries a) ->
  size (m_entries a) < 2 ^ 32 ->
  64 + size (flat_map entry_record (m_entries a)) < 2 ^ 64 ->
  (GlobalHeader_isEncrypted (m_header (Archive_updateHeader a)) = true ->
   password <> ""%string) ->
  keeps w f ->
  exists w3 a3,
    Archive_open f password (write_file w f (archive_bytes a)) (saved a f)
    = Ret (true, w3, a3)
    /\ m_entries a3 = map reloaded (m_entries a)
    /\ fileCount (m_header a3) = size (m_entries a)
    /\ gflags (m_header a3) = gflags (m_header (Archive_updateHeader a))
    /\ calls w3 = calls (write_file w f (archive_bytes a)).
Proof.
  intros Hf Hh Hwf Hn Hsz Hpw (_ & Hkeeps).
  pose proof (updateHeader_wf a Hh) as Hh'.
  pose proof (updateHeader_fileCount a) as Hfc.
  rewrite (u32_small_size (m_entries a)) in Hfc by lia.
  destruct (@readArchive_written _ password (write_file w f (archive_bytes a))
              (opening (saved a f) f (archive_bytes a))
              (m_header (Archive_updateHeader a)) (m_entries a)
              Hh' Hfc Hn Hwf Hsz eq_refl Hpw)
    as (w3 & a3 & Hread & He & Hc & Hg & Hfiles & _).
  exists w3, (set_modified (set_loaded a3 true) false).
  split.
  - rewrite (@open_unmodified f password _ _ (archive_bytes a)).
    + rewrite Hread. reflexivity.
    + reflexivity.
    + apply Hkeeps.
  - cbn [m_entries m_header set_modified set_loaded].
    repeat split; auto.
Qed.

(** Without a password, an archive whose header is ENCRYPTED is turned
    down before any entry is read. *)
Lemma readArchive_written_no_password (w : World) (a : Archive)
    (h : GlobalHeader) (rest : list byte) :
  wf_header h -> 0 <= fileCount h < 2 ^ 32 ->
  GlobalHeader_isEncrypted h = true ->
  m_archiveData a = firstn 64 (GlobalHeader_serialize h) ++ rest ->
  exists a',
    Archive_readArchive "" w a = Ret (false, w, a')
    /\ m_errorMessage a' = "Password required for encrypted archive"%string.
Proof.
  intros Hh Hfc Henc Hdata.
  pose proof (size_nonneg rest).
  unfold Archive_readArchive. rewrite Hdata.
  rewrite size_app, header_on_disk_size.
  destruct (Z.ltb_spec (64 + size rest) 64); [lia|].
  destruct (@GlobalHeader_read_back _ (m_header a) h rest Hh Hfc)
    as (R1 & R2 & R3 & R4 & R5).
  destruct (GlobalHeader_deserialize (m_header a) _) as [ok h'].
  cbn [fst snd] in *. subst ok. cbn [negb].
  rewrite (isValid_VARC h') by assumption. cbn [negb].
  assert (E : GlobalHeader_isEncrypted h' = true)
    by (unfold GlobalHeader_isEncrypted in *; rewrite R4; exact Henc).
  rewrite E. cbn [str_empty bind].
  eexists. split; reflexivity.
Qed.

End RoundTrip.

Section RoundTripOfOneFile.
Context {prim : Primitives}.

Lemma FileType_detect_range (d : list byte) : 0 <= FileType_detect d < 2 ^ 32.
Proof.
  unfold FileType_detect.
  repeat match goal with
         | |- context [if ?c then _ else _] => destruct c
         end;
    unfold FileType.UNKNOWN, FileType.TEXT, FileType.BINARY, FileType.IMAGE,
      FileType.AUDIO, FileType.VIDEO, FileType.DOCUMENT, FileType.ARCHIVE;
    pow64; lia.
Qed.

Lemma of_data_normal (path : string) (data : list byte) (type : EntryType) :
  normal (VarcEntry_of_data path data type).
Proof.
  unfold normal, VarcEntry_of_data.
  cbn [m_originalSize m_compressedSize m_fileType m_flags m_data].
  repeat split; try reflexivity; try (pow64; lia).
  all: destruct (_ && _); try apply FileType_detect_range; pow64; lia.
Qed.

Lemma setData_normal (e : VarcEntry) (data : list byte) :
  normal e -> normal (VarcEntry_setData e data).
Proof.
  intros (_ & _ & Ht & Hf). unfold normal, VarcEntry_setData.
  cbn [m_originalSize m_compressedSize m_fileType m_flags m_data].
  split; [reflexivity|]. split; [reflexivity|]. split; [|exact Hf].
  destruct (_ && _); [apply FileType_detect_range | exact Ht].
Qed.

Lemma setFlags_normal (e : VarcEntry) (f : Z) :
  normal e -> normal (VarcEntry_setFlags e (u32 f)).
Proof.
  intros (Ho & Hc & Ht & _). unfold normal, VarcEntry_setFlags.
  cbn [m_originalSize m_compressedSize m_fileType m_flags m_data].
  split; [exact Ho|]. split; [exact Hc|]. split; [exact Ht|].
  unfold u32. apply wrap_range. lia.
Qed.

Lemma compress_success_size (c : CompressionEngine) (d : list byte) :
  c_success (CompressionEngine_compress c d) = true ->
  c_compressedSize (CompressionEngine_compress c d)
  = u64 (size (compressedData (CompressionEngine_compress c d))).
Proof.
  unfold CompressionEngine_compress.
  destruct d as [|x d]; [reflexivity|]. cbn [empty].
  destruct (zlib_deflate _ _ _); cbn; congruence.
Qed.

Lemma processEntry_compress_normal (e : VarcEntry) (options : CreateOptions) (a : Archive) :
  normal e -> normal (processEntry_compress e options a).
Proof.
  intros H. unfold processEntry_compress.
  destruct (compress options); [|exact H].
  destruct (c_success _) eqn:S; [|exact H].
  apply setFlags_normal.
  pose proof (setData_normal (compressedData
                (CompressionEngine_compress (m_compression a) (m_data e))) H)
    as (Ho & Hc & Ht & Hf).
  unfold normal, VarcEntry_setCompressedSize.
  cbn [m_originalSize m_compressedSize m_fileType m_flags m_data] in *.
  rewrite compress_success_size by exact S. auto.
Qed.

Lemma processEntry_compress_path (e : VarcEntry) (options : CreateOptions) (a : Archive) :
  m_relativePath (processEntry_compress e options a) = m_relativePath e.
Proof.
  unfold processEntry_compress.
  destruct (compress options); [|reflexivity].
  destruct (c_success _); reflexivity.
Qed.

Lemma built_wf (e : VarcEntry) :
  built e -> ssize (m_relativePath e) <= MAX_PATH_LENGTH ->
  size (m_data e) < 2 ^ 64 -> wf_entry e.
Proof.
  intros ((Ho & Hc & Ht & Hf) & Hck) Hp Hs. pose proof (size_nonneg (m_data e)).
  unfold wf_entry. rewrite Ho, Hc, u64_small by lia. repeat split; auto; lia.
Qed.

Lemma of_data_built (path : string) (data : list byte) (type : EntryType) :
  built (VarcEntry_of_data path data type).
Proof. split; [apply of_data_normal | apply sha256_length]. Qed.

Lemma setData_built (e : VarcEntry) (data : list byte) :
  normal e -> built (VarcEntry_setData e data).
Proof. intros H. split; [apply setData_normal; exact H | apply sha256_length]. Qed.

Lemma setFlags_built (e : VarcEntry) (f : Z) :
  built e -> built (VarcEntry_setFlags e (u32 f)).
Proof. intros (H & Hc). split; [apply setFlags_normal; exact H | exact Hc]. Qed.

Lemma processEntry_compress_built (e : VarcEntry) (options : CreateOptions) (a : Archive) :
  built e -> built (processEntry_compress e options a).
Proof.
  intros (H & Hc). split; [apply processEntry_compress_normal; exact H|].
  unfold processEntry_compress.
  destruct (compress options); [|exact Hc].
  destruct (c_success _); [apply sha256_length | exact Hc].
Qed.

Lemma create_new (f : string) (w : World) :
  Archive_create f w Archive_new = Ret (true, w, created f).
Proof. reflexivity. Qed.

Lemma default_header_wf : wf_header GlobalHeader_default.
Proof. unfold wf_header. cbn. repeat split; try discriminate; reflexivity. Qed.

(** The one entry of an archive that was created and given one file. *)
Lemma add_to_created (f P : string) (B : list byte) (options : CreateOptions) (w : World) :
  exists w1 a1 e',
    Archive_addVirtualFile P B options w (created f) = Ret (true, w1, a1)
    /\ m_entries a1 = [e']
    /\ m_relativePath e' = P
    /\ m_data e' = pipeline_output options (rand w) B
    /\ built e'
    /\ wf_header (m_header a1)
    /\ (GlobalHeader_isEncrypted (m_header a1) = true ->
        encrypt options = true /\ password options <> ""%string)
    /\ calls w1 = calls w.
Proof.
  unfold Archive_addVirtualFile. cbn [Archive_isOpen created m_loaded negb].
  fold (created f). unfold Archive_processEntry.
  destruct (processEntry_encrypt_spec (VarcEntry_of_data P B FILE) options w (created f))
    as (e1 & w1 & a1 & Henc & Hes & _ & Hcomp & _ & Hplain & Hcipher).
  rewrite Henc. cbn [bind].
  do 3 eexists. split; [reflexivity|].
  cbn [m_entries m_header set_modified set_entries]. rewrite Hes.
  split; [reflexivity|].
  rewrite processEntry_compress_path.
  unfold pipeline_output.
  assert (Hc' : processEntry_compress e1 options a1
                = processEntry_compress e1 options (created f))
    by (unfold processEntry_compress; rewrite Hcomp; reflexivity).
  destruct (encrypt options && negb (str_empty (password options))) eqn:C.
  - destruct (Hcipher eq_refl) as (He1 & _ & Hinit).
    destruct (Hinit eq_refl) as (Hkey & Hiv & Hflag & Hsig & Hver).
    assert (Hn1 : built e1)
      by (rewrite He1; apply setFlags_built, setData_built, of_data_normal).
    assert (Hd1 : m_data e1 = EVP_encrypt (pipeline_key (password options) (rand w))
                                          (pipeline_iv (rand w)) B)
      by (rewrite He1, Hkey, Hiv; reflexivity).
    split; [rewrite He1; reflexivity|].
    split.
    { rewrite Hc'. unfold processEntry_compress. cbn [created m_compression].
      rewrite Hd1. destruct (compress options); [|exact Hd1].
      destruct (c_success _); [reflexivity | exact Hd1]. }
    split; [apply processEntry_compress_built; exact Hn1|].
    apply andb_true_iff in C. destruct C as [C1 C2].
    apply negb_true_iff in C2.
    split; [|split].
    + unfold wf_header. rewrite Hsig, Hver. cbn.
      unfold GlobalHeader_isEncrypted in Hflag.
      repeat split; try discriminate; try reflexivity.
      all: revert Henc; unfold processEntry_encrypt; rewrite C1, C2; cbn [andb negb];
        cbn [created m_crypto CryptoEngine_isInitialized CryptoEngine_new
             m_initialized andb negb CryptoEngine_generateSalt];
        destruct (CryptoEngine_initializeFromPassword _ _ _ _) as [[c k]| |];
        cbn [bind CryptoEngine_generateIV]; try discriminate;
        destruct (CryptoEngine_encrypt _ _); cbn [bind]; try discriminate;
        intros [= _ _ <-]; cbn [m_header set_header gflags header_set_flags];
        unfold u16; apply wrap_range; lia.
    + intros _. split; [exact C1|]. intros E. rewrite E in C2. discriminate C2.
    + revert Henc. unfold processEntry_encrypt. rewrite C1, C2. cbn [andb negb].
      cbn [created m_crypto CryptoEngine_isInitialized CryptoEngine_new
           m_initialized andb negb CryptoEngine_generateSalt].
      destruct (CryptoEngine_initializeFromPassword _ _ _ _) as [[c k]| |];
        cbn [bind CryptoEngine_generateIV]; try discriminate.
      destruct (CryptoEngine_encrypt _ _); cbn [bind]; try discriminate.
      intros [= _ <- _]. reflexivity.
  - destruct (Hplain eq_refl) as (-> & -> & ->).
    split; [reflexivity|].
    split.
    { unfold processEntry_compress. cbn [created m_compression VarcEntry_of_data m_data].
      destruct (compress options); [|reflexivity].
      destruct (c_success _); reflexivity. }
    split; [apply processEntry_compress_built, of_data_built|].
    split; [apply default_header_wf|].
    split; [discriminate | reflexivity].
Qed.

End RoundTripOfOneFile.

Section Claims.
Context {prim : Primitives}.

Lemma updateHeader_nonempty (a : Archive) :
  m_entries a <> [] -> gflags (m_header (Archive_updateHeader a)) = gflags (m_header a).
Proof.
  intros H. unfold Archive_updateHeader.
  destruct (m_entries a); [contradiction | reflexivity].
Qed.

Lemma reloaded_data (es : list VarcEntry) : map m_data (map reloaded es) = map m_data es.
Proof. rewrite map_map. reflexivity. Qed.

(** What is asked of the disk depends on the calls made so far, not on
    the random source. *)
Lemma keeps_calls (w w' : World) (f : string) :
  calls w' = calls w -> keeps w f -> keeps w' f.
Proof.
  intros E (Ho & Hr). unfold keeps, files, write_file in *.
  cbn [calls] in *. rewrite E. auto.
Qed.

Lemma receives_calls (w w' : World) (out : string) :
  calls w' = calls w -> receives w out -> receives w' out.
Proof.
  intros E (w1 & Hm & Hk). unfold receives, make_parent, make_directories in *.
  rewrite E.
  destruct (str_empty (fs_parent_path out)).
  - injection Hm as <-. exists w'. split; [reflexivity|].
    apply (keeps_calls (w := w)); assumption.
  - destruct (fs_create_directories (calls w) (fs_parent_path out)); [discriminate Hm|].
    injection Hm as <-. eexists. split; [reflexivity|].
    apply (keeps_calls (w := {| calls := calls w ++ [MadeDirectories (fs_parent_path out)];
                                rand := rand w |})); [reflexivity | exact Hk].
Qed.

(** C1 (the code departs from the claim).  On a disk that keeps the
    archive file and then receives the output file, the session
    [create; addVirtualFile(P, B, options); save(f); open(f, password);
    extractFile(P, out)] succeeds and writes to [out] the bytes that
    the pipeline had stored for [P]: neither [open] nor [extractFile]
    inflates or decrypts.  These are the bytes [B] when the options ask
    for neither compression nor encryption, and the deflated stream or
    the ciphertext otherwise. *)
Theorem C1_extract_yields_the_stored_bytes :
  forall (f P out : string) (B : list byte) (options : CreateOptions) (w : World),
    B <> [] ->
    ssize P <= MAX_PATH_LENGTH ->
    f <> ""%string ->
    (encrypt options = true -> password options <> ""%string) ->
    size (pipeline_output options (rand w) B) < 2 ^ 63 ->
    keeps w f ->
    (forall content, receives (write_file w f content) out) ->
    exists w' a',
      roundtrip f P out B options (password options) w = Ret (true, w', a')
      /\ files w' out = Some (pipeline_output options (rand w) B)
      /\ (compress options = false -> encrypt options = false ->
          files w' out = Some B).
Proof.
  intros f P out B options w HB HP Hf Hpw Hsz Hkeep Hrecv.
  unfold roundtrip. rewrite create_new. cbn [bind].
  destruct (add_to_created f P B options w)
    as (w1 & a1 & e' & -> & Hes & Hpath & Hdata & Hbuilt & Hh & Henc & Hcalls).
  cbn [bind].
  pose proof (size_nonneg (m_data e')) as Hd0.
  assert (Hwf : wf_entry e').
  { apply built_wf; auto.
    - rewrite Hpath. exact HP.
    - rewrite Hdata. pow64. lia. }
  assert (Hrec : size (flat_map entry_record (m_entries a1))
                 = 26 + ssize P + size (pipeline_output options (rand w) B) + 32).
  { rewrite Hes. cbn [flat_map]. rewrite app_nil_r, entry_record_size by exact Hwf.
    rewrite Hpath, Hdata. reflexivity. }
  assert (Hwfs : Forall wf_entry (m_entries a1)) by (rewrite Hes; auto).
  assert (Hbound : 64 + size (flat_map entry_record (m_entries a1)) < 2 ^ 64).
  { rewrite Hrec. unfold MAX_PATH_LENGTH in HP.
    change (2 ^ 63) with 9223372036854775808 in Hsz. pow64. lia. }
  assert (Hkeep1 : keeps w1 f) by (apply (keeps_calls (w := w)); assumption).
  rewrite save_wf by (try assumption; apply Hkeep1). cbn [bind].
  destruct (@save_open_roundtrip _ f (password options) w1 a1 Hf Hh Hwfs)
    as (w3 & a3 & -> & Hes3 & _ & _ & Hcalls3).
  { rewrite Hes. unfold size. cbn. pow64. lia. }
  { exact Hbound. }
  { intros E. apply Henc.
    unfold GlobalHeader_isEncrypted in *.
    rewrite updateHeader_nonempty in E by (rewrite Hes; discriminate). exact E. }
  { exact Hkeep1. }
  cbn [bind].
  assert (Hr3 : receives w3 out).
  { apply (receives_calls (w := write_file w f (archive_bytes a1))); [|apply Hrecv].
    rewrite Hcalls3. cbn [calls write_file]. rewrite Hcalls. reflexivity. }
  destruct Hr3 as (w4 & Hmk & Hopens & Hread).
  unfold Archive_extractFile, Archive_findEntry.
  rewrite Hes3, Hes. cbn [map findEntry reloaded VarcEntry_setData m_relativePath
                         VarcEntry_setChecksum VarcEntry_setFlags
                         VarcEntry_setCompressedSize VarcEntry_of_meta].
  rewrite Hpath, String.eqb_refl.
  cbn [m_data m_originalSize].
  assert (Hguard : empty (m_data e') && (0 <? u64 (size (m_data e'))) = false).
  { destruct (m_data e'); [reflexivity|]. reflexivity. }
  change (m_data (reloaded e')) with (m_data e').
  change (m_originalSize (reloaded e')) with (u64 (size (m_data e'))).
  rewrite Hguard, Hmk. cbn [bind]. rewrite Hopens. cbn [negb].
  do 2 eexists. split; [reflexivity|].
  rewrite Hread, Hdata.
  split; [reflexivity|].
  intros Hc He. unfold pipeline_output. rewrite Hc, He. reflexivity.
Qed.

(** C4 (the claim holds in another form).  An archive that fits the
    format, has at least one entry and an ENCRYPTED header is saved to a
    disk that keeps the file; then [open] succeeds with every password
    that is not empty, the right one or a wrong one, and hands back the
    entries with their stored bytes as they are; it fails, with
    "Password required for encrypted archive", for the empty password
    alone.  Nothing is decrypted or verified at [open]. *)
Theorem C4_open_takes_any_password :
  forall (f password : string) (w : World) (a : Archive),
    f <> ""%string ->
    wf_header (m_header a) ->
    Forall wf_entry (m_entries a) ->
    m_entries a <> [] ->
    size (m_entries a) < 2 ^ 32 ->
    64 + size (flat_map entry_record (m_entries a)) < 2 ^ 64 ->
    GlobalHeader_isEncrypted (m_header a) = true ->
    keeps w f ->
    exists w2 a2,
      Archive_save f w a = Ret (true, w2, a2)
      /\ (password <> ""%string ->
          exists w3 a3,
            Archive_open f password w2 a2 = Ret (true, w3, a3)
            /\ GlobalHeader_isEncrypted (m_header a3) = true
            /\ map m_relativePath (m_entries a3) = map m_relativePath (m_entries a)
            /\ map m_data (m_entries a3) = map m_data (m_entries a))
      /\ (password = ""%string ->
          exists w3 a3,
            Archive_open f password w2 a2 = Ret (false, w3, a3)
            /\ m_errorMessage a3 = "Password required for encrypted archive"%string).
Proof.
  intros f password w a Hf Hh Hwf Hne Hn Hsz Henc Hkeep.
  assert (Hg : gflags (m_header (Archive_updateHeader a)) = gflags (m_header a))
    by (apply updateHeader_nonempty; exact Hne).
  exists (write_file w f (archive_bytes a)), (saved a f).
  split; [apply save_wf; try assumption; apply Hkeep|]. split.
  - intros Hpw.
    destruct (@save_open_roundtrip _ f password w a Hf Hh Hwf Hn Hsz (fun _ => Hpw) Hkeep)
      as (w3 & a3 & Hopen & Hes & _ & Hg3 & _).
    exists w3, a3. split; [exact Hopen|]. split; [|split].
    + unfold GlobalHeader_isEncrypted in *. rewrite Hg3, Hg. exact Henc.
    + rewrite Hes, map_map. reflexivity.
    + rewrite Hes. apply reloaded_data.
  - intros ->.
    pose proof (updateHeader_fileCount a) as Hfc.
    rewrite (u32_small_size (m_entries a)) in Hfc by lia.
    pose proof (size_nonneg (m_entries a)).
    destruct (@readArchive_written_no_password _
                (write_file w f (archive_bytes a))
                (opening (saved a f) f (archive_bytes a))
                (m_header (Archive_updateHeader a))
                (flat_map entry_record (m_entries a)))
      as (a' & Hread & Herr).
    + apply updateHeader_wf. exact Hh.
    + rewrite Hfc. lia.
    + unfold GlobalHeader_isEncrypted in *. rewrite Hg. exact Henc.
    + reflexivity.
    + exists (write_file w f (archive_bytes a)), a'.
      split; [|exact Herr].
      rewrite (@open_unmodified _ f "" _ _ (archive_bytes a)).
      * rewrite Hread. reflexivity.
      * reflexivity.
      * apply Hkeep.
Qed.










End Claims.

(** ** The claims on concrete archives *)

(** On the stand-in disk every file is kept and received. *)
Lemma standin_last_written (cs : list fs_call) (p : string) (content : list byte) :
  Standin.last_written (cs ++ [Wrote p content]) p = Some content.
Proof.
  induction cs as [|c cs IH]; cbn [app Standin.last_written].
  - rewrite String.eqb_refl. reflexivity.
  - rewrite IH. reflexivity.
Qed.

Lemma standin_keeps (w : World) (f : string) : keeps (prim := Standin.primitives) w f.
Proof.
  split; [reflexivity|]. intros content. apply standin_last_written.
Qed.

Lemma standin_receives (w : World) (out : string) :
  receives (prim := Standin.primitives) w out.
Proof.
  unfold receives, make_parent, make_directories.
  destruct (str_empty _); eexists; (split; [reflexivity | apply standin_keeps]).
Qed.

(** C1 at one file with a password: the session succeeds. *)
Lemma C1_extract_yields_the_stored_bytes_witness :
  [x41] <> []
  /\ ssize "a" <= MAX_PATH_LENGTH
  /\ "f"%string <> ""%string
  /\ (encrypt Standin.with_password = true -> password Standin.with_password <> ""%string)
  /\ size (pipeline_output (prim := Standin.primitives) Standin.with_password
             (rand Standin.world) [x41]) < 2 ^ 63
  /\ keeps (prim := Standin.primitives) Standin.world "f"
  /\ (forall content,
         receives (prim := Standin.primitives) (write_file Standin.world "f" content) "out")
  /\ exists w' a',
      roundtrip (prim := Standin.primitives) "f" "a" "out" [x41] Standin.with_password
        (password Standin.with_password) Standin.world = Ret (true, w', a')
      /\ files (prim := Standin.primitives) w' "out"
         = Some (pipeline_output (prim := Standin.primitives) Standin.with_password
                   (rand Standin.world) [x41])
      /\ (compress Standin.with_password = false -> encrypt Standin.with_password = false ->
          files (prim := Standin.primitives) w' "out" = Some [x41]).
Proof.
  assert (H1 : [x41] <> []) by discriminate.
  assert (H2 : ssize "a" <= MAX_PATH_LENGTH) by (vm_compute; discriminate).
  assert (H3 : "f"%string <> ""%string) by discriminate.
  assert (H4 : encrypt Standin.with_password = true ->
               password Standin.with_password <> ""%string) by (intros _; discriminate).
  assert (H5 : size (pipeline_output (prim := Standin.primitives) Standin.with_password
                       (rand Standin.world) [x41]) < 2 ^ 63) by (vm_compute; reflexivity).
  assert (H6 : keeps (prim := Standin.primitives) Standin.world "f")
    by apply standin_keeps.
  assert (H7 : forall content,
             receives (prim := Standin.primitives)
               (write_file Standin.world "f" content) "out")
    by (intros content; apply standin_receives).
  repeat (split; [assumption|]).
  exact (@C1_extract_yields_the_stored_bytes Standin.primitives
           "f" "a" "out" [x41] Standin.with_password Standin.world H1 H2 H3 H4 H5 H6 H7).
Defined.

(** C1, the failing input: the file [a] holds the one byte [A] and is
    added with a password; what is extracted after [save] and [open]
    with that password is a block of sixteen bytes. *)
Lemma C1_encrypted_file_is_extracted_as_ciphertext :
  match roundtrip (prim := Standin.primitives) "f" "a" "out" [x41]
          Standin.with_password "pw" Standin.world with
  | Ret (ok, w, _) =>
      ok = true
      /\ option_map (@length byte) (files (prim := Standin.primitives) w "out")
         = Some 16%nat
      /\ files (prim := Standin.primitives) w "out" <> Some [x41]
  | _ => False
  end.
Proof.
  vm_compute. repeat split; discriminate.
Qed.

(** C2 at one file with a password. *)
Lemma C2_checksum_is_of_the_stored_bytes_witness :
  Archive_isOpen (created "f") = true
  /\ exists w' a' e',
      Archive_addVirtualFile (prim := Standin.primitives) "a" [x41] Standin.with_password
        Standin.world (created "f") = Ret (true, w', a')
      /\ m_entries a' = m_entries (created "f") ++ [e']
      /\ m_checksum e' = CryptoEngine_sha256 (prim := Standin.primitives) (m_data e')
      /\ m_originalSize e' = u64 (size (m_data e'))
      /\ (encrypt Standin.with_password = true ->
          password Standin.with_password <> ""%string ->
          compress Standin.with_password = false ->
          m_data e' = @EVP_encrypt Standin.primitives
                        (m_key (m_crypto a')) (m_iv (m_crypto a')) [x41]).
Proof.
  split; [reflexivity|].
  exact (@C2_checksum_is_of_the_stored_bytes Standin.primitives "a" [x41]
           Standin.with_password Standin.world (created "f") eq_refl).
Defined.

(** C2, the failing input: the entry of [a], content [A], added with
    a password, carries a checksum that is not the SHA-256 of [A] and an
    original size of 16, not 1. *)
Lemma C2_encrypted_entry_carries_the_checksum_of_its_ciphertext :
  match m_entries Standin.locked with
  | [e] =>
      m_checksum e <> CryptoEngine_sha256 (prim := Standin.primitives) [x41]
      /\ m_checksum e = CryptoEngine_sha256 (prim := Standin.primitives) (m_data e)
      /\ m_originalSize e = 16
  | _ => False
  end.
Proof.
  vm_compute. repeat split; discriminate.
Qed.

(** C3 at an archive whose one entry has an empty checksum. *)
Lemma C3_verify_compares_nothing_witness :
  GlobalHeader_isValid (m_header Standin.forged) = true
  /\ (GlobalHeader_isEncrypted (m_header Standin.forged) = false \/ ""%string <> ""%string)
  /\ exists w' a',
      Archive_verify (prim := Standin.primitives) "" Standin.world Standin.forged
      = Ret (true, w', a')
      /\ m_entries a' = m_entries Standin.forged
      /\ (forall e, In e (m_entries Standin.forged) -> length (m_checksum e) <> 32%nat ->
          spec_verify (prim := Standin.primitives) a' = false).
Proof.
  assert (H1 : GlobalHeader_isValid (m_header Standin.forged) = true) by reflexivity.
  assert (H2 : GlobalHeader_isEncrypted (m_header Standin.forged) = false
               \/ ""%string <> ""%string) by (left; reflexivity).
  split; [exact H1|]. split; [exact H2|].
  exact (@C3_verify_compares_nothing Standin.primitives "" Standin.world Standin.forged H1 H2).
Defined.

(** C3, the failing input: [verify] passes the archive, the
    verification of the specification does not. *)
Lemma C3_verify_passes_a_forged_checksum :
  match Archive_verify (prim := Standin.primitives) "" Standin.world Standin.forged with
  | Ret (ok, _, a) =>
      ok = true
      /\ spec_verify (prim := Standin.primitives) a = false
      /\ map m_checksum (m_entries a) = [[]]
  | _ => False
  end.
Proof.
  vm_compute. repeat split; reflexivity.
Qed.

(** C4 as stated fails: the archive [locked] was made with the password
    [pw]; saved and opened with the password [wrong], it opens, with an
    ENCRYPTED header and the stored bytes of its entry as they were. *)
Lemma C4_wrong_password_opens :
  match Standin.reopen_locked "wrong" with
  | Ret (ok, _, a) =>
      ok = true
      /\ GlobalHeader_isEncrypted (m_header a) = true
      /\ map m_data (m_entries a) = map m_data (m_entries Standin.locked)
      /\ password Standin.with_password <> "wrong"%string
  | _ => False
  end.
Proof.
  vm_compute. repeat split; discriminate.
Qed.

(** C4 at the archive [locked] and the password [wrong]. *)
Lemma C4_open_takes_any_password_witness :
  "f"%string <> ""%string
  /\ wf_header (m_header Standin.locked)
  /\ Forall wf_entry (m_entries Standin.locked)
  /\ m_entries Standin.locked <> []
  /\ size (m_entries Standin.locked) < 2 ^ 32
  /\ 64 + size (flat_map (entry_record (prim := Standin.primitives))
                         (m_entries Standin.locked)) < 2 ^ 64
  /\ GlobalHeader_isEncrypted (m_header Standin.locked) = true
  /\ keeps (prim := Standin.primitives) Standin.world "f"
  /\ exists w2 a2,
      Archive_save (prim := Standin.primitives) "f" Standin.world Standin.locked
      = Ret (true, w2, a2)
      /\ ("wrong"%string <> ""%string ->
          exists w3 a3,
            Archive_open (prim := Standin.primitives) "f" "wrong" w2 a2 = Ret (true, w3, a3)
            /\ GlobalHeader_isEncrypted (m_header a3) = true
            /\ map m_relativePath (m_entries a3) = map m_relativePath (m_entries Standin.locked)
            /\ map m_data (m_entries a3) = map m_data (m_entries Standin.locked))
      /\ ("wrong"%string = ""%string ->
          exists w3 a3,
            Archive_open (prim := Standin.primitives) "f" "wrong" w2 a2 = Ret (false, w3, a3)
            /\ m_errorMessage a3 = "Password required for encrypted archive"%string).
Proof.
  assert (H1 : "f"%string <> ""%string) by discriminate.
  assert (H2 : wf_header (m_header Standin.locked))
    by (vm_compute; repeat split; discriminate).
  assert (H3 : Forall wf_entry (m_entries Standin.locked))
    by (repeat constructor; vm_compute; repeat split; try reflexivity; discriminate).
  assert (H4 : m_entries Standin.locked <> []) by (vm_compute; discriminate).
  assert (H5 : size (m_entries Standin.locked) < 2 ^ 32) by (vm_compute; reflexivity).
  assert (H6 : 64 + size (flat_map (entry_record (prim := Standin.primitives))
                                   (m_entries Standin.locked)) < 2 ^ 64)
    by (vm_compute; reflexivity).
  assert (H7 : GlobalHeader_isEncrypted (m_header Standin.locked) = true) by reflexivity.
  assert (H8 : keeps (prim := Standin.primitives) Standin.world "f")
    by apply standin_keeps.
  repeat (split; [assumption|]).
  exact (@C4_open_takes_any_password Standin.primitives "f" "wrong" Standin.world
           Standin.locked H1 H2 H3 H4 H5 H6 H7 H8).
Defined.


(** C5 on the same session: the archive does open again, with one entry. *)
Lemma C5_session_reopens_with_one_entry :
  match Archive_open (prim := Standin.primitives) "f" ""
          (fst Standin.after_save) (snd Standin.after_save) with
  | Ret (ok, _, a) =>
      ok = true /\ fileCount (m_header a) = 1 /\ map m_relativePath (m_entries a) = ["b"%string]
  | _ => False
  end.
Proof.
  vm_compute. repeat split; reflexivity.
Qed.

(** C7 on an input that is not empty: the stand-in inflater gives one
    byte where five were expected, and the call reports success with
    that one byte. *)
Lemma C7_one_byte_where_five_were_expected :
  exists r,
    CompressionEngine_decompress (prim := Standin.primitives)
      (CompressionEngine_new CompressionLevel.DEFAULT) [x1f; x8b; x41] 5 = Some r
    /\ d_success r = true
    /\ decompressedData r = [x41]
    /\ d_originalSize r = 5
    /\ d_decompressedSize r = 1.
Proof.
  eexists. split; [reflexivity|]. repeat split.
Qed.

(** C7 at the empty input. *)
Lemma C7_decompress_ignores_expected_size_witness :
  exists r,
    CompressionEngine_decompress (prim := Standin.primitives)
      (CompressionEngine_new CompressionLevel.DEFAULT) [] 5 = Some r
    /\ d_success r = true /\ decompressedData r = [].
Proof.
  exact (proj1 (proj2 (@C7_decompress_ignores_expected_size Standin.primitives
                         (CompressionEngine_new CompressionLevel.DEFAULT) [] 5))
               eq_refl).
Defined.

(** C9 at the archive [locked] and a password it was not made with. *)
Lemma C9_unlock_accepts_any_password_witness :
  exists ok w' a',
    Archive_unlock (prim := Standin.primitives) "wrong" Standin.world Standin.locked
    = Ret (ok, w', a')
    /\ (ok = false <->
        (GlobalHeader_isEncrypted (m_header Standin.locked) = false
         \/ "wrong"%string = ""%string))
    /\ (ok = false ->
        m_header a' = m_header Standin.locked /\ m_entries a' = m_entries Standin.locked)
    /\ (ok = true ->
        GlobalHeader_isEncrypted (m_header a') = false
        /\ Forall (fun e => VarcEntry_isEncrypted e = false) (m_entries a')
        /\ map m_data (m_entries a') = map m_data (m_entries Standin.locked)
        /\ map m_relativePath (m_entries a') = map m_relativePath (m_entries Standin.locked)).
Proof.
  exact (@C9_unlock_accepts_any_password Standin.primitives "wrong" Standin.world
           Standin.locked).
Defined.

(** C9 on the same archive: the wrong password unlocks it. *)
Lemma C9_wrong_password_unlocks :
  match Archive_unlock (prim := Standin.primitives) "wrong" Standin.world Standin.locked with
  | Ret (ok, _, a) => ok = true /\ GlobalHeader_isEncrypted (m_header a) = false
  | _ => False
  end.
Proof.
  vm_compute. split; reflexivity.
Qed.

(** C10 at a request for encryption that comes without a password. *)
Lemma C10_processEntry_never_fails_witness :
  Archive_isOpen (created "f") = true
  /\ exists w' a' e',
      Archive_addVirtualFile (prim := Standin.primitives) "a" [x41] Standin.no_password
        Standin.world (created "f") = Ret (true, w', a')
      /\ m_entries a' = m_entries (created "f") ++ [e']
      /\ m_errorMessage a' = m_errorMessage (created "f")
      /\ (encrypt Standin.no_password = false \/ password Standin.no_password = ""%string ->
          VarcEntry_isEncrypted e' = false
          /\ (compress Standin.no_password = false
              \/ c_success (CompressionEngine_compress (prim := Standin.primitives)
                              (m_compression (created "f")) [x41]) = false ->
              m_data e' = [x41] /\ VarcEntry_isCompressed e' = false)).
Proof.
  split; [reflexivity|].
  exact (proj2 (@C10_processEntry_never_fails Standin.primitives
                  (VarcEntry_of_data (prim := Standin.primitives) "a" [x41] FILE)
                  Standin.no_password Standin.world (created "f"))
               "a"%string [x41] eq_refl).
Defined.

(** * Further properties *)

(** ** The codecs of Header.cpp *)

Section Codecs.
Context {prim : Primitives}.

Lemma peek_at (pre x rest : list byte) (off n : nat) :
  off = length pre -> n = length x -> peek (pre ++ x ++ rest) off n = x.
Proof.
  intros Ho Hn. rewrite peek_in by (rewrite !length_app; lia).
  apply slice_mid; assumption.
Qed.

(** The buffer of the goal, with its parts grouped as in [l]. *)
Ltac shape l :=
  match goal with
  | |- context [peek ?b _ _] =>
      replace b with l by (repeat rewrite <- app_assoc; reflexivity)
  end.

Lemma two_bytes_be (x : Z) :
  [to_u8 (Z.land (Z.shiftr x 8) 255); to_u8 (Z.land x 255)] = be_bytes 2 x.
Proof. reflexivity. Qed.

(** X1.  An entry header always goes out on 26 bytes, and what was
    written is what is read, but for the path length: it is a 32-bit
    field written on two bytes, so it comes back modulo 65536. *)
Theorem EntryHeader_written_is_read :
  forall h : EntryHeader,
    0 <= pathLength h < 2 ^ 32 ->
    0 <= h_originalSize h < 2 ^ 64 ->
    0 <= h_compressedSize h < 2 ^ 64 ->
    0 <= h_fileType h < 2 ^ 32 ->
    0 <= h_flags h < 2 ^ 32 ->
    length (EntryHeader_serialize h) = EntryHeader_fixedSize
    /\ EntryHeader_deserialize (EntryHeader_serialize h)
       = Some {| pathLength := pathLength h mod 65536;
                 h_originalSize := h_originalSize h;
                 h_compressedSize := h_compressedSize h;
                 h_fileType := h_fileType h;
                 h_flags := h_flags h |}.
Proof.
  intros h Hp Ho Hc Ht Hf. split; [reflexivity|].
  set (h' := {| pathLength := pathLength h mod 65536;
                h_originalSize := h_originalSize h;
                h_compressedSize := h_compressedSize h;
                h_fileType := h_fileType h;
                h_flags := h_flags h |}).
  assert (E : EntryHeader_serialize h = EntryHeader_serialize h').
  { unfold EntryHeader_serialize. subst h'.
    cbn [pathLength h_originalSize h_compressedSize h_fileType h_flags].
    rewrite !two_bytes_be.
    change 65536 with (256 ^ Z.of_nat 2). rewrite be_bytes_mod. reflexivity. }
  rewrite E. apply EntryHeader_roundtrip; subst h';
    cbn [pathLength h_originalSize h_compressedSize h_fileType h_flags]; try assumption.
  pose proof (Z.mod_pos_bound (pathLength h) 65536). pow64. lia.
Qed.

(** X2.  An entry header is refused exactly when fewer than 26 bytes
    are handed over; anything longer is decoded, and encoding the
    result gives the first 26 bytes back. *)
Theorem EntryHeader_read_is_written :
  forall data : list byte,
    (EntryHeader_deserialize data = None <-> size data < 26)
    /\ (26 <= size data ->
        exists h, EntryHeader_deserialize data = Some h
                  /\ EntryHeader_serialize h = firstn 26 data).
Proof.
  intros data. unfold EntryHeader_deserialize.
  change (Z.of_nat EntryHeader_fixedSize) with 26.
  destruct (Z.ltb_spec (size data) 26) as [Hs|Hs].
  - split; [tauto | lia].
  - split; [split; [discriminate | lia]|]. intros _.
    eexists. split; [reflexivity|].
    unfold EntryHeader_serialize.
    cbn [pathLength h_originalSize h_compressedSize h_fileType h_flags].
    unfold u32. rewrite two_bytes_value by lia.
    rewrite (@two_bytes_back _ (at_ data 0) (at_ data 1) eq_refl).
    rewrite !be_bytes_be_read by (rewrite ?peek_length; lia).
    assert (P : peek data 0 26 = firstn 26 data).
    { rewrite peek_in by (unfold size in Hs; lia). reflexivity. }
    rewrite <- P.
    change 26%nat with (2 + (8 + (8 + (4 + 4))))%nat.
    rewrite !peek_app. reflexivity.
Qed.

(** X3.  A header with the signature [VARC] whose fields fit their
    widths is read back, field by field, from the 68 bytes of its
    encoding, whatever follows them and whatever the header object
    held before. *)
Theorem GlobalHeader_written_is_read :
  forall (h0 h : GlobalHeader) (rest : list byte),
    signature h = VARC_SIGNATURE ->
    0 <= version h < 2 ^ 16 ->
    0 <= gflags h < 2 ^ 16 ->
    0 <= fileCount h < 2 ^ 32 ->
    length (salt h) = SALT_SIZE ->
    length (iv h) = IV_SIZE ->
    0 <= reserved h < 2 ^ 64 ->
    GlobalHeader_deserialize h0 (GlobalHeader_serialize h ++ rest) = (true, h).
Proof.
  intros h0 h rest Hs Hv Hf Hc Hsalt Hiv Hr.
  assert (E : be_read 32 (be_bytes 4 (fileCount h)) = fileCount h)
    by (apply be_read_be_bytes; [lia | rewrite pow256; exact Hc]).
  assert (E' : be_read 64 (be_bytes 8 (reserved h)) = reserved h)
    by (apply be_read_be_bytes; [lia | rewrite pow256; exact Hr]).
  destruct (@two_bytes_of_value (version h)) as (v1 & v2 & Ev & Evv); [pow64; lia|].
  destruct (@two_bytes_of_value (gflags h)) as (f1 & f2 & Ef & Eff); [pow64; lia|].
  unfold GlobalHeader_serialize. rewrite Hs, Ev, Ef.
  rewrite !padded_id by assumption.
  set (fc := be_bytes 4 (fileCount h)) in *.
  set (rs := be_bytes 8 (reserved h)) in *.
  assert (Lfc : length fc = 4%nat) by apply be_bytes_length.
  assert (Lrs : length rs = 8%nat) by apply be_bytes_length.
  match goal with
  | |- GlobalHeader_deserialize h0 ?l = _ => set (L := l)
  end.
  assert (S64 : (size L <? 64) = false).
  { apply Z.ltb_ge. unfold size. subst L.
    rewrite !length_app, Lfc, Lrs, Hsalt, Hiv.
    unfold SALT_SIZE, IV_SIZE, VARC_SIGNATURE. cbn [length]. lia. }
  assert (P0 : peek L 0 4 = VARC_SIGNATURE) by reflexivity.
  assert (A4 : at_ L 4 = v1) by reflexivity.
  assert (A5 : at_ L 5 = v2) by reflexivity.
  assert (A6 : at_ L 6 = f1) by reflexivity.
  assert (A7 : at_ L 7 = f2) by reflexivity.
  assert (P8 : peek L 8 4 = fc).
  { subst L.
    shape ((VARC_SIGNATURE ++ [v1; v2] ++ [f1; f2]) ++ fc ++ (salt h ++ iv h ++ rs ++ rest)).
    apply peek_at; [reflexivity | lia]. }
  assert (P12 : peek L 12 SALT_SIZE = salt h).
  { subst L.
    shape ((VARC_SIGNATURE ++ [v1; v2] ++ [f1; f2] ++ fc) ++ salt h ++ (iv h ++ rs ++ rest)).
    apply peek_at; [rewrite !length_app, Lfc; reflexivity | lia]. }
  assert (P44 : peek L 44 IV_SIZE = iv h).
  { subst L.
    shape ((VARC_SIGNATURE ++ [v1; v2] ++ [f1; f2] ++ fc ++ salt h) ++ iv h ++ (rs ++ rest)).
    apply peek_at; [rewrite !length_app, Lfc, Hsalt; reflexivity | lia]. }
  assert (P60 : peek L 60 8 = rs).
  { subst L.
    shape ((VARC_SIGNATURE ++ [v1; v2] ++ [f1; f2] ++ fc ++ salt h ++ iv h) ++ rs ++ rest).
    apply peek_at; [rewrite !length_app, Lfc, Hsalt, Hiv; reflexivity | lia]. }
  unfold GlobalHeader_deserialize. rewrite S64, P0, A4, A5, A6, A7, P8, P12, P44, P60.
  change (bytes_eqb VARC_SIGNATURE VARC_SIGNATURE) with true. cbn [negb].
  subst fc rs. rewrite E, E'. unfold u16.
  rewrite !two_bytes_value by lia. rewrite Evv, Eff.
  destruct h as [sg ve fl fcn sa ivv re].
  cbn [signature version gflags fileCount salt iv reserved] in *.
  congruence.
Qed.

End Codecs.

(** ** The detection of file types *)

Section Detection.
Context {prim : Primitives}.

Ltac split_ifs :=
  repeat match goal with
         | |- context [if ?c then _ else _] => destruct c
         end.

Lemma FileType_detect_cases (data : list byte) :
  (size data < 4 /\ FileType_detect data = FileType.UNKNOWN)
  \/ (4 <= size data /\ 1 <= FileType_detect data <= 7).
Proof.
  unfold FileType_detect.
  destruct (Z.ltb_spec (size data) 4) as [H|H]; [left; auto|right].
  split; [exact H|].
  split_ifs;
    unfold FileType.TEXT, FileType.BINARY, FileType.IMAGE,
      FileType.AUDIO, FileType.VIDEO, FileType.DOCUMENT, FileType.ARCHIVE; lia.
Qed.

(** X4.  [FileType::detect] answers UNKNOWN for the buffers of fewer
    than four bytes and for no other: from four bytes on the answer is
    one of the seven named types, so a file entry built from such
    content never shows the type "Unknown". *)
Theorem FileType_detect_unknown_iff_short :
  forall (data : list byte) (path : string),
    (FileType_detect data = FileType.UNKNOWN <-> size data < 4)
    /\ (4 <= size data ->
        FileType.TEXT <= FileType_detect data <= FileType.ARCHIVE
        /\ VarcEntry_getTypeString (VarcEntry_of_data path data FILE) <> "Unknown"%string).
Proof.
  intros data path.
  destruct (FileType_detect_cases data) as [(Hs & E)|(Hs & R)].
  - split; [split; auto|]. lia.
  - unfold FileType.UNKNOWN, FileType.TEXT, FileType.ARCHIVE. split.
    + split; lia.
    + intros _. split; [exact R|].
      unfold VarcEntry_getTypeString, VarcEntry_of_data. cbn [m_fileType].
      destruct data as [|b data]; [unfold size in Hs; simpl in Hs; lia|].
      cbn [empty negb is_FILE andb].
      unfold FileType.TEXT, FileType.BINARY, FileType.IMAGE,
        FileType.AUDIO, FileType.VIDEO, FileType.DOCUMENT, FileType.ARCHIVE.
      repeat match goal with
             | |- context [?x =? ?n] =>
                 destruct (Z.eqb_spec x n); [discriminate|]
             end.
      lia.
Qed.

Lemma memcmp0_head (b : byte) (rest : list byte) (m : byte) (ms : list byte) :
  b <> m -> memcmp0 (b :: rest) 0 (m :: ms) = false.
Proof.
  intros H. unfold memcmp0. cbn [length]. rewrite peek_S.
  unfold at_. cbn [nth].
  unfold bytes_eqb. destruct (list_eq_dec _ _ _) as [E|E]; [|reflexivity].
  injection E as E _. contradiction.
Qed.

Lemma filter_all (A : Type) (f : A -> bool) (l : list A) :
  Forall (fun x => f x = true) l -> filter f l = l.
Proof.
  induction 1 as [|x l Hx _ IH]; [reflexivity|].
  cbn [filter]. rewrite Hx, IH. reflexivity.
Qed.

Lemma Forall_firstn (A : Type) (P : A -> Prop) (n : nat) (l : list A) :
  Forall P l -> Forall P (firstn n l).
Proof.
  intros H. revert n. induction H as [|x l Hx _ IH]; intros [|n]; cbn [firstn]; auto.
Qed.

(** X5.  Content of at least four bytes, all of them printable ASCII,
    tab, line feed or carriage return, is detected as TEXT, unless its
    first byte is the first byte of one of the magic numbers. *)
Theorem FileType_detect_text :
  forall (b : byte) (rest : list byte),
    3 <= size rest ->
    Forall (fun x => printable x = true) (b :: rest) ->
    ~ In b magic_initials ->
    FileType_detect (b :: rest) = FileType.TEXT.
Proof.
  intros b rest Hs Hp Hn.
  assert (Hb : printable b = true) by (inversion Hp; assumption).
  assert (N : forall m ms, printable m = false \/ In m magic_initials ->
                           memcmp0 (b :: rest) 0 (m :: ms) = false).
  { intros m ms [H|H]; apply memcmp0_head; intros ->; [congruence | contradiction]. }
  assert (S4 : (size (b :: rest) <? 4) = false).
  { apply Z.ltb_ge. unfold size in *. cbn [length]. lia. }
  assert (F : (u8 (at_ (b :: rest) 0) =? 255) = false).
  { unfold at_. cbn [nth]. apply Z.eqb_neq. intros E.
    unfold printable in Hb. rewrite E in Hb. discriminate. }
  unfold FileType_detect. rewrite S4.
  repeat match goal with
         | |- context [bytes_of ?s] =>
             let t := eval vm_compute in (bytes_of s) in
             change (bytes_of s) with t
         end.
  rewrite !N by (first [left; reflexivity | right; unfold magic_initials; simpl; tauto]).
  rewrite F. cbn [andb orb].
  assert (C : Z.min (size (b :: rest)) 256 > 0).
  { unfold size in *. cbn [length]. lia. }
  cbv zeta.
  rewrite filter_all by (apply Forall_firstn; exact Hp).
  unfold size at 2. rewrite firstn_length_le.
  - rewrite Z2Nat.id by lia.
    destruct (Z.ltb_spec (9 * Z.min (size (b :: rest)) 256)
                         (10 * Z.min (size (b :: rest)) 256)); [reflexivity | lia].
  - unfold size. lia.
Qed.

End Detection.

(** ** The metadata codec *)

Section Metadata.
Context {prim : Primitives}.

Lemma peek64_peek (data : list byte) (offset : Z) (n : nat) :
  0 <= offset -> offset + Z.of_nat n <= 2 ^ 64 ->
  peek64 data offset n = peek data (Z.to_nat offset) n.
Proof.
  intros H0 H1. unfold peek64, peek. apply map_ext_in. intros i Hi.
  apply in_seq in Hi. rewrite u64_small by lia. f_equal. lia.
Qed.

Lemma peek64_at (pre x rest : list byte) (offset : Z) (n : nat) :
  offset = size pre -> n = length x -> size pre + size x <= 2 ^ 64 ->
  peek64 (pre ++ x ++ rest) offset n = x.
Proof.
  intros -> -> H. unfold size in *.
  rewrite peek64_peek by lia. apply peek_at; lia.
Qed.

Lemma string_at_mid (pre rest : list byte) (s : string) (offset n : Z) :
  offset = size pre -> n = ssize s ->
  string_at (pre ++ bytes_of s ++ rest) offset n = s.
Proof.
  intros -> ->. unfold string_at, size, ssize.
  rewrite peek_at by (rewrite ?bytes_of_length; lia).
  apply string_of_list_byte_of_string.
Qed.

Lemma be_read_16 (x : Z) : 0 <= x < 2 ^ 16 -> be_read 16 (be_bytes 2 (u16 x)) = x.
Proof.
  intros H. unfold u16, wrap. rewrite Z.mod_small by exact H.
  apply be_read_be_bytes; [lia | rewrite pow256; exact H].
Qed.

Lemma be_read_32 (x : Z) : 0 <= x < 2 ^ 32 -> be_read 32 (be_bytes 4 (u32 x)) = x.
Proof.
  intros H. unfold u32, wrap. rewrite Z.mod_small by exact H.
  apply be_read_be_bytes; [lia | rewrite pow256; exact H].
Qed.

Lemma ssize_nonneg (s : string) : 0 <= ssize s.
Proof. unfold ssize. lia. Qed.

Lemma size_bytes_of (s : string) : size (bytes_of s) = ssize s.
Proof. unfold size, ssize. rewrite bytes_of_length. reflexivity. Qed.

Lemma size_be_bytes (k : nat) (x : Z) : size (be_bytes k x) = Z.of_nat k.
Proof. unfold size. rewrite be_bytes_length. reflexivity. Qed.

Lemma tag_record_size (tag : string * string) :
  size (tag_record tag) = 2 + ssize (fst tag) + 2 + ssize (snd tag).
Proof.
  unfold tag_record. rewrite !size_app, !size_be_bytes, !size_bytes_of. lia.
Qed.

Lemma readTags_step (n : nat) (pre rest : list byte) (tag : string * string)
    (m : ArchiveMetadata) :
  short_tag tag ->
  size pre + size (tag_record tag) < 2 ^ 64 ->
  readTags (S n) (pre ++ tag_record tag ++ rest) (size pre) m
  = readTags n ((pre ++ tag_record tag) ++ rest) (size (pre ++ tag_record tag))
             (with_tag m (fst tag) (snd tag)).
Proof.
  intros (Hk & Hv) Hsz.
  rewrite size_app, tag_record_size in *.
  rewrite <- (app_assoc pre).
  destruct tag as [k v]. cbn [fst snd] in *.
  pose proof (ssize_nonneg k). pose proof (ssize_nonneg v).
  pose proof (size_nonneg pre). pose proof (size_nonneg rest).
  unfold tag_record. cbn [fst snd]. rewrite <- !app_assoc.
  set (K := be_bytes 2 (u16 (ssize k))).
  set (V := be_bytes 2 (u16 (ssize v))).
  set (D := pre ++ K ++ bytes_of k ++ V ++ bytes_of v ++ rest).
  assert (LK : size K = 2) by apply size_be_bytes.
  assert (LV : size V = 2) by apply size_be_bytes.
  assert (SD : size D = size pre + 2 + ssize k + 2 + ssize v + size rest).
  { unfold D. rewrite !size_app, LK, LV, !size_bytes_of. lia. }
  assert (F1 : peek64 D (size pre) 2 = K).
  { unfold D. apply peek64_at; [reflexivity | reflexivity | lia]. }
  assert (F2 : string_at D (size pre + 2) (ssize k) = k).
  { unfold D.
    replace (pre ++ K ++ bytes_of k ++ V ++ bytes_of v ++ rest)
      with ((pre ++ K) ++ bytes_of k ++ (V ++ bytes_of v ++ rest))
      by (repeat rewrite <- app_assoc; reflexivity).
    apply string_at_mid; [rewrite size_app; lia | reflexivity]. }
  assert (F3 : peek64 D (size pre + 2 + ssize k) 2 = V).
  { unfold D.
    replace (pre ++ K ++ bytes_of k ++ V ++ bytes_of v ++ rest)
      with ((pre ++ K ++ bytes_of k) ++ V ++ (bytes_of v ++ rest))
      by (repeat rewrite <- app_assoc; reflexivity).
    apply peek64_at; [rewrite !size_app, size_bytes_of; lia | reflexivity
                     | rewrite !size_app, size_bytes_of; lia]. }
  assert (F4 : string_at D (size pre + 2 + ssize k + 2) (ssize v) = v).
  { unfold D.
    replace (pre ++ K ++ bytes_of k ++ V ++ bytes_of v ++ rest)
      with ((pre ++ K ++ bytes_of k ++ V) ++ bytes_of v ++ rest)
      by (repeat rewrite <- app_assoc; reflexivity).
    apply string_at_mid; [rewrite !size_app, size_bytes_of; lia | reflexivity]. }
  assert (BK : be_read 16 K = ssize k) by (apply be_read_16; lia).
  assert (BV : be_read 16 V = ssize v) by (apply be_read_16; lia).
  cbn [readTags]. cbv zeta.
  rewrite (u64_small (z := size pre + 2)) by lia.
  rewrite F1, BK.
  rewrite (u64_small (z := size pre + 2 + ssize k)) by lia.
  rewrite (u64_small (z := size pre + 2 + ssize k + 2)) by lia.
  rewrite F3, BV.
  rewrite (u64_small (z := size pre + 2 + ssize k + 2 + ssize v)) by lia.
  rewrite F2, F4, SD.
  destruct (Z.ltb_spec (size pre + 2 + ssize k + 2 + ssize v + size rest)
                       (size pre + 2)); [lia|].
  destruct (Z.ltb_spec (size pre + 2 + ssize k + 2 + ssize v + size rest)
                       (size pre + 2 + ssize k)); [lia|].
  destruct (Z.ltb_spec (size pre + 2 + ssize k + 2 + ssize v + size rest)
                       (size pre + 2 + ssize k + 2)); [lia|].
  destruct (Z.ltb_spec (size pre + 2 + ssize k + 2 + ssize v + size rest)
                       (size pre + 2 + ssize k + 2 + ssize v)); [lia|].
  f_equal. lia.
Qed.

Lemma with_tags (m : ArchiveMetadata) (k v : string) (tags : list (string * string)) :
  customTags (with_tag m k v) ++ tags = customTags m ++ (k, v) :: tags.
Proof. cbn [with_tag customTags]. rewrite <- app_assoc. reflexivity. Qed.

Lemma readTags_records (tags : list (string * string)) :
  forall (pre rest : list byte) (m : ArchiveMetadata),
    Forall short_tag tags ->
    size pre + size (flat_map tag_record tags) < 2 ^ 64 ->
    readTags (length tags) (pre ++ flat_map tag_record tags ++ rest) (size pre) m
    = (size pre + size (flat_map tag_record tags),
       {| creationTime := creationTime m; modificationTime := modificationTime m;
          creator := creator m; description := description m;
          customTags := customTags m ++ tags |}).
Proof.
  induction tags as [|tag tags IH]; intros pre rest m Hs Hsz.
  - cbn. rewrite app_nil_r, Z.add_0_r. destruct m; reflexivity.
  - inversion Hs as [|? ? Ht Hts]; subst.
    cbn [flat_map length] in *. rewrite size_app in Hsz.
    pose proof (size_nonneg (flat_map tag_record tags)).
    rewrite <- app_assoc.
    rewrite readTags_step by (auto; lia).
    rewrite (IH (pre ++ tag_record tag) rest) by (auto; rewrite size_app; lia).
    rewrite !size_app. destruct tag as [k v]. cbn [fst snd].
    rewrite with_tags. f_equal. lia.
Qed.

(** X6.  Metadata whose strings and tag list fit their length fields
    are read back from their encoding, at any offset of a buffer: the
    answer is the offset behind the last byte that was written, times,
    creator and description are those that were written, and the tags
    that were written are added behind those the object already had. *)
Theorem ArchiveMetadata_written_is_read :
  forall (m0 m : ArchiveMetadata) (pre rest : list byte),
    0 <= creationTime m < 2 ^ 64 ->
    0 <= modificationTime m < 2 ^ 64 ->
    ssize (creator m) < 2 ^ 32 ->
    ssize (description m) < 2 ^ 32 ->
    size (customTags m) < 2 ^ 16 ->
    Forall short_tag (customTags m) ->
    size pre + size (ArchiveMetadata_serialize m) < 2 ^ 64 ->
    ArchiveMetadata_deserialize m0 (pre ++ ArchiveMetadata_serialize m ++ rest) (size pre)
    = (size pre + size (ArchiveMetadata_serialize m),
       {| creationTime := creationTime m;
          modificationTime := modificationTime m;
          creator := creator m;
          description := description m;
          customTags := customTags m0 ++ customTags m |}).
Proof.
  intros m0 m pre rest Hc Ht Hcr Hds Hn Htags Hsz.
  destruct m as [ct mt cr ds tags].
  cbn [creationTime modificationTime creator description customTags] in *.
  unfold ArchiveMetadata_serialize in *.
  cbn [creationTime modificationTime creator description customTags] in *.
  pose proof (ssize_nonneg cr). pose proof (ssize_nonneg ds).
  pose proof (size_nonneg pre). pose proof (size_nonneg rest).
  pose proof (size_nonneg tags).
  pose proof (size_nonneg (flat_map tag_record tags)).
  set (C := be_bytes 8 ct) in *.
  set (T := be_bytes 8 mt) in *.
  set (CL := be_bytes 4 (u32 (ssize cr))) in *.
  set (DL := be_bytes 4 (u32 (ssize ds))) in *.
  set (N := be_bytes 2 (u16 (size tags))) in *.
  set (R := flat_map tag_record tags) in *.
  assert (LC : size C = 8) by apply size_be_bytes.
  assert (LT : size T = 8) by apply size_be_bytes.
  assert (LCL : size CL = 4) by apply size_be_bytes.
  assert (LDL : size DL = 4) by apply size_be_bytes.
  assert (LN : size N = 2) by apply size_be_bytes.
  rewrite !size_app, LC, LT, LCL, LDL, LN, !size_bytes_of in *.
  rewrite <- !app_assoc.
  set (D := pre ++ C ++ T ++ CL ++ bytes_of cr ++ DL ++ bytes_of ds ++ N ++ R ++ rest).
  assert (SD : size D = size pre + 8 + 8 + 4 + ssize cr + 4 + ssize ds + 2
                        + size R + size rest).
  { unfold D. rewrite !size_app, LC, LT, LCL, LDL, LN, !size_bytes_of. lia. }
  assert (F1 : peek64 D (size pre) 8 = C).
  { unfold D. apply peek64_at; [reflexivity | reflexivity | lia]. }
  assert (F2 : peek64 D (size pre + 8) 8 = T).
  { unfold D.
    replace (pre ++ C ++ T ++ CL ++ bytes_of cr ++ DL ++ bytes_of ds ++ N ++ R ++ rest)
      with ((pre ++ C) ++ T ++ (CL ++ bytes_of cr ++ DL ++ bytes_of ds ++ N ++ R ++ rest))
      by (repeat rewrite <- app_assoc; reflexivity).
    apply peek64_at; rewrite ?size_app; try reflexivity; lia. }
  assert (F3 : peek64 D (size pre + 8 + 8) 4 = CL).
  { unfold D.
    replace (pre ++ C ++ T ++ CL ++ bytes_of cr ++ DL ++ bytes_of ds ++ N ++ R ++ rest)
      with ((pre ++ C ++ T) ++ CL ++ (bytes_of cr ++ DL ++ bytes_of ds ++ N ++ R ++ rest))
      by (repeat rewrite <- app_assoc; reflexivity).
    apply peek64_at; rewrite ?size_app; try reflexivity; lia. }
  assert (F4 : string_at D (size pre + 8 + 8 + 4) (ssize cr) = cr).
  { unfold D.
    replace (pre ++ C ++ T ++ CL ++ bytes_of cr ++ DL ++ bytes_of ds ++ N ++ R ++ rest)
      with ((pre ++ C ++ T ++ CL) ++ bytes_of cr ++ (DL ++ bytes_of ds ++ N ++ R ++ rest))
      by (repeat rewrite <- app_assoc; reflexivity).
    apply string_at_mid; rewrite ?size_app; try reflexivity; lia. }
  assert (F5 : peek64 D (size pre + 8 + 8 + 4 + ssize cr) 4 = DL).
  { unfold D.
    replace (pre ++ C ++ T ++ CL ++ bytes_of cr ++ DL ++ bytes_of ds ++ N ++ R ++ rest)
      with ((pre ++ C ++ T ++ CL ++ bytes_of cr) ++ DL ++ (bytes_of ds ++ N ++ R ++ rest))
      by (repeat rewrite <- app_assoc; reflexivity).
    apply peek64_at; rewrite ?size_app, ?size_bytes_of; try reflexivity; lia. }
  assert (F6 : string_at D (size pre + 8 + 8 + 4 + ssize cr + 4) (ssize ds) = ds).
  { unfold D.
    replace (pre ++ C ++ T ++ CL ++ bytes_of cr ++ DL ++ bytes_of ds ++ N ++ R ++ rest)
      with ((pre ++ C ++ T ++ CL ++ bytes_of cr ++ DL) ++ bytes_of ds ++ (N ++ R ++ rest))
      by (repeat rewrite <- app_assoc; reflexivity).
    apply string_at_mid; rewrite ?size_app, ?size_bytes_of; try reflexivity; lia. }
  assert (F7 : peek64 D (size pre + 8 + 8 + 4 + ssize cr + 4 + ssize ds) 2 = N).
  { unfold D.
    replace (pre ++ C ++ T ++ CL ++ bytes_of cr ++ DL ++ bytes_of ds ++ N ++ R ++ rest)
      with ((pre ++ C ++ T ++ CL ++ bytes_of cr ++ DL ++ bytes_of ds) ++ N ++ (R ++ rest))
      by (repeat rewrite <- app_assoc; reflexivity).
    apply peek64_at; rewrite ?size_app, ?size_bytes_of; try reflexivity; lia. }
  assert (F8 : forall m1,
             readTags (length tags) D
               (size pre + 8 + 8 + 4 + ssize cr + 4 + ssize ds + 2) m1
             = (size pre + 8 + 8 + 4 + ssize cr + 4 + ssize ds + 2 + size R,
                {| creationTime := creationTime m1;
                   modificationTime := modificationTime m1;
                   creator := creator m1; description := description m1;
                   customTags := customTags m1 ++ tags |})).
  { intros m1. unfold D.
    replace (pre ++ C ++ T ++ CL ++ bytes_of cr ++ DL ++ bytes_of ds ++ N ++ R ++ rest)
      with ((pre ++ C ++ T ++ CL ++ bytes_of cr ++ DL ++ bytes_of ds ++ N) ++ R ++ rest)
      by (repeat rewrite <- app_assoc; reflexivity).
    assert (SP : size (pre ++ C ++ T ++ CL ++ bytes_of cr ++ DL ++ bytes_of ds ++ N)
                 = size pre + 8 + 8 + 4 + ssize cr + 4 + ssize ds + 2).
    { rewrite !size_app, LC, LT, LCL, LDL, LN, !size_bytes_of. lia. }
    rewrite <- SP. unfold R. apply readTags_records; [exact Htags|].
    rewrite SP. fold R. lia. }
  assert (BC : be_read 64 C = ct)
    by (apply be_read_be_bytes; [lia | rewrite pow256; assumption]).
  assert (BT : be_read 64 T = mt)
    by (apply be_read_be_bytes; [lia | rewrite pow256; assumption]).
  assert (BCL : be_read 32 CL = ssize cr) by (apply be_read_32; lia).
  assert (BDL : be_read 32 DL = ssize ds) by (apply be_read_32; lia).
  assert (BN : be_read 16 N = size tags) by (apply be_read_16; lia).
  unfold ArchiveMetadata_deserialize. cbv zeta.
  rewrite (u64_small (z := size pre + 16)) by lia.
  rewrite (u64_small (z := size pre + 8)) by lia.
  rewrite (u64_small (z := size pre + 8 + 8)) by lia.
  rewrite (u64_small (z := size pre + 8 + 8 + 4)) by lia.
  rewrite F1, F2, F3, BC, BT, BCL.
  rewrite (u64_small (z := size pre + 8 + 8 + 4 + ssize cr)) by lia.
  rewrite (u64_small (z := size pre + 8 + 8 + 4 + ssize cr + 4)) by lia.
  rewrite F5, BDL.
  rewrite (u64_small (z := size pre + 8 + 8 + 4 + ssize cr + 4 + ssize ds)) by lia.
  rewrite (u64_small (z := size pre + 8 + 8 + 4 + ssize cr + 4 + ssize ds + 2)) by lia.
  rewrite F7, BN, F4, F6, SD.
  destruct (Z.ltb_spec (size pre + 8 + 8 + 4 + ssize cr + 4 + ssize ds + 2
                        + size R + size rest) (size pre + 16)); [lia|].
  destruct (Z.ltb_spec (size pre + 8 + 8 + 4 + ssize cr + 4 + ssize ds + 2
                        + size R + size rest) (size pre + 8 + 8 + 4 + ssize cr)); [lia|].
  destruct (Z.ltb_spec (size pre + 8 + 8 + 4 + ssize cr + 4 + ssize ds + 2
                        + size R + size rest)
                       (size pre + 8 + 8 + 4 + ssize cr + 4 + ssize ds)); [lia|].
  unfold size at 1. rewrite Nat2Z.id. rewrite F8.
  cbn [with_description with_creator with_times creationTime modificationTime
       creator description customTags].
  f_equal. lia.
Qed.

End Metadata.

(** ** Entries *)

Section Entries.
Context {prim : Primitives}.

Lemma verifyChecksum_iff (data c : list byte) :
  CryptoEngine_verifyChecksum data c = true <-> c = CryptoEngine_sha256 data.
Proof.
  unfold CryptoEngine_verifyChecksum. change (Z.of_nat HASH_SIZE) with 32.
  destruct (Z.eqb_spec (size c) 32) as [E|E]; cbn [negb].
  - rewrite bytes_eqb_eq. split; congruence.
  - split; [discriminate|]. intros ->. unfold size in E.
    rewrite sha256_length in E. lia.
Qed.

(** X7.  A stored checksum verifies against some content exactly when
    it is the SHA-256 of that content; one that is not 32 bytes long
    verifies against nothing.  The checksum of an entry that was built
    from content, or was given content by [setData], verifies against
    the content the entry holds. *)
Theorem VarcEntry_checksum_verifies :
  forall (path : string) (data c : list byte) (type : EntryType) (e : VarcEntry),
    (CryptoEngine_verifyChecksum data c = true <-> c = CryptoEngine_sha256 data)
    /\ (length c <> 32%nat -> CryptoEngine_verifyChecksum data c = false)
    /\ CryptoEngine_verifyChecksum (m_data (VarcEntry_of_data path data type))
                                   (m_checksum (VarcEntry_of_data path data type)) = true
    /\ CryptoEngine_verifyChecksum (m_data (VarcEntry_setData e data))
                                   (m_checksum (VarcEntry_setData e data)) = true.
Proof.
  intros path data c type e. split; [apply verifyChecksum_iff|]. split.
  - intros H. destruct (CryptoEngine_verifyChecksum data c) eqn:E; [|reflexivity].
    apply verifyChecksum_iff in E. subst c. rewrite sha256_length in H. congruence.
  - split; apply verifyChecksum_iff; reflexivity.
Qed.

Lemma getTotalSize_record (e : VarcEntry) :
  wf_entry e -> size (entry_record e) < 2 ^ 64 ->
  VarcEntry_getTotalSize e = size (entry_record e).
Proof.
  intros Hwf Hsz. rewrite (entry_record_size Hwf) in *.
  destruct Hwf as (Hp & _ & Hc & _). unfold MAX_PATH_LENGTH, ssize in *.
  pose proof (size_nonneg (m_data e)).
  unfold VarcEntry_getTotalSize.
  change (Z.of_nat EntryHeader_fixedSize) with 26.
  change (Z.of_nat CHECKSUM_SIZE) with 32.
  unfold u32, wrap. rewrite (Z.mod_small (Z.of_nat _)) by (pow64; lia).
  rewrite Hc. apply u64_small. lia.
Qed.

Lemma total_records (es : list VarcEntry) :
  Forall wf_entry es -> size (flat_map entry_record es) < 2 ^ 64 ->
  total (map VarcEntry_getTotalSize es) = size (flat_map entry_record es).
Proof.
  induction 1 as [|e es He _ IH]; intros Hsz; [reflexivity|].
  cbn [map flat_map total fold_right] in *. rewrite size_app in *.
  pose proof (size_nonneg (flat_map entry_record es)).
  pose proof (size_nonneg (entry_record e)).
  fold (total (map VarcEntry_getTotalSize es)).
  rewrite IH, getTotalSize_record by (auto; lia). reflexivity.
Qed.

(** X8.  [getTotalSize] is the number of bytes an entry takes in the
    file: an archive whose entries fit the format and have a checksum
    of 32 bytes is saved, on a disk that keeps the file, as a file of 64
    bytes plus the total sizes of its entries. *)
Theorem getTotalSize_is_the_size_on_disk :
  forall (f : string) (w : World) (a : Archive),
    f <> ""%string ->
    Forall wf_entry (m_entries a) ->
    64 + size (flat_map entry_record (m_entries a)) < 2 ^ 64 ->
    keeps w f ->
    exists w' a' content,
      Archive_save f w a = Ret (true, w', a')
      /\ files w' f = Some content
      /\ size content = 64 + total (map VarcEntry_getTotalSize (m_entries a)).
Proof.
  intros f w a Hf Hwf Hsz (Hopens & Hread).
  exists (write_file w f (archive_bytes a)), (saved a f), (archive_bytes a).
  split; [apply save_wf; assumption|]. split.
  - apply Hread.
  - unfold archive_bytes. rewrite size_app, header_on_disk_size.
    rewrite total_records by (auto; lia). reflexivity.
Qed.

Lemma land_bit (f k : Z) :
  0 <= k -> (Z.land f (2 ^ k) =? 0) = negb (Z.testbit f k).
Proof.
  intros Hk. destruct (Z.testbit f k) eqn:B; cbn [negb].
  - apply Z.eqb_neq. intros E.
    apply (f_equal (fun z => Z.testbit z k)) in E.
    rewrite Z.land_spec, Z.bits_0, Z.pow2_bits_true, B in E by lia. discriminate.
  - apply Z.eqb_eq. apply Z.bits_inj'. intros n Hn.
    rewrite Z.land_spec, Z.bits_0, Z.pow2_bits_eqb by lia.
    destruct (Z.eqb_spec k n) as [<-|]; [rewrite B; reflexivity | apply andb_false_r].
Qed.

Lemma setType_keeps_bit (e : VarcEntry) (t : EntryType) (k : Z) :
  0 <= k < 32 -> Z.testbit (m_flags e) k = true ->
  Z.testbit (m_flags (VarcEntry_setType e t)) k = true.
Proof.
  intros Hk B. unfold VarcEntry_setType. cbn [m_flags].
  destruct t; [exact B| |]; unfold u32, wrap;
    rewrite Z.mod_pow2_bits_low, Z.lor_spec, B by lia; reflexivity.
Qed.

Lemma setTypes_keep_bit (ts : list EntryType) (k : Z) :
  0 <= k < 32 ->
  forall e, Z.testbit (m_flags e) k = true ->
            Z.testbit (m_flags (fold_left VarcEntry_setType ts e)) k = true.
Proof.
  intros Hk. induction ts as [|t ts IH]; intros e B; [exact B|].
  cbn [fold_left]. apply IH. apply setType_keeps_bit; assumption.
Qed.

(** X9.  [setType] adds the flag of the new type and takes none away:
    once an entry was made a directory (or a link), it answers
    [isDirectory] (or [isSymlink]) after every later [setType], also
    after [setType(FILE)]. *)
Theorem setType_never_clears_a_flag :
  forall (e : VarcEntry) (ts : list EntryType),
    VarcEntry_isDirectory (VarcEntry_setType e DIRECTORY) = true
    /\ VarcEntry_isSymlink (VarcEntry_setType e SYMLINK) = true
    /\ VarcEntry_isDirectory
         (fold_left VarcEntry_setType ts (VarcEntry_setType e DIRECTORY)) = true
    /\ VarcEntry_isSymlink
         (fold_left VarcEntry_setType ts (VarcEntry_setType e SYMLINK)) = true.
Proof.
  intros e ts.
  assert (D : Z.testbit (m_flags (VarcEntry_setType e DIRECTORY)) 2 = true).
  { unfold VarcEntry_setType. cbn [m_flags]. unfold u32, wrap.
    rewrite Z.mod_pow2_bits_low, Z.lor_spec by lia.
    apply orb_true_r. }
  assert (S : Z.testbit (m_flags (VarcEntry_setType e SYMLINK)) 3 = true).
  { unfold VarcEntry_setType. cbn [m_flags]. unfold u32, wrap.
    rewrite Z.mod_pow2_bits_low, Z.lor_spec by lia.
    apply orb_true_r. }
  unfold VarcEntry_isDirectory, VarcEntry_isSymlink,
    EntryFlags.DIRECTORY, EntryFlags.SYMLINK.
  change 4 with (2 ^ 2). change 8 with (2 ^ 3).
  rewrite !land_bit by lia.
  rewrite !setTypes_keep_bit by (try lia; assumption).
  rewrite D, S. cbn [negb]. rewrite !orb_true_r. auto.
Qed.

End Entries.

(** ** The engines *)

Section Engines.
Context {prim : Primitives}.

Lemma hex_value_digit (d : Z) : 0 <= d < 16 -> hex_value (hex_digit d) = Some d.
Proof.
  intros H.
  assert (C : d = 0 \/ d = 1 \/ d = 2 \/ d = 3 \/ d = 4 \/ d = 5 \/ d = 6 \/ d = 7
              \/ d = 8 \/ d = 9 \/ d = 10 \/ d = 11 \/ d = 12 \/ d = 13 \/ d = 14
              \/ d = 15) by lia.
  repeat (destruct C as [->|C]; [reflexivity|]). subst d. reflexivity.
Qed.

Lemma setw_hex (n : Z) :
  0 <= n < 256 ->
  setw 2 "0" (hex_of_int n)
  = String (hex_digit (n / 16)) (String (hex_digit (n mod 16)) "").
Proof.
  intros H. unfold hex_of_int.
  destruct (Z.ltb_spec n 16) as [L|L].
  - rewrite Z.div_small, Z.mod_small by lia. reflexivity.
  - reflexivity.
Qed.

Lemma bytesToHex_cons (b : byte) (data : list byte) :
  CryptoEngine_bytesToHex (b :: data)
  = String (hex_digit (u8 b / 16))
      (String (hex_digit (u8 b mod 16)) (CryptoEngine_bytesToHex data)).
Proof.
  unfold CryptoEngine_bytesToHex. cbn [fold_right].
  rewrite setw_hex by apply u8_range. reflexivity.
Qed.

Lemma hexToBytes_loop_bytesToHex (other : string -> Z) (data : list byte) :
  hexToBytes_loop other (CryptoEngine_bytesToHex data) = data.
Proof.
  induction data as [|b data IH]; [reflexivity|].
  rewrite bytesToHex_cons. cbn [hexToBytes_loop]. rewrite IH. f_equal.
  unfold extract_hex. pose proof (u8_range b) as R.
  rewrite !hex_value_digit
    by (split; try apply Z.div_pos; try apply Z.div_lt_upper_bound;
        try apply Z.mod_pos_bound; lia).
  rewrite <- Z.div_mod by lia. apply to_u8_u8.
Qed.

(** X10.  [bytesToHex] writes two hexadecimal digits for every byte,
    and [hexToBytes] reads back from them the bytes that were written;
    a string of odd length is refused. *)
Theorem hexToBytes_of_bytesToHex :
  forall (other : string -> Z) (data : list byte),
    ssize (CryptoEngine_bytesToHex data) = 2 * size data
    /\ CryptoEngine_hexToBytes other (CryptoEngine_bytesToHex data) = Ret data
    /\ (forall hex : string,
           ssize hex mod 2 = 1 ->
           CryptoEngine_hexToBytes other hex = Throw "Invalid hex string: odd length").
Proof.
  intros other data.
  assert (L : ssize (CryptoEngine_bytesToHex data) = 2 * size data).
  { unfold ssize, size. induction data as [|b data IH]; [reflexivity|].
    rewrite bytesToHex_cons. cbn [String.length length]. lia. }
  split; [exact L|]. split.
  - unfold CryptoEngine_hexToBytes. rewrite L.
    replace (2 * size data) with (size data * 2) by lia.
    rewrite Z.mod_mul by lia. cbn [Z.eqb negb].
    rewrite hexToBytes_loop_bytesToHex. reflexivity.
  - intros hex H. unfold CryptoEngine_hexToBytes. rewrite H. reflexivity.
Qed.

Lemma memset0_repeat (buffer : list byte) : memset0 buffer = repeat x00 (length buffer).
Proof.
  unfold memset0. induction buffer as [|b buffer IH]; [reflexivity|].
  cbn [map length repeat]. rewrite IH. reflexivity.
Qed.

(** X11.  [initialize] takes a key of 32 bytes with an IV of 16 bytes
    and nothing else; the engine it leaves encrypts under that key and
    IV.  An engine that is new or was cleared refuses to encrypt and to
    decrypt, and [secureWipe] leaves a buffer of as many zero bytes as
    it was given. *)
Theorem CryptoEngine_initialize_and_clear :
  forall (c : CryptoEngine) (key iv data buffer : list byte) (k : entropy),
    ((exists c', CryptoEngine_initialize c key iv = Ret c')
     <-> (length key = 32%nat /\ length iv = 16%nat))
    /\ (forall c', CryptoEngine_initialize c key iv = Ret c' ->
                   CryptoEngine_isInitialized c' = true
                   /\ CryptoEngine_encrypt c' data = Ret (EVP_encrypt key iv data))
    /\ CryptoEngine_isInitialized (fst (CryptoEngine_clear c k)) = false
    /\ CryptoEngine_encrypt (fst (CryptoEngine_clear c k)) data
       = Throw "CryptoEngine not initialized"
    /\ CryptoEngine_decrypt (fst (CryptoEngine_clear c k)) data
       = Throw "CryptoEngine not initialized"
    /\ CryptoEngine_encrypt CryptoEngine_new data = Throw "CryptoEngine not initialized"
    /\ fst (CryptoEngine_secureWipe buffer k) = repeat x00 (length buffer).
Proof.
  intros c key iv data buffer k.
  assert (I : forall c', CryptoEngine_initialize c key iv = Ret c' ->
                         length key = 32%nat /\ length iv = 16%nat
                         /\ c' = {| m_key := key; m_iv := iv; m_initialized := true |}).
  { unfold CryptoEngine_initialize. change AES_KEY_SIZE with 32%nat.
    change IV_SIZE with 16%nat. intros c'.
    destruct (Nat.eqb_spec (length key) 32); cbn [negb]; [|discriminate].
    destruct (Nat.eqb_spec (length iv) 16); cbn [negb]; [|discriminate].
    intros [= <-]. auto. }
  split; [split|].
  - intros (c' & H). apply I in H. tauto.
  - intros (Hk & Hi). unfold CryptoEngine_initialize.
    rewrite Hk, Hi. cbn. eauto.
  - split.
    + intros c' H. apply I in H. destruct H as (Hk & Hi & ->).
      assert (E : CryptoEngine_isInitialized
                    {| m_key := key; m_iv := iv; m_initialized := true |} = true).
      { unfold CryptoEngine_isInitialized. cbn [m_key m_iv m_initialized].
        destruct key; [discriminate Hk|]. destruct iv; [discriminate Hi|]. reflexivity. }
      split; [exact E|]. unfold CryptoEngine_encrypt. rewrite E. reflexivity.
    + assert (C : fst (CryptoEngine_clear c k)
                  = {| m_key := []; m_iv := []; m_initialized := false |}).
      { unfold CryptoEngine_clear.
        destruct (CryptoEngine_secureWipe (m_key c) k) as [? k1].
        destruct (CryptoEngine_secureWipe (m_iv c) k1) as [? k2]. reflexivity. }
      rewrite C. repeat split.
      unfold CryptoEngine_secureWipe. destruct buffer as [|b buffer]; [reflexivity|].
      cbn [empty fst]. rewrite memset0_repeat, resize_length.
      unfold memset0. rewrite length_map. reflexivity.
Qed.

(** X12.  What [compress] reports: the original size is the length of
    the input; after a success the compressed size is the length of the
    output, and after a failure it is 0 and a message is set; the empty
    input is a success with an empty output. *)
Theorem CompressionEngine_compress_reports :
  forall (c : CompressionEngine) (data : list byte),
    let result := CompressionEngine_compress c data in
    c_originalSize result = u64 (size data)
    /\ (c_success result = true ->
        c_compressedSize result = u64 (size (compressedData result))
        /\ c_errorMessage result = ""%string)
    /\ (c_success result = false ->
        c_compressedSize result = 0 /\ c_errorMessage result <> ""%string)
    /\ (data = [] ->
        c_success result = true /\ compressedData result = []
        /\ c_compressedSize result = 0).
Proof.
  intros c data result. subst result. unfold CompressionEngine_compress.
  destruct data as [|b data]; cbn [empty].
  - cbn. repeat split; try discriminate; reflexivity.
  - destruct (zlib_deflate _ _ _); cbn;
      repeat split; try discriminate; try reflexivity; intros; discriminate.
Qed.

(** X13.  The level an engine holds after [setCompressionLevel] is a
    level of zlib, 0 to 9, whatever was asked for, and the level asked
    for if that was one; such a level never has the name "Custom".  The
    level [getOptimalLevel] proposes for a file type is always one that
    [setCompressionLevel] leaves as it is. *)
Theorem setCompressionLevel_clamps :
  forall (c : CompressionEngine) (level dataType : Z),
    0 <= m_compressionLevel (CompressionEngine_setCompressionLevel c level) <= 9
    /\ (0 <= level <= 9 ->
        m_compressionLevel (CompressionEngine_setCompressionLevel c level) = level)
    /\ CompressionEngine_getLevelName
         (m_compressionLevel (CompressionEngine_setCompressionLevel c level))
       <> "Custom"%string
    /\ m_compressionLevel
         (CompressionEngine_setCompressionLevel c
            (CompressionEngine_getOptimalLevel dataType))
       = CompressionEngine_getOptimalLevel dataType.
Proof.
  intros c level dataType.
  unfold CompressionEngine_setCompressionLevel. cbn [m_compressionLevel].
  split; [lia|]. split; [lia|]. split.
  - unfold CompressionEngine_getLevelName.
    repeat match goal with
           | |- context [?x =? ?n] => destruct (Z.eqb_spec x n)
           | |- context [?x <=? ?n] => destruct (Z.leb_spec x n)
           end; try discriminate; lia.
  - unfold CompressionEngine_getOptimalLevel,
      CompressionLevel.BEST, CompressionLevel.DEFAULT, CompressionLevel.FASTEST.
    repeat match goal with
           | |- context [if ?b then _ else _] => destruct b
           end; reflexivity.
Qed.

End Engines.

(** ** Patterns *)

Section Patterns.
Context {prim : Primitives}.

Lemma ssize_append (a b : string) : ssize (a ++ b) = ssize a + ssize b.
Proof.
  unfold ssize. induction a as [|c a IH]; [reflexivity|].
  cbn [append String.length]. lia.
Qed.

Lemma ssize_String (c : ascii) (s : string) : ssize (String c s) = 1 + ssize s.
Proof. unfold ssize. cbn [String.length]. lia. Qed.

Lemma append_String (a : string) (c : ascii) (b : string) :
  (a ++ String c b = (a ++ String c "") ++ b)%string.
Proof. induction a as [|d a IH]; [reflexivity|]. cbn [append]. rewrite IH. reflexivity. Qed.

Lemma char_at_append (a : string) (c : ascii) (b : string) :
  char_at (a ++ String c b) (ssize a) = c.
Proof.
  unfold char_at, ssize. rewrite Nat2Z.id.
  induction a as [|d a IH]; [reflexivity|]. cbn [append String.length String.get]. exact IH.
Qed.

Lemma ascii_eqb_false (c d : ascii) : Ascii.eqb c d = false <-> c <> d.
Proof. destruct (Ascii.eqb_spec c d); split; congruence. Qed.

(** Through a stretch of the pattern without a star the loop goes
    position by position. *)
Lemma matchesPattern_loop_star_free (p : string) :
  forall (s ppre spre : string) (fuel : nat),
    star_free p = true ->
    ssize (spre ++ s) < 2 ^ 64 -> ssize (ppre ++ p) < 2 ^ 64 ->
    (String.length p < fuel)%nat ->
    matchesPattern_loop fuel (spre ++ s) (ppre ++ p) (ssize spre) (ssize ppre)
    = Some (agrees s p).
Proof.
  induction p as [|c p IH]; intros s ppre spre fuel Hp Hs Hpp Hfuel;
    (destruct fuel as [|fuel]; [cbn [String.length] in Hfuel; lia|]);
    cbn [matchesPattern_loop]; rewrite !ssize_append in *.
  - change (ssize "") with 0. rewrite Z.add_0_r, Z.ltb_irrefl, andb_false_r, Z.eqb_refl.
    destruct s as [|d s]; cbn [agrees].
    + change (ssize "") with 0. rewrite Z.add_0_r, Z.eqb_refl. reflexivity.
    + rewrite ssize_String. pose proof (ssize_nonneg s).
      destruct (Z.eqb_spec (ssize spre) (ssize spre + (1 + ssize s))); [lia | reflexivity].
  - rewrite ssize_String in *. pose proof (ssize_nonneg p).
    pose proof (ssize_nonneg ppre). pose proof (ssize_nonneg spre).
    cbn [star_free] in Hp. apply andb_true_iff in Hp. destruct Hp as [Hc Hp].
    apply negb_true_iff in Hc.
    destruct s as [|d s]; cbn [agrees].
    + change (ssize "") with 0. rewrite Z.add_0_r, Z.ltb_irrefl. cbn [andb].
      rewrite Z.eqb_refl.
      destruct (Z.eqb_spec (ssize ppre) (ssize ppre + (1 + ssize p))); [lia | reflexivity].
    + rewrite ssize_String in *. pose proof (ssize_nonneg s).
      destruct (Z.ltb_spec (ssize spre) (ssize spre + (1 + ssize s))); [|lia].
      destruct (Z.ltb_spec (ssize ppre) (ssize ppre + (1 + ssize p))); [|lia].
      cbn [andb]. rewrite !char_at_append, Hc.
      destruct (Ascii.eqb c "?" || Ascii.eqb c d); [|reflexivity].
      cbn [andb].
      rewrite !u64_small by lia.
      rewrite (append_String spre), (append_String ppre).
      replace (ssize spre + 1) with (ssize (spre ++ String d "")) by (rewrite ssize_append; reflexivity).
      replace (ssize ppre + 1) with (ssize (ppre ++ String c "")) by (rewrite ssize_append; reflexivity).
      apply IH; auto.
      * rewrite !ssize_append. change (ssize (String d "")) with 1. lia.
      * rewrite !ssize_append. change (ssize (String c "")) with 1. lia.
      * cbn [String.length] in Hfuel. lia.
Qed.

Lemma agrees_literal (pattern : string) :
  literal pattern = true -> forall str, agrees str pattern = String.eqb str pattern.
Proof.
  induction pattern as [|p pattern IH]; intros H str.
  - destruct str; reflexivity.
  - cbn [literal] in H. apply andb_true_iff in H. destruct H as [H Hl].
    apply andb_true_iff in H. destruct H as [_ Hq]. apply negb_true_iff in Hq.
    destruct str as [|c str]; [reflexivity|].
    cbn [agrees String.eqb]. rewrite Hq, IH by exact Hl. cbn [orb].
    rewrite Ascii.eqb_sym. destruct (Ascii.eqb c p); reflexivity.
Qed.

Lemma literal_star_free (pattern : string) : literal pattern = true -> star_free pattern = true.
Proof.
  induction pattern as [|p pattern IH]; [reflexivity|].
  cbn [literal star_free]. intros H.
  apply andb_true_iff in H. destruct H as [H Hl].
  apply andb_true_iff in H. destruct H as [Hs _].
  rewrite Hs, IH by exact Hl. reflexivity.
Qed.

Lemma matchesPattern_star_free (str pattern : string) :
  star_free pattern = true -> ssize str < 2 ^ 64 -> ssize pattern < 2 ^ 64 ->
  matchesPattern str pattern = Some (agrees str pattern).
Proof.
  intros Hp Hs Hpp. unfold matchesPattern.
  apply (@matchesPattern_loop_star_free pattern str "" "" (S (String.length pattern)));
    auto.
Qed.

(** X14.  A pattern without a star matches the strings of its own
    length that have, at every position, the character of the pattern
    or any character where the pattern has a question mark.  A pattern
    with neither star nor question mark matches itself and nothing
    else. *)
Theorem matchesPattern_without_star :
  forall str pattern : string,
    star_free pattern = true ->
    ssize str < 2 ^ 64 ->
    ssize pattern < 2 ^ 64 ->
    matchesPattern str pattern = Some (agrees str pattern)
    /\ (literal pattern = true ->
        matchesPattern str pattern = Some (String.eqb str pattern)).
Proof.
  intros str pattern Hp Hs Hpp.
  split; [apply matchesPattern_star_free; assumption|].
  intros Hl. rewrite matchesPattern_star_free by assumption.
  rewrite agrees_literal by exact Hl. reflexivity.
Qed.

(** The same walk, in front of a star that ends the pattern. *)
Lemma matchesPattern_loop_last_star (p : string) :
  forall (s ppre spre : string) (fuel : nat),
    star_free p = true ->
    ssize (spre ++ s) < 2 ^ 64 -> ssize (ppre ++ p ++ "*") < 2 ^ 64 ->
    (String.length p < fuel)%nat ->
    matchesPattern_loop fuel (spre ++ s) (ppre ++ p ++ "*") (ssize spre) (ssize ppre)
    = Some (extends s p).
Proof.
  induction p as [|c p IH]; intros s ppre spre fuel Hp Hs Hpp Hfuel;
    (destruct fuel as [|fuel]; [cbn [String.length] in Hfuel; lia|]);
    cbn [matchesPattern_loop]; cbn [append] in *;
    rewrite ?ssize_append, ?ssize_String in *;
    change (ssize "") with 0 in *;
    pose proof (ssize_nonneg ppre); pose proof (ssize_nonneg spre).
  - destruct s as [|d s]; cbn [extends].
    + change (ssize "") with 0. rewrite Z.add_0_r, Z.ltb_irrefl. cbn [andb].
      rewrite Z.eqb_refl.
      destruct (Z.eqb_spec (ssize ppre) (ssize ppre + (1 + 0))); [lia | reflexivity].
    + rewrite ssize_String in *. pose proof (ssize_nonneg s).
      destruct (Z.ltb_spec (ssize spre) (ssize spre + (1 + ssize s))); [|lia].
      destruct (Z.ltb_spec (ssize ppre) (ssize ppre + (1 + 0))); [|lia].
      cbn [andb]. rewrite char_at_append. change (Ascii.eqb "*" "*") with true. cbv iota.
      rewrite u64_small by lia.
      destruct (Z.ltb_spec (ssize ppre + 1) (ssize ppre + (1 + 0))); [lia | reflexivity].
  - pose proof (ssize_nonneg p).
    cbn [star_free] in Hp. apply andb_true_iff in Hp. destruct Hp as [Hc Hp].
    apply negb_true_iff in Hc.
    rewrite ?ssize_append, ?ssize_String in *. change (ssize "") with 0 in *.
    destruct s as [|d s]; cbn [extends].
    + change (ssize "") with 0. rewrite Z.add_0_r, Z.ltb_irrefl. cbn [andb].
      rewrite Z.eqb_refl.
      destruct (Z.eqb_spec (ssize ppre) (ssize ppre + (1 + (ssize p + (1 + 0)))));
        [lia | reflexivity].
    + rewrite ssize_String in *. pose proof (ssize_nonneg s).
      destruct (Z.ltb_spec (ssize spre) (ssize spre + (1 + ssize s))); [|lia].
      destruct (Z.ltb_spec (ssize ppre) (ssize ppre + (1 + (ssize p + (1 + 0))))); [|lia].
      cbn [andb]. rewrite !char_at_append, Hc.
      destruct (Ascii.eqb c "?" || Ascii.eqb c d); [|reflexivity].
      cbn [andb].
      rewrite !u64_small by lia.
      rewrite (append_String spre), (append_String ppre).
      replace (ssize spre + 1) with (ssize (spre ++ String d "")) by (rewrite ssize_append; reflexivity).
      replace (ssize ppre + 1) with (ssize (ppre ++ String c "")) by (rewrite ssize_append; reflexivity).
      apply IH; auto.
      * rewrite !ssize_append. change (ssize (String d "")) with 1. lia.
      * rewrite !ssize_append, !ssize_String. change (ssize "") with 0. lia.
      * cbn [String.length] in Hfuel. lia.
Qed.

Lemma extends_longer (str pattern : string) :
  extends str pattern = true -> ssize pattern < ssize str.
Proof.
  revert str. induction pattern as [|p pattern IH]; intros [|c str] H;
    cbn [extends] in H; try discriminate.
  - rewrite ssize_String. change (ssize "") with 0. pose proof (ssize_nonneg str). lia.
  - apply andb_true_iff in H. destruct H as [_ H]. apply IH in H.
    rewrite !ssize_String. lia.
Qed.

(** X15.  A pattern that is a stretch without a star followed by one
    star matches the strings that go on behind a front that agrees with
    the stretch: at least one more character has to follow, so such a
    pattern does not match its own front, and [*] alone matches every
    string but the empty one. *)
Theorem matchesPattern_with_a_last_star :
  forall str front : string,
    star_free front = true ->
    ssize str < 2 ^ 64 ->
    ssize (front ++ "*") < 2 ^ 64 ->
    matchesPattern str (front ++ "*") = Some (extends str front)
    /\ (matchesPattern str (front ++ "*") = Some true -> ssize front < ssize str)
    /\ matchesPattern front (front ++ "*") = Some false
    /\ matchesPattern str "*" = Some (negb (str_empty str)).
Proof.
  intros str front Hp Hs Hpp.
  assert (G : forall s, ssize s < 2 ^ 64 ->
                        matchesPattern s (front ++ "*") = Some (extends s front)).
  { intros s Hsz. unfold matchesPattern.
    assert (L : (String.length front < S (String.length (front ++ "*")))%nat).
    { pose proof (ssize_append front "*") as E. unfold ssize in E.
      cbn [String.length] in E. lia. }
    apply (@matchesPattern_loop_last_star front s "" "" _ Hp Hsz Hpp L). }
  split; [apply G; exact Hs|]. split; [|split].
  - rewrite G by exact Hs. intros [= E]. apply extends_longer. exact E.
  - rewrite ssize_append in Hpp. change (ssize "*") with 1 in Hpp.
    rewrite G by lia.
    destruct (extends front front) eqn:E; [|reflexivity].
    apply extends_longer in E. lia.
  - pose proof (@matchesPattern_loop_last_star "" str "" "" 2%nat eq_refl Hs eq_refl
                  ltac:(cbn; lia)) as E.
    cbn [append] in E. change (ssize "") with 0 in E.
    unfold matchesPattern. change (S (String.length "*")) with 2%nat.
    rewrite E. destruct str; reflexivity.
Qed.

Lemma get_star_free (s : string) (n : nat) :
  star_free s = true -> String.get n s <> Some "*"%char.
Proof.
  revert n. induction s as [|c s IH]; intros n H; [destruct n; discriminate|].
  cbn [star_free] in H. apply andb_true_iff in H. destruct H as [Hc Hs].
  apply negb_true_iff, ascii_eqb_false in Hc.
  destruct n as [|n]; cbn [String.get]; [congruence | apply IH; exact Hs].
Qed.

Lemma get_append_r (a b : string) (n : nat) :
  String.get (String.length a + n) (a ++ b) = String.get n b.
Proof. induction a as [|c a IH]; [reflexivity|]. cbn [String.length append Nat.add String.get]. exact IH. Qed.

(** In [front ++ "*" ++ tail] with a tail without a star, no star
    stands behind the one in the middle. *)
Lemma last_star (front tail : string) (q : nat) :
  star_free tail = true ->
  String.get q (front ++ String "*" tail) = Some "*"%char ->
  (q <= String.length front)%nat.
Proof.
  intros Ht Hq.
  destruct (Nat.le_gt_cases q (String.length front)) as [L|L]; [exact L|].
  replace q with (String.length front + S (q - String.length front - 1))%nat in Hq by lia.
  rewrite get_append_r in Hq. cbn [String.get] in Hq.
  apply get_star_free in Hq; [contradiction | exact Ht].
Qed.

Lemma index_star (pattern : string) (n q : nat) :
  String.index n "*" pattern = Some q -> String.get q pattern = Some "*"%char.
Proof.
  intros H. apply index_correct1 in H. cbn [String.length] in H.
  pose proof (@substring_correct1 pattern q 1 0 ltac:(lia)) as G.
  rewrite H in G. cbn [String.get Nat.add] in G. symmetry. exact G.
Qed.

Lemma char_at_get (s : string) (j : Z) (c : ascii) :
  0 <= j < ssize s -> (char_at s j = c <-> String.get (Z.to_nat j) s = Some c).
Proof.
  intros H. unfold char_at.
  destruct (String.get (Z.to_nat j) s) as [d|] eqn:E.
  - split; congruence.
  - exfalso. unfold ssize in H.
    pose proof (@get_correct s s) as [_ G].
    assert (Z.to_nat j < String.length s)%nat by lia.
    clear G. revert E H0. generalize (Z.to_nat j). clear H.
    induction s as [|x s IH]; intros n E L; cbn [String.length] in L; [lia|].
    destruct n as [|n]; cbn [String.get] in E; [discriminate|].
    apply (IH n E). lia.
Qed.

(** A star with a tail behind it: the loop never answers [true]. *)
Lemma matchesPattern_loop_star_tail (str front tail : string) :
  tail <> ""%string -> star_free tail = true ->
  ssize (front ++ String "*" tail) < npos ->
  forall (fuel : nat) (i j : Z),
    0 <= j <= ssize front ->
    matchesPattern_loop fuel str (front ++ String "*" tail) i j <> Some true.
Proof.
  intros Hne Ht Hsz.
  set (pattern := (front ++ String "*" tail)%string) in *.
  assert (Hlen : ssize pattern = ssize front + 1 + ssize tail).
  { unfold pattern. rewrite ssize_append, ssize_String. lia. }
  assert (Htail : 0 < ssize tail).
  { destruct tail; [contradiction|]. rewrite ssize_String.
    pose proof (ssize_nonneg tail). lia. }
  pose proof (ssize_nonneg front) as Hf0.
  unfold npos in Hsz.
  induction fuel as [|fuel IH]; intros i j Hj; [discriminate|].
  cbn [matchesPattern_loop].
  destruct ((i <? ssize str) && (j <? ssize pattern)) eqn:C.
  - assert (Hj1 : u64 (j + 1) = j + 1) by (apply u64_small; pow64; lia).
    rewrite Hj1.
    destruct (Ascii.eqb (char_at pattern j) "*") eqn:S.
    + destruct (Z.ltb_spec (j + 1) (ssize pattern)) as [L|L]; [|lia].
      destruct (_ =? npos); [discriminate|].
      assert (N : str_find pattern "*" (j + 1) = npos
                  \/ 0 <= str_find pattern "*" (j + 1) <= ssize front).
      { unfold str_find.
        destruct (String.index (Z.to_nat (j + 1)) "*" pattern) as [q|] eqn:E;
          [right | left; reflexivity].
        apply index_star in E. apply last_star in E; [|exact Ht].
        unfold ssize. lia. }
      destruct N as [N|N]; [|apply IH; exact N].
      rewrite N.
      destruct fuel as [|fuel']; [discriminate|].
      rewrite matchesPattern_loop_out by (unfold npos; pow64; lia).
      destruct (Z.eqb_spec npos (ssize pattern)) as [E'|E'];
        [unfold npos in E'; lia|].
      rewrite andb_false_r. discriminate.
    + destruct (_ || _); [|discriminate].
      apply IH.
      assert (j <> ssize front).
      { intros ->. apply ascii_eqb_false in S. apply S.
        unfold pattern. apply char_at_append. }
      lia.
  - assert (Hn : (j =? ssize pattern) = false) by (apply Z.eqb_neq; lia).
    rewrite Hn, andb_false_r. discriminate.
Qed.

(** X16.  A pattern with a star that is followed by at least one
    character and by no further star matches no string at all: behind
    the tail the position in the pattern is [npos], which is not the
    length of the pattern.  So [findEntries] finds nothing and
    [removeEntries] removes nothing for such a pattern. *)
Theorem star_before_a_tail_matches_nothing :
  forall (str front tail : string) (a : Archive),
    tail <> ""%string ->
    star_free tail = true ->
    ssize (front ++ "*" ++ tail) < npos ->
    matchesPattern str (front ++ "*" ++ tail) = Some false
    /\ Archive_findEntries a (front ++ "*" ++ tail) = []
    /\ Archive_removeEntries (front ++ "*" ++ tail) a = (0, a).
Proof.
  intros str front tail a Hne Ht Hsz.
  change ("*" ++ tail)%string with (String "*" tail) in *.
  assert (G : forall s, matchesPattern s (front ++ String "*" tail) = Some false).
  { intros s.
    destruct (@matchesPattern_returns s (front ++ String "*" tail)) as ([|] & E);
      [unfold npos in Hsz; pow64; lia | | exact E].
    exfalso. revert E. unfold matchesPattern.
    apply matchesPattern_loop_star_tail; auto.
    pose proof (ssize_nonneg front). lia. }
  assert (M : forall e, matches (front ++ String "*" tail) e = false).
  { intros e. unfold matches. rewrite G. reflexivity. }
  split; [apply G|]. split.
  - unfold Archive_findEntries. apply filter_none. exact M.
  - unfold Archive_removeEntries.
    rewrite (filter_none _ (m_entries a) M).
    rewrite filter_all by (apply Forall_forall; intros e _; rewrite M; reflexivity).
    cbn. destruct a; reflexivity.
Qed.

End Patterns.

(** ** The list of entries *)

Section EntryList.
Context {prim : Primitives}.

Lemma findEntry_none (es : list VarcEntry) (path : string) :
  findEntry es path = None <-> Forall (fun e => m_relativePath e <> path) es.
Proof.
  induction es as [|e es IH]; cbn [findEntry].
  - split; auto.
  - destruct (String.eqb_spec (m_relativePath e) path) as [E|E].
    + split; [discriminate|]. intros H. inversion H. contradiction.
    + rewrite IH. split; [intros H; constructor; assumption|].
      intros H. inversion H. assumption.
Qed.

Lemma findEntry_app (es es' : list VarcEntry) (path : string) :
  findEntry (es ++ es') path
  = match findEntry es path with
    | Some e => Some e
    | None => findEntry es' path
    end.
Proof.
  induction es as [|e es IH]; [reflexivity|].
  cbn [app findEntry]. destruct (String.eqb (m_relativePath e) path); auto.
Qed.

Lemma findEntry_split (front back : list VarcEntry) (e : VarcEntry) (path : string) :
  Forall (fun x => m_relativePath x <> path) front -> m_relativePath e = path ->
  findEntry (front ++ e :: back) path = Some e.
Proof.
  intros Hf He. rewrite findEntry_app.
  apply findEntry_none in Hf. rewrite Hf. cbn [findEntry].
  rewrite He, String.eqb_refl. reflexivity.
Qed.

Lemma erase_first_some (path : string) (es es' : list VarcEntry) :
  erase_first path es = Some es' ->
  exists front e back,
    es = front ++ e :: back /\ m_relativePath e = path
    /\ Forall (fun x => m_relativePath x <> path) front
    /\ es' = front ++ back.
Proof.
  revert es'. induction es as [|x es IH]; intros es' H; [discriminate|].
  cbn [erase_first] in H.
  destruct (String.eqb_spec (m_relativePath x) path) as [E|E].
  - injection H as <-. exists [], x, es. auto.
  - destruct (erase_first path es) as [r|]; [|discriminate].
    injection H as <-.
    destruct (IH r eq_refl) as (front & e & back & -> & He & Hf & ->).
    exists (x :: front), e, back. auto.
Qed.

Lemma erase_first_none (path : string) (es : list VarcEntry) :
  erase_first path es = None <-> findEntry es path = None.
Proof.
  induction es as [|x es IH]; cbn [erase_first findEntry]; [tauto|].
  destruct (String.eqb (m_relativePath x) path); [split; discriminate|].
  rewrite <- IH. destruct (erase_first path es); cbn; split; congruence.
Qed.

Lemma findEntry_other (front back : list VarcEntry) (e : VarcEntry) (q : string) :
  m_relativePath e <> q ->
  findEntry (front ++ e :: back) q = findEntry (front ++ back) q.
Proof.
  intros H. rewrite !findEntry_app. cbn [findEntry].
  destruct (String.eqb_spec (m_relativePath e) q); [contradiction | reflexivity].
Qed.

(** X17.  [removeEntry] answers [true] exactly when an entry of that
    path exists.  It then removes one entry, the first of that path,
    which is the one [findEntry] finds, and leaves the other entries in
    their order: what [findEntry] finds for any other path is as
    before.  Otherwise the list stays as it is and the error message
    names the path. *)
Theorem removeEntry_removes_the_first :
  forall (path : string) (a : Archive),
    let ok := fst (Archive_removeEntry path a) in
    let a' := snd (Archive_removeEntry path a) in
    ok = Archive_entryExists a path
    /\ (ok = false ->
        m_entries a' = m_entries a
        /\ m_modified a' = m_modified a
        /\ m_errorMessage a' = ("Entry not found: " ++ path)%string)
    /\ (ok = true ->
        exists front e back,
          m_entries a = front ++ e :: back
          /\ Archive_findEntry a path = Some e
          /\ Forall (fun x => m_relativePath x <> path) front
          /\ m_entries a' = front ++ back
          /\ m_modified a' = true)
    /\ (forall q, q <> path -> Archive_findEntry a' q = Archive_findEntry a q).
Proof.
  intros path a. cbv zeta.
  unfold Archive_removeEntry, Archive_entryExists, Archive_findEntry.
  destruct (erase_first path (m_entries a)) as [es'|] eqn:E; cbn [fst snd].
  - destruct (erase_first_some _ _ E) as (front & e & back & Hes & He & Hf & ->).
    rewrite Hes. rewrite (@findEntry_split front back e path Hf He).
    split; [reflexivity|]. split; [discriminate|]. split.
    + intros _. exists front, e, back. auto.
    + intros q Hq. cbn [m_entries set_modified set_entries].
      symmetry. apply findEntry_other. congruence.
  - apply erase_first_none in E. rewrite E.
    split; [reflexivity|]. split; [auto|]. split; [discriminate|]. reflexivity.
Qed.

Lemma filter_length_split (A : Type) (f : A -> bool) (l : list A) :
  size (filter (fun x => negb (f x)) l) + size (filter f l) = size l.
Proof.
  unfold size. induction l as [|x l IH]; [reflexivity|].
  cbn [filter]. destruct (f x); cbn [negb length]; lia.
Qed.

Lemma filter_filter_negb (A : Type) (f : A -> bool) (l : list A) :
  filter f (filter (fun x => negb (f x)) l) = [].
Proof.
  induction l as [|x l IH]; [reflexivity|].
  cbn [filter]. destruct (f x) eqn:E; cbn [negb]; [exact IH|].
  cbn [filter]. rewrite E. exact IH.
Qed.

Lemma removeEntries_entries (pattern : string) (a : Archive) :
  m_entries (snd (Archive_removeEntries pattern a))
  = filter (fun e => negb (matches pattern e)) (m_entries a).
Proof.
  unfold Archive_removeEntries. cbn [snd].
  destruct (0 <? _); reflexivity.
Qed.

Lemma matches_literal (pattern : string) (e : VarcEntry) :
  literal pattern = true -> ssize pattern < 2 ^ 64 ->
  ssize (m_relativePath e) < 2 ^ 64 ->
  matches pattern e = String.eqb (m_relativePath e) pattern.
Proof.
  intros Hl Hp He. unfold matches.
  rewrite matchesPattern_star_free by (auto using literal_star_free).
  apply agrees_literal. exact Hl.
Qed.

(** X18.  [removeEntries] removes the entries that [findEntries] finds
    for the same pattern, and answers their number: the two lists make
    up the old one, nothing is found for the pattern afterwards, and an
    archive in which nothing was found is left as it was.  For a
    pattern without star and question mark these are all the entries
    of that very path, so that none of that path exists afterwards. *)
Theorem removeEntries_removes_what_findEntries_finds :
  forall (pattern : string) (a : Archive),
    let found := Archive_findEntries a pattern in
    let count := fst (Archive_removeEntries pattern a) in
    let a' := snd (Archive_removeEntries pattern a) in
    count = u64 (size found)
    /\ size (m_entries a') + size found = size (m_entries a)
    /\ Archive_findEntries a' pattern = []
    /\ (forall e, In e (m_entries a') <-> (In e (m_entries a) /\ ~ In e found))
    /\ (found = [] -> a' = a)
    /\ (literal pattern = true -> ssize pattern < 2 ^ 64 ->
        Forall (fun e => ssize (m_relativePath e) < 2 ^ 64) (m_entries a) ->
        found = filter (fun e => String.eqb (m_relativePath e) pattern) (m_entries a)
        /\ Archive_entryExists a' pattern = false).
Proof.
  intros pattern a. cbv zeta.
  pose proof (removeEntries_entries pattern a) as Hes.
  unfold Archive_findEntries in *. rewrite Hes.
  split; [reflexivity|]. split; [apply filter_length_split|].
  split; [apply filter_filter_negb|]. split; [|split].
  - intros e. rewrite !filter_In. split.
    + intros (Hin & Hm). apply negb_true_iff in Hm. split; [exact Hin|].
      intros (_ & Hm'). congruence.
    + intros (Hin & Hn). split; [exact Hin|]. apply negb_true_iff.
      destruct (matches pattern e) eqn:M; [|reflexivity]. exfalso. apply Hn. auto.
  - intros Hnone. unfold Archive_removeEntries. rewrite Hnone. cbn [snd].
    change (0 <? u64 (size [])) with false. cbv iota.
    assert (E : filter (fun e => negb (matches pattern e)) (m_entries a) = m_entries a).
    { apply filter_all. apply Forall_forall. intros e Hin. apply negb_true_iff.
      destruct (matches pattern e) eqn:M; [|reflexivity].
      assert (Hf : In e (filter (matches pattern) (m_entries a)))
        by (apply filter_In; auto).
      rewrite Hnone in Hf. contradiction. }
    rewrite E. destruct a; reflexivity.
  - intros Hl Hp Hall.
    assert (M : forall e, In e (m_entries a) ->
                          matches pattern e = String.eqb (m_relativePath e) pattern).
    { intros e Hin. apply matches_literal; auto.
      rewrite Forall_forall in Hall. apply Hall. exact Hin. }
    split; [apply filter_ext_in; exact M|].
    unfold Archive_entryExists, Archive_findEntry. rewrite Hes.
    assert (N : findEntry (filter (fun e => negb (matches pattern e)) (m_entries a)) pattern
                = None).
    { apply findEntry_none. apply Forall_forall. intros e Hin.
      apply filter_In in Hin. destruct Hin as (Hin & Hm).
      rewrite (M e Hin) in Hm. apply negb_true_iff in Hm.
      apply String.eqb_neq. exact Hm. }
    rewrite N. reflexivity.
Qed.

Lemma processEntry_appends (entry : VarcEntry) (options : CreateOptions)
    (w : World) (a : Archive) :
  exists w' a' e',
    Archive_processEntry entry options w a = Ret (true, w', a')
    /\ m_entries a' = m_entries a ++ [e']
    /\ m_relativePath e' = m_relativePath entry
    /\ m_loaded a' = m_loaded a
    /\ m_modified a' = true.
Proof.
  unfold Archive_processEntry.
  destruct (processEntry_encrypt_spec entry options w a)
    as (e1 & w1 & a1 & -> & Hes & _ & _ & Hl & Hplain & Henc).
  cbn [bind]. do 3 eexists. split; [reflexivity|].
  cbn [m_entries m_loaded m_modified set_modified set_entries].
  rewrite Hes, Hl, processEntry_compress_path.
  repeat split.
  destruct (encrypt options && negb (str_empty (password options))).
  - destruct (Henc eq_refl) as (-> & _). reflexivity.
  - destruct (Hplain eq_refl) as (-> & _). reflexivity.
Qed.

(** X19.  [addVirtualFile] appends and never replaces: where an entry
    of the path exists already, [findEntry] goes on to find the old
    one, and the new entry sits behind it; otherwise the new entry is
    the one that is found.  Entries of other paths are found as
    before. *)
Theorem addVirtualFile_never_replaces :
  forall (path : string) (data : list byte) (options : CreateOptions)
         (w : World) (a : Archive),
    Archive_isOpen a = true ->
    exists w' a' e',
      Archive_addVirtualFile path data options w a = Ret (true, w', a')
      /\ m_entries a' = m_entries a ++ [e']
      /\ m_relativePath e' = path
      /\ Archive_getEntryCount a' = u64 (size (m_entries a) + 1)
      /\ (forall old, Archive_findEntry a path = Some old ->
                      Archive_findEntry a' path = Some old)
      /\ (Archive_findEntry a path = None -> Archive_findEntry a' path = Some e')
      /\ (forall q, q <> path -> Archive_findEntry a' q = Archive_findEntry a q).
Proof.
  intros path data options w a Hopen.
  unfold Archive_addVirtualFile. rewrite Hopen. cbn [negb].
  destruct (processEntry_appends (VarcEntry_of_data path data FILE) options w a)
    as (w' & a' & e' & -> & Hes & Hp & _).
  cbn [m_relativePath VarcEntry_of_data] in Hp.
  exists w', a', e'. split; [reflexivity|]. split; [exact Hes|]. split; [exact Hp|].
  unfold Archive_getEntryCount, Archive_findEntry. rewrite Hes.
  split; [rewrite size_app; reflexivity|].
  split; [|split].
  - intros old H. rewrite findEntry_app, H. reflexivity.
  - intros H. rewrite findEntry_app, H. cbn [findEntry].
    rewrite Hp, String.eqb_refl. reflexivity.
  - intros q Hq. rewrite findEntry_app. cbn [findEntry].
    rewrite Hp. destruct (String.eqb_spec path q); [congruence|].
    destruct (findEntry (m_entries a) q); reflexivity.
Qed.

(** X20.  [processEntry] never reads the compression level of the
    options.  On an engine that is initialised already it does not read
    the password either, but for the test that it is not empty: the
    entry is encrypted under the key the engine holds, and the header
    of the archive is left as it is. *)
Theorem processEntry_ignores_level_and_later_passwords :
  forall (entry : VarcEntry) (options : CreateOptions) (w : World) (a : Archive)
         (level : Z) (pw : string),
    Archive_processEntry entry
      {| compress := compress options; compressionLevel := level;
         encrypt := encrypt options; password := password options |} w a
    = Archive_processEntry entry options w a
    /\ (CryptoEngine_isInitialized (m_crypto a) = true ->
        password options <> ""%string -> pw <> ""%string ->
        Archive_processEntry entry
          {| compress := compress options; compressionLevel := compressionLevel options;
             encrypt := encrypt options; password := pw |} w a
        = Archive_processEntry entry options w a)
    /\ (CryptoEngine_isInitialized (m_crypto a) = true ->
        encrypt options = true -> password options <> ""%string ->
        compress options = false ->
        exists e',
          Archive_processEntry entry options w a
          = Ret (true, w, set_modified (set_entries a (m_entries a ++ [e'])) true)
          /\ m_data e' = EVP_encrypt (m_key (m_crypto a)) (m_iv (m_crypto a)) (m_data entry)
          /\ VarcEntry_isEncrypted e' = true).
Proof.
  intros entry options w a level pw. split; [|split].
  - destruct options; reflexivity.
  - intros Hi Hp Hpw. destruct options as [co le en p]. cbn [password] in Hp.
    unfold Archive_processEntry, processEntry_encrypt, processEntry_compress.
    cbn [compress compressionLevel encrypt password].
    rewrite Hi. cbn [negb].
    destruct p; [contradiction|]. destruct pw; [contradiction|]. reflexivity.
  - intros Hi He Hp Hc.
    unfold Archive_processEntry, processEntry_encrypt, processEntry_compress.
    rewrite He, Hc, Hi. destruct (password options); [contradiction|].
    cbn [str_empty negb andb bind]. unfold CryptoEngine_encrypt. rewrite Hi.
    cbn [negb bind]. eexists. split; [reflexivity|]. split; [reflexivity|].
    unfold VarcEntry_isEncrypted, VarcEntry_setFlags. cbn [m_flags].
    unfold EntryFlags.ENCRYPTED. change 2 with (2 ^ 1). rewrite land_bit by lia.
    unfold u32, wrap. rewrite Z.mod_pow2_bits_low, Z.lor_spec by lia.
    rewrite orb_true_r. reflexivity.
Qed.

End EntryList.

(** ** Passwords *)

Section Passwords.
Context {prim : Primitives}.

Lemma str_empty_false (s : string) : s <> ""%string -> str_empty s = false.
Proof. destruct s; [contradiction | reflexivity]. Qed.

Lemma lor_sets_bit (w k f : Z) :
  0 <= k < w -> (Z.land (wrap w (Z.lor f (2 ^ k))) (2 ^ k) =? 0) = false.
Proof.
  intros Hk. rewrite land_bit by lia. unfold wrap.
  rewrite Z.mod_pow2_bits_low, Z.lor_spec, Z.pow2_bits_true by lia.
  rewrite orb_true_r. reflexivity.
Qed.

Lemma generateSalt_length (k : entropy) :
  length (fst (CryptoEngine_generateSalt k)) = 32%nat.
Proof. apply resize_length. Qed.

Lemma generateIV_length (k : entropy) :
  length (fst (CryptoEngine_generateIV k)) = 16%nat.
Proof. apply resize_length. Qed.

Lemma array_copy_firstn (a src : list byte) :
  firstn (length src) (array_copy a src) = src.
Proof.
  unfold array_copy. rewrite firstn_app, firstn_all, Nat.sub_diag, firstn_0.
  apply app_nil_r.
Qed.

(** X21.  [lock] refuses the empty password.  With any other it
    answers [true]: the header gets a fresh salt and the ENCRYPTED flag,
    every entry gets the ENCRYPTED flag, and that is all.  No byte of
    any entry is encrypted: content, checksum and sizes stay, and a
    later [unlock] with any password whatever takes the flags off
    again. *)
Theorem lock_only_sets_flags :
  forall (password other : string) (w : World) (a : Archive),
    (password = ""%string ->
     Archive_lock password w a = Ret (false, w, set_error a "Password cannot be empty"))
    /\ (password <> ""%string ->
        exists w' a',
          Archive_lock password w a = Ret (true, w', a')
          /\ GlobalHeader_isEncrypted (m_header a') = true
          /\ firstn 32 (salt (m_header a')) = fst (CryptoEngine_generateSalt (rand w))
          /\ Forall (fun e => VarcEntry_isEncrypted e = true) (m_entries a')
          /\ map m_relativePath (m_entries a') = map m_relativePath (m_entries a)
          /\ map m_data (m_entries a') = map m_data (m_entries a)
          /\ map m_checksum (m_entries a') = map m_checksum (m_entries a)
          /\ map m_originalSize (m_entries a') = map m_originalSize (m_entries a)
          /\ m_modified a' = true
          /\ files w' = files w
          /\ (other <> ""%string ->
              exists w'' a'',
                Archive_unlock other w' a' = Ret (true, w'', a'')
                /\ GlobalHeader_isEncrypted (m_header a'') = false
                /\ map m_data (m_entries a'') = map m_data (m_entries a))).
Proof.
  intros password other w a. split.
  - intros ->. reflexivity.
  - intros Hp. apply str_empty_false in Hp.
    unfold Archive_lock. rewrite Hp.
    cbn [CryptoEngine_generateSalt CryptoEngine_generateIV].
    destruct (initializeFromPassword_ok (m_crypto a) password
                (resize (RAND_bytes (rand w) SALT_SIZE) SALT_SIZE) (S (S (rand w))) Hp)
      as (c' & -> & _).
    cbn [bind]. do 2 eexists. split; [reflexivity|].
    cbn [m_header m_entries m_modified set_modified set_entries set_crypto set_header
         files with_rand].
    assert (Henc : GlobalHeader_isEncrypted
                     (header_set_flags
                        (header_set_salt_iv (m_header a)
                           (resize (RAND_bytes (rand w) SALT_SIZE) SALT_SIZE)
                           (resize (RAND_bytes (S (rand w)) IV_SIZE) IV_SIZE))
                        (u16 (Z.lor
                                (gflags (header_set_salt_iv (m_header a)
                                           (resize (RAND_bytes (rand w) SALT_SIZE) SALT_SIZE)
                                           (resize (RAND_bytes (S (rand w)) IV_SIZE) IV_SIZE)))
                                ArchiveFlags.ENCRYPTED))) = true).
    { unfold GlobalHeader_isEncrypted, header_set_flags. cbn [gflags].
      unfold u16, ArchiveFlags.ENCRYPTED. change 1 with (2 ^ 0).
      rewrite lor_sets_bit by lia. reflexivity. }
    split; [exact Henc|]. split.
    { cbn [salt header_set_flags header_set_salt_iv].
      pose proof (array_copy_firstn (salt (m_header a))
                    (resize (RAND_bytes (rand w) SALT_SIZE) SALT_SIZE)) as E.
      rewrite resize_length in E. exact E. }
    split.
    { apply Forall_forall. intros e He. apply in_map_iff in He.
      destruct He as (e0 & <- & _).
      unfold VarcEntry_isEncrypted, VarcEntry_setFlags. cbn [m_flags].
      unfold u32, EntryFlags.ENCRYPTED. change 2 with (2 ^ 1).
      rewrite lor_sets_bit by lia. reflexivity. }
    rewrite !map_map. cbn [m_relativePath m_data m_checksum m_originalSize VarcEntry_setFlags].
    repeat (split; [reflexivity|]).
    intros Ho. apply str_empty_false in Ho.
    unfold Archive_unlock.
    cbn [m_header m_entries m_crypto set_modified set_entries set_crypto set_header
         rand with_rand].
    rewrite Henc. cbn [negb].
    match goal with
    | |- context [CryptoEngine_initializeFromPassword ?c other ?s ?k] =>
        destruct (initializeFromPassword_ok c other s k Ho) as (c'' & -> & _)
    end.
    do 2 eexists. split; [reflexivity|].
    cbn [m_header m_entries set_modified set_entries set_crypto set_header].
    split.
    + unfold GlobalHeader_isEncrypted, header_set_flags. cbn [gflags].
      unfold u16 at 1. unfold ArchiveFlags.ENCRYPTED at 1 2. change 1 with (2 ^ 0).
      rewrite land_clear_bit by lia. reflexivity.
    + rewrite !map_map. reflexivity.
Qed.

(** X22.  [changePassword] refuses an archive that is not ENCRYPTED and
    throws on an empty old password; any other old password is taken,
    and which one it is makes no difference to the outcome.  The header
    gets a fresh salt, the entries are left as they are: nothing is
    encrypted anew. *)
Theorem changePassword_checks_no_password :
  forall (oldPassword newPassword : string) (w : World) (a : Archive),
    (GlobalHeader_isEncrypted (m_header a) = false ->
     Archive_changePassword oldPassword newPassword w a
     = Ret (false, w, set_error a "Archive is not encrypted"))
    /\ (GlobalHeader_isEncrypted (m_header a) = true ->
        Archive_changePassword "" newPassword w a
        = Throw "Password cannot be empty for key derivation")
    /\ (GlobalHeader_isEncrypted (m_header a) = true ->
        oldPassword <> ""%string -> newPassword <> ""%string ->
        exists w' a',
          Archive_changePassword oldPassword newPassword w a = Ret (true, w', a')
          /\ m_entries a' = m_entries a
          /\ GlobalHeader_isEncrypted (m_header a') = true
          /\ firstn 32 (salt (m_header a')) = fst (CryptoEngine_generateSalt (rand w))
          /\ m_modified a' = true
          /\ (forall other, other <> ""%string ->
                            Archive_changePassword other newPassword w a
                            = Ret (true, w', a'))).
Proof.
  intros oldPassword newPassword w a. split; [|split].
  - intros H. unfold Archive_changePassword. rewrite H. reflexivity.
  - intros H. unfold Archive_changePassword. rewrite H. reflexivity.
  - intros H Ho Hn. apply str_empty_false in Ho. apply str_empty_false in Hn.
    assert (G : forall old, str_empty old = false ->
                Archive_changePassword old newPassword w a
                = (let (newSalt, k) := CryptoEngine_generateSalt (rand w) in
                   let (newIV, k) := CryptoEngine_generateIV k in
                   let h := header_set_salt_iv (m_header a) newSalt newIV in
                   '(c, k) <- CryptoEngine_initializeFromPassword
                                (m_crypto a) newPassword newSalt k ;;
                   Ret (true, with_rand w k,
                        set_modified (set_crypto (set_header a h) c) true))).
    { intros old Hold. unfold Archive_changePassword, CryptoEngine_deriveKey.
      rewrite H, Hold. reflexivity. }
    rewrite (G oldPassword Ho).
    cbn [CryptoEngine_generateSalt CryptoEngine_generateIV].
    destruct (initializeFromPassword_ok (m_crypto a) newPassword
                (resize (RAND_bytes (rand w) SALT_SIZE) SALT_SIZE) (S (S (rand w))) Hn)
      as (c' & E & _).
    rewrite E. cbn [bind]. do 2 eexists. split; [reflexivity|].
    cbn [m_header m_entries m_modified set_modified set_crypto set_header].
    split; [reflexivity|]. split; [exact H|]. split.
    { cbn [salt header_set_salt_iv].
      pose proof (array_copy_firstn (salt (m_header a))
                    (resize (RAND_bytes (rand w) SALT_SIZE) SALT_SIZE)) as E'.
      rewrite resize_length in E'. exact E'. }
    split; [reflexivity|].
    intros other Hother. apply str_empty_false in Hother.
    rewrite (G other Hother).
    cbn [CryptoEngine_generateSalt CryptoEngine_generateIV].
    rewrite E. reflexivity.
Qed.

End Passwords.

(** ** Opening and saving *)

Section OpenAndSave.
Context {prim : Primitives}.

Lemma readEntries_as_loaded (n : nat) :
  forall (data : list byte) (offset : Z) (acc es : list VarcEntry) (err : option string),
    Forall as_loaded acc ->
    readEntries n data offset acc = Ret (err, es) ->
    Forall as_loaded es.
Proof.
  induction n as [|n IH]; intros data offset acc es err Hacc H.
  - cbn in H. injection H as _ <-. exact Hacc.
  - cbn [readEntries] in H.
    repeat match type of H with
           | (if ?c then _ else _) = _ =>
               destruct c; [first [discriminate H | injection H as _ <-; exact Hacc]|]
           | match ?c with Some _ => _ | None => _ end = _ =>
               destruct c; [|first [discriminate H | injection H as _ <-; exact Hacc]]
           end.
    eapply IH; [|exact H].
    apply Forall_app. split; [exact Hacc|]. constructor; [|constructor].
    unfold as_loaded. cbn. auto.
Qed.

Lemma readArchive_entries (password : string) (w w' : World) (a a' : Archive) :
  Archive_readArchive password w a = Ret (true, w', a') ->
  Forall as_loaded (m_entries a')
  /\ m_filepath a' = m_filepath a.
Proof.
  unfold Archive_readArchive.
  destruct (size (m_archiveData a) <? 64); [discriminate|].
  destruct (GlobalHeader_deserialize _ _) as [ok h] eqn:D.
  destruct ok; cbn [negb]; [|discriminate].
  destruct (GlobalHeader_isValid h); cbn [negb]; [|discriminate].
  assert (G : forall w1 a1,
             m_filepath a1 = m_filepath a ->
             (' (err, es) <- readEntries (Z.to_nat (fileCount h)) (m_archiveData a1) 64 [];;
              (let a2 := set_entries a1 es in
               match err with
               | Some msg => Ret (false, w1, set_error a2 msg)
               | None => Ret (true, w1, a2)
               end)) = Ret (true, w', a') ->
             Forall as_loaded (m_entries a') /\ m_filepath a' = m_filepath a).
  { intros w1 a1 Hp H.
    destruct (readEntries _ _ _ _) as [[err es]| |] eqn:R; cbn [bind] in H;
      try discriminate H.
    destruct err; [discriminate H|].
    injection H as _ <-. cbn [m_entries m_filepath set_entries].
    split; [|exact Hp].
    eapply readEntries_as_loaded; [|exact R]. constructor. }
  destruct (GlobalHeader_isEncrypted h).
  - destruct (str_empty password); cbn [bind]; [discriminate|].
    destruct (CryptoEngine_initializeFromPassword _ _ _ _) as [[c k]| |];
      cbn [bind]; try discriminate.
    apply G. reflexivity.
  - cbn [bind]. apply G. reflexivity.
Qed.

Lemma totals_as_loaded (es : list VarcEntry) :
  Forall as_loaded es ->
  forall t, fold_left (fun total entry => u64 (total + m_originalSize entry)) es t
            = fold_left (fun total entry => u64 (total + m_compressedSize entry)) es t.
Proof.
  induction 1 as [|e es (_ & _ & Ho & Hc) _ IH]; intros t; [reflexivity|].
  cbn [fold_left]. rewrite Ho, Hc. apply IH.
Qed.

(** X23.  Whatever file [open] has read with success, every entry it
    holds afterwards is a FILE whose two sizes are the length of the
    bytes read and whose checksum is the SHA-256 of these bytes: the
    sizes and the checksum found in the file are replaced by [setData].
    So every entry verifies against its own checksum, and the totals of
    original and compressed sizes are the same number. *)
Theorem open_recomputes_sizes_and_checksums :
  forall (f password : string) (w w' : World) (a a' : Archive),
    Archive_open f password w a = Ret (true, w', a') ->
    Forall (fun e =>
              m_type e = FILE
              /\ m_checksum e = CryptoEngine_sha256 (m_data e)
              /\ m_originalSize e = u64 (size (m_data e))
              /\ m_compressedSize e = u64 (size (m_data e))
              /\ CryptoEngine_verifyChecksum (m_data e) (m_checksum e) = true)
           (m_entries a')
    /\ Archive_getTotalOriginalSize a' = Archive_getTotalCompressedSize a'
    /\ Archive_isOpen a' = true
    /\ m_modified a' = false
    /\ m_filepath a' = f.
Proof.
  intros f password w w' a a'. unfold Archive_open.
  destruct (Archive_close w a) as [[w1 a1]| |]; cbn [bind]; try discriminate.
  destruct (files w1 f) as [content|]; [|discriminate].
  destruct (Archive_readArchive _ _ _) as [[[ok w2] a2]| |] eqn:R; cbn [bind];
    try discriminate.
  destruct ok; cbn [negb]; [|discriminate].
  intros [= <- <-]. apply readArchive_entries in R. destruct R as (L & P).
  cbn [m_entries m_modified m_filepath set_modified set_loaded Archive_isOpen m_loaded].
  split.
  - eapply Forall_impl; [|exact L].
    intros e (Ht & Hc & Ho & Hs). repeat split; auto.
    apply verifyChecksum_iff. exact Hc.
  - split; [|auto].
    unfold Archive_getTotalOriginalSize, Archive_getTotalCompressedSize.
    cbn [m_entries set_modified set_loaded]. apply totals_as_loaded. exact L.
Qed.

Lemma updateHeader_isEncrypted (a : Archive) :
  GlobalHeader_isEncrypted (m_header (Archive_updateHeader a)) = true ->
  GlobalHeader_isEncrypted (m_header a) = true.
Proof.
  destruct (m_entries a) as [|e es] eqn:E.
  - destruct (updateHeader_empty a E) as (H & _). rewrite H. discriminate.
  - unfold Archive_updateHeader. rewrite E. cbn [empty]. auto.
Qed.

Lemma reloaded_fields (es : list VarcEntry) :
  map m_relativePath (map reloaded es) = map m_relativePath es
  /\ map m_data (map reloaded es) = map m_data es
  /\ map m_flags (map reloaded es) = map m_flags es
  /\ Forall (fun e => m_type e = FILE) (map reloaded es).
Proof.
  rewrite !map_map. repeat split.
  apply Forall_forall. intros e H. apply in_map_iff in H.
  destruct H as (e0 & <- & _). reflexivity.
Qed.

(** X24.  An archive whose header and entries fit the format, each
    entry with a checksum of 32 bytes, is saved to a disk that keeps the
    file and opened again with the same list of entries: paths, contents
    and flags come back in their order, each entry as a FILE.  A
    password is needed when the header is ENCRYPTED, and only then. *)
Theorem save_then_open_gives_the_entries_back :
  forall (f password : string) (w : World) (a : Archive),
    f <> ""%string ->
    wf_header (m_header a) ->
    Forall wf_entry (m_entries a) ->
    size (m_entries a) < 2 ^ 32 ->
    64 + size (flat_map entry_record (m_entries a)) < 2 ^ 64 ->
    (GlobalHeader_isEncrypted (m_header a) = true -> password <> ""%string) ->
    keeps w f ->
    exists w2 a2 w3 a3,
      Archive_save f w a = Ret (true, w2, a2)
      /\ Archive_open f password w2 a2 = Ret (true, w3, a3)
      /\ map m_relativePath (m_entries a3) = map m_relativePath (m_entries a)
      /\ map m_data (m_entries a3) = map m_data (m_entries a)
      /\ map m_flags (m_entries a3) = map m_flags (m_entries a)
      /\ Forall (fun e => m_type e = FILE) (m_entries a3)
      /\ fileCount (m_header a3) = size (m_entries a).
Proof.
  intros f password w a Hf Hh Hwf Hn Hsz Hpw Hkeep.
  destruct (@save_open_roundtrip _ f password w a Hf Hh Hwf Hn Hsz)
    as (w3 & a3 & Hopen & Hes & Hc & _).
  { intros E. apply Hpw. apply updateHeader_isEncrypted. exact E. }
  { exact Hkeep. }
  exists (write_file w f (archive_bytes a)), (saved a f), w3, a3.
  split; [apply save_wf; try assumption; apply Hkeep|]. split; [exact Hopen|].
  rewrite Hes. destruct (reloaded_fields (m_entries a)) as (P & D & F & T).
  auto.
Qed.

(** X25.  An archive that is created and closed with nothing added
    leaves, on a disk that keeps the file, a file of 64 bytes, the
    header alone, and that file opens as an archive without entries.
    When the stream on the file does not open, [close] goes on all the
    same: the disk is as it was, the object is closed and empty, and the
    message that [save] had set is cleared. *)
Theorem create_then_close_leaves_an_empty_archive :
  forall (f : string) (w : World),
    f <> ""%string ->
    (Archive_create f w Archive_new = Ret (true, w, created f)
     /\ Archive_isOpen (created f) = true)
    /\ (keeps w f ->
        exists w2 a2 content,
          Archive_close w (created f) = Ret (w2, a2)
          /\ Archive_isOpen a2 = false
          /\ files w2 f = Some content
          /\ size content = 64
          /\ exists w3 a3,
               Archive_open f "" w2 a2 = Ret (true, w3, a3)
               /\ m_entries a3 = []
               /\ Archive_isOpen a3 = true)
    /\ (fs_opens (calls w) f = false ->
        exists a2,
          Archive_close w (created f) = Ret (w, a2)
          /\ Archive_isOpen a2 = false
          /\ m_entries a2 = []
          /\ m_errorMessage a2 = ""%string).
Proof.
  intros f w Hf.
  assert (Ef : str_empty f = false) by (apply str_empty_false; exact Hf).
  assert (Hwf : Forall wf_entry (m_entries (created f))) by constructor.
  assert (Hn : size (m_entries (created f)) < 2 ^ 32) by (cbn; lia).
  assert (Hsz : 64 + size (flat_map entry_record (m_entries (created f))) < 2 ^ 64)
    by (cbn; lia).
  split; [split; reflexivity|]. split.
  - intros Hkeep.
    assert (Hs : Archive_save "" w (created f)
                 = Ret (true, write_file w f (archive_bytes (created f)),
                        saved (created f) f)).
    { unfold Archive_save. cbn [str_empty m_filepath created]. rewrite Ef.
      rewrite writeArchive_wf by assumption. cbn [bind].
      rewrite (proj1 Hkeep). reflexivity. }
    assert (Hpw : GlobalHeader_isEncrypted
                    (m_header (Archive_updateHeader (created f))) = true
                  -> ""%string <> ""%string).
    { destruct (updateHeader_empty (created f) eq_refl) as (E & _).
      rewrite E. discriminate. }
    destruct (@save_open_roundtrip _ f "" w (created f) Hf default_header_wf Hwf Hn Hsz
                Hpw Hkeep)
      as (w3 & a3 & Hopen & Hes & _).
    do 3 eexists.
    split; [unfold Archive_close; cbn [m_modified created]; rewrite Hs; reflexivity|].
    split; [reflexivity|]. split; [apply Hkeep|].
    split; [unfold archive_bytes; cbn [created m_entries flat_map];
            rewrite app_nil_r; apply header_on_disk_size|].
    exists w3, a3.
    assert (Hfile : files (write_file w f (archive_bytes (created f))) f
                    = Some (archive_bytes (created f))) by apply Hkeep.
    erewrite open_unmodified; [|reflexivity | exact Hfile].
    erewrite open_unmodified in Hopen; [|reflexivity | exact Hfile].
    split; [exact Hopen|]. split; [exact Hes|].
    destruct (Archive_readArchive _ _ _) as [[[ok w4] a4]| |]; cbn [bind] in Hopen;
      try discriminate.
    destruct ok; cbn [negb] in Hopen; [|discriminate].
    injection Hopen as _ <-. reflexivity.
  - intros Hno. eexists. split.
    + unfold Archive_close. cbn [m_modified created].
      unfold Archive_save. cbn [str_empty m_filepath created]. rewrite Ef.
      rewrite writeArchive_wf by assumption. cbn [bind].
      rewrite Hno. reflexivity.
    + repeat split.
Qed.

(** X26.  [open] turns down, with a message of its own for each case,
    a file that does not exist, a file of fewer than 64 bytes, and a
    file that does not start with [VARC]; the archive object is then
    not open and holds no entry. *)
Theorem open_refuses_what_is_no_archive :
  forall (f password : string) (w : World) (a : Archive),
    m_modified a = false ->
    (files w f = None ->
     exists a', Archive_open f password w a = Ret (false, w, a')
                /\ m_errorMessage a' = ("Cannot open archive file: " ++ f)%string
                /\ Archive_isOpen a' = false /\ m_entries a' = [])
    /\ (forall content, files w f = Some content -> size content < 64 ->
        exists a', Archive_open f password w a = Ret (false, w, a')
                   /\ m_errorMessage a' = "Archive file too small"%string
                   /\ Archive_isOpen a' = false /\ m_entries a' = [])
    /\ (forall content, files w f = Some content -> 64 <= size content ->
        firstn 4 content <> VARC_SIGNATURE ->
        exists a', Archive_open f password w a = Ret (false, w, a')
                   /\ m_errorMessage a' = "Invalid archive header"%string
                   /\ Archive_isOpen a' = false /\ m_entries a' = [])
    /\ (forall content h, files w f = Some content -> 64 <= size content < 90 ->
        GlobalHeader_deserialize GlobalHeader_default (firstn 64 content) = (true, h) ->
        GlobalHeader_isEncrypted h = false -> fileCount h <> 0 ->
        exists a', Archive_open f password w a = Ret (false, w, a')
                   /\ m_errorMessage a' = "Unexpected end of archive"%string
                   /\ Archive_isOpen a' = false /\ m_entries a' = []).
Proof.
  intros f password w a Hm. split; [|split; [|split]].
  - intros Hnone. unfold Archive_open, Archive_close. rewrite Hm. cbn [bind].
    rewrite Hnone. eexists. split; [reflexivity|]. repeat split.
  - intros content Hfile Hs.
    rewrite (@open_unmodified _ f password w a content Hm Hfile).
    unfold Archive_readArchive. cbn [m_archiveData opening set_archiveData].
    destruct (Z.ltb_spec (size content) 64); [|lia].
    cbn [bind negb]. eexists. split; [reflexivity|]. repeat split.
  - intros content Hfile Hs Hsig.
    rewrite (@open_unmodified _ f password w a content Hm Hfile).
    unfold Archive_readArchive. cbn [m_archiveData opening set_archiveData].
    destruct (Z.ltb_spec (size content) 64); [lia|].
    destruct (GlobalHeader_deserialize _ _) as [ok h] eqn:D.
    assert (Hok : ok = false).
    { destruct ok; [|reflexivity]. exfalso.
      pose proof (GlobalHeader_deserialize_accepts
                    (m_header (set_filepath
                       {| m_filepath := ""; m_header := GlobalHeader_default;
                          m_entries := []; m_archiveData := []; m_modified := false;
                          m_loaded := false; m_errorMessage := "";
                          m_crypto := m_crypto a; m_compression := m_compression a |} f))
                    (firstn 64 content)) as A.
      cbn [m_header set_filepath set_archiveData opening] in *.
      rewrite D in A. cbn [fst] in A. destruct A as [A _].
      destruct (A eq_refl) as (_ & S4). apply Hsig.
      rewrite <- S4. rewrite firstn_firstn. reflexivity. }
    subst ok. cbn [negb bind]. eexists. split; [reflexivity|]. repeat split.
  - intros content h Hfile Hs D Henc Hfc.
    rewrite (@open_unmodified _ f password w a content Hm Hfile).
    unfold Archive_readArchive. cbn [m_archiveData m_header opening set_archiveData
                                     set_filepath].
    destruct (Z.ltb_spec (size content) 64); [lia|].
    rewrite D. cbn [negb].
    assert (V : GlobalHeader_isValid h = true).
    { revert D. unfold GlobalHeader_deserialize.
      destruct (size (firstn 64 content) <? 64); [discriminate|].
      destruct (bytes_eqb (peek (firstn 64 content) 0 4) VARC_SIGNATURE) eqn:B;
        cbn [negb]; [|discriminate].
      intros [= <-]. exact B. }
    rewrite V, Henc. cbn [negb bind].
    pose proof (deserialize_fileCount _ _ D) as R.
    destruct (Z.to_nat (fileCount h)) as [|n] eqn:N; [lia|].
    cbn [readEntries m_archiveData set_header].
    change (m_archiveData (opening a f content)) with content.
    change (u64 (64 + Z.of_nat EntryHeader_fixedSize)) with 90.
    destruct (Z.ltb_spec (size content) 90); [|lia].
    cbn [bind negb]. eexists. split; [reflexivity|]. repeat split.
Qed.

End OpenAndSave.

(** ** Extraction *)

Section Extraction.
Context {prim : Primitives}.

Lemma findEntry_some (es : list VarcEntry) (path : string) (e : VarcEntry) :
  findEntry es path = Some e -> In e es /\ m_relativePath e = path.
Proof.
  induction es as [|x es IH]; [discriminate|].
  cbn [findEntry]. destruct (String.eqb_spec (m_relativePath x) path) as [E|E].
  - intros [= <-]. split; [left; reflexivity | exact E].
  - intros H. apply IH in H. destruct H. split; [right; assumption | assumption].
Qed.

Lemma append_inj (s a b : string) : (s ++ a = s ++ b)%string -> a = b.
Proof.
  induction s as [|c s IH]; cbn [append]; [auto|].
  intros [= H]. apply IH. exact H.
Qed.

Lemma output_of_inj (outputDir : string) (a : Archive) (e1 e2 : VarcEntry) :
  output_of outputDir e1 = output_of outputDir e2 ->
  Archive_getEntryData a (m_relativePath e1) = Archive_getEntryData a (m_relativePath e2).
Proof.
  unfold output_of. intros H.
  apply append_inj in H. apply (@append_inj "/") in H. rewrite H. reflexivity.
Qed.

(** Entries whose original size is the length of the bytes they hold,
    as after [open] and after [addFile]: [extractFile] makes the parent
    directory and hands the stream what [getEntryData] gives. *)
Lemma extractFile_writes (a : Archive) (e : VarcEntry) (out password : string) (w : World) :
  Forall (fun x => m_originalSize x = u64 (size (m_data x))) (m_entries a) ->
  In e (m_entries a) ->
  Archive_extractFile (m_relativePath e) out password w a
  = (w1 <- make_parent w out ;;
     if negb (fs_opens (calls w1) out)
     then Ret (false, w1, set_error a ("Cannot create output file: " ++ out))
     else Ret (true, write_file w1 out (Archive_getEntryData a (m_relativePath e)), a)).
Proof.
  intros Hgood Hin. unfold Archive_extractFile, Archive_getEntryData, Archive_findEntry.
  destruct (findEntry_in (m_entries a) e Hin) as (first & E). rewrite E.
  apply findEntry_some in E. destruct E as (Hf & _).
  rewrite Forall_forall in Hgood. rewrite (Hgood first Hf).
  destruct (m_data first) as [|b d]; cbn [empty andb]; reflexivity.
Qed.

Lemma u64_add_l (x y : Z) : u64 (u64 x + y) = u64 (x + y).
Proof. unfold u64, wrap. apply Z.add_mod_idemp_l. pow64. lia. Qed.

Lemma hits_dec (options : ExtractOptions) (outputDir p : string) (es : list VarcEntry) :
  hits options outputDir p es \/ ~ hits options outputDir p es.
Proof.
  destruct (existsb (fun e => selected options e && String.eqb (output_of outputDir e) p) es)
    eqn:E.
  - left. apply existsb_exists in E. destruct E as (e & Hin & H).
    apply andb_true_iff in H. destruct H as (Hs & Hp). apply String.eqb_eq in Hp.
    exists e. auto.
  - right. intros (e & Hin & Hs & Hp).
    assert (T : existsb (fun e => selected options e && String.eqb (output_of outputDir e) p) es
                = true).
    { apply existsb_exists. exists e. split; [exact Hin|].
      rewrite Hs, Hp, String.eqb_refl. reflexivity. }
    congruence.
Qed.

Lemma hits_skip (options : ExtractOptions) (outputDir p : string)
    (e0 : VarcEntry) (es : list VarcEntry) :
  selected options e0 = false ->
  (hits options outputDir p (e0 :: es) <-> hits options outputDir p es).
Proof.
  intros H0. split.
  - intros (e & [<-|Hin] & Hs & Hp); [congruence|]. exists e. auto.
  - intros (e & Hin & Hs & Hp). exists e. split; [right; exact Hin | auto].
Qed.

Section Served.

Variable good : list fs_call -> Prop.
Variables outputDir password : string.
Variable options : ExtractOptions.
Variable a : Archive.

Hypothesis sizes : Forall (fun x => m_originalSize x = u64 (size (m_data x))) (m_entries a).
Hypothesis served : serves good options outputDir (m_entries a).

(** The output files read in [w1] as they do in [w]. *)
Let same_reads (w1 w : World) : Prop :=
  forall e, In e (m_entries a) -> selected options e = true ->
            files w1 (output_of outputDir e) = files w (output_of outputDir e).

Lemma make_directories_served (w : World) (d : string) :
  good (calls w) -> made_by options outputDir (m_entries a) d ->
  exists w1, make_directories w d = Ret w1 /\ good (calls w1) /\ same_reads w1 w.
Proof.
  intros Hg Hd. destruct served as (Hmk & _).
  destruct (Hmk (calls w) d Hg Hd) as (E & Hg1 & Hfr).
  unfold make_directories. rewrite E. eexists. split; [reflexivity|].
  split; [exact Hg1|]. intros e Hin Hs. apply Hfr; assumption.
Qed.

Lemma make_parent_served (w : World) (e0 : VarcEntry) :
  good (calls w) -> In e0 (m_entries a) -> selected options e0 = true ->
  exists w1, make_parent w (output_of outputDir e0) = Ret w1
             /\ good (calls w1) /\ same_reads w1 w.
Proof.
  intros Hg Hin Hs. unfold make_parent.
  destruct (str_empty (fs_parent_path (output_of outputDir e0))) eqn:E.
  - exists w. split; [reflexivity|]. split; [exact Hg|]. intros e _ _. reflexivity.
  - apply make_directories_served; [exact Hg|].
    right. right. exists e0. auto.
Qed.

(** The loop of [extractAll] on a disk that serves the extraction. *)
Lemma extractAll_loop_served :
  forall (es : list VarcEntry) (result : ArchiveResult) (w : World),
    incl es (m_entries a) ->
    good (calls w) ->
    exists result' w',
      extractAll_loop es outputDir password options result w a = Ret (result', w', a)
      /\ r_success result' = r_success result
      /\ u64 (filesProcessed result')
         = u64 (filesProcessed result + size (List.filter (selected options) es))
      /\ (0 <= filesProcessed result < 2 ^ 64 -> 0 <= filesProcessed result' < 2 ^ 64)
      /\ good (calls w')
      /\ (forall e, In e (m_entries a) -> selected options e = true ->
            (hits options outputDir (output_of outputDir e) es ->
             files w' (output_of outputDir e)
             = Some (Archive_getEntryData a (m_relativePath e)))
            /\ (~ hits options outputDir (output_of outputDir e) es ->
                files w' (output_of outputDir e) = files w (output_of outputDir e))).
Proof.
  induction es as [|e0 es IH]; intros result w Hincl Hg.
  - exists result, w. cbn [extractAll_loop List.filter].
    split; [reflexivity|]. split; [reflexivity|].
    split; [change (size []) with 0; rewrite Z.add_0_r; reflexivity|].
    split; [auto|]. split; [exact Hg|].
    intros e _ _. split; [intros (x & [] & _) | reflexivity].
  - assert (Hincl' : incl es (m_entries a)) by (intros x Hx; apply Hincl; right; exact Hx).
    assert (Hin0 : In e0 (m_entries a)) by (apply Hincl; left; reflexivity).
    cbn [extractAll_loop List.filter].
    destruct (selected options e0) eqn:S0.
    + pose proof S0 as S0'.
      unfold selected in S0. apply andb_true_iff in S0. destruct S0 as (Sd & Sf).
      apply negb_true_iff in Sd. rewrite Sd, Sf. cbn [negb].
      fold (output_of outputDir e0).
      destruct (make_parent_served w e0 Hg Hin0 S0') as (w1 & -> & Hg1 & Hr1).
      cbn [bind].
      rewrite (@extractFile_writes a e0 _ password w1 sizes Hin0).
      destruct (make_parent_served w1 e0 Hg1 Hin0 S0') as (w2 & -> & Hg2 & Hr2).
      cbn [bind].
      destruct served as (_ & Hwr).
      destruct (Hwr (calls w2) e0 (Archive_getEntryData a (m_relativePath e0))
                    Hg2 Hin0 S0') as (Ho & Hg3 & Hrb & Hfr).
      rewrite Ho. cbn [negb bind].
      match goal with
      | |- context [extractAll_loop es _ _ _ ?r ?w3 a] =>
          destruct (IH r w3 Hincl' Hg3)
            as (result' & w' & E & Hsucc & Hfp & Hrg & Hg' & HI)
      end.
      exists result', w'. rewrite E. cbn [r_success filesProcessed] in *.
      split; [reflexivity|]. split; [exact Hsucc|]. split.
      { rewrite Hfp, u64_add_l. f_equal. unfold size. cbn [length]. lia. }
      split.
      { intros _. apply Hrg. unfold u64. apply wrap_range. lia. }
      split; [exact Hg'|].
      intros e Hin Hs. destruct (HI e Hin Hs) as (HIa & HIb).
      destruct (hits_dec options outputDir (output_of outputDir e) es) as [Ht|Ht].
      * split; [intros _; apply HIa; exact Ht|].
        intros Hn. exfalso. apply Hn.
        destruct Ht as (x & Hx & Hxs & Hxo). exists x. split; [right; exact Hx | auto].
      * assert (K : files w' (output_of outputDir e)
                    = fs_read (calls w2 ++ [Wrote (output_of outputDir e0)
                                              (Archive_getEntryData a (m_relativePath e0))])
                              (output_of outputDir e))
          by (rewrite (HIb Ht); reflexivity).
        destruct (String.eqb_spec (output_of outputDir e) (output_of outputDir e0))
          as [Eq|Ne].
        -- split.
           ++ intros _. rewrite K, Eq, Hrb. f_equal.
              apply (@output_of_inj outputDir a e0 e). symmetry. exact Eq.
           ++ intros Hn. exfalso. apply Hn. exists e0.
              split; [left; reflexivity|]. split; [exact S0'|]. symmetry. exact Eq.
        -- split.
           ++ intros (x & [<-|Hx] & Hxs & Hxo); [congruence|].
              exfalso. apply Ht. exists x. auto.
           ++ intros _. rewrite K, (Hfr e Hin Hs Ne).
              fold (files w2 (output_of outputDir e)).
              rewrite (Hr2 e Hin Hs). apply (Hr1 e Hin Hs).
    + unfold selected in S0.
      destruct (VarcEntry_isDirectory e0) eqn:Sd.
      * destruct (@make_directories_served w (output_of outputDir e0) Hg)
          as (w1 & Hm & Hg1 & Hr1).
        { right. left. exists e0. auto. }
        unfold output_of in Hm. rewrite Hm. cbn [bind].
        destruct (IH result w1 Hincl' Hg1)
          as (result' & w' & E & Hsucc & Hfp & Hrg & Hg' & HI).
        exists result', w'. split; [exact E|]. split; [exact Hsucc|].
        split; [exact Hfp|]. split; [exact Hrg|]. split; [exact Hg'|].
        intros e Hin Hs. destruct (HI e Hin Hs) as (HIa & HIb).
        assert (S0' : selected options e0 = false)
          by (unfold selected; rewrite Sd; reflexivity).
        split.
        -- intros Hh. apply HIa. apply (@hits_skip options outputDir _ e0 es S0'). exact Hh.
        -- intros Hn. rewrite HIb.
           ++ apply (Hr1 e Hin Hs).
           ++ intros Hh. apply Hn. apply (@hits_skip options outputDir _ e0 es S0'). exact Hh.
      * cbn [negb andb] in S0. rewrite S0. cbn [negb].
        destruct (IH result w Hincl' Hg)
          as (result' & w' & E & Hsucc & Hfp & Hrg & Hg' & HI).
        exists result', w'. split; [exact E|]. split; [exact Hsucc|].
        split; [exact Hfp|]. split; [exact Hrg|]. split; [exact Hg'|].
        intros e Hin Hs. destruct (HI e Hin Hs) as (HIa & HIb).
        assert (S0' : selected options e0 = false)
          by (unfold selected; rewrite Sd, S0; reflexivity).
        split.
        -- intros Hh. apply HIa. apply (@hits_skip options outputDir _ e0 es S0'). exact Hh.
        -- intros Hn. apply HIb.
           intros Hh. apply Hn. apply (@hits_skip options outputDir _ e0 es S0'). exact Hh.
Qed.

End Served.

(** [extractAll] on a disk that serves the extraction. *)
Lemma extractAll_served (good : list fs_call -> Prop) (outputDir password : string)
    (options : ExtractOptions) (w : World) (a : Archive) :
  (GlobalHeader_isEncrypted (m_header a) = true -> password <> ""%string) ->
  Forall (fun x => m_originalSize x = u64 (size (m_data x))) (m_entries a) ->
  good (calls w) ->
  serves good options outputDir (m_entries a) ->
  exists result w' a',
    Archive_extractAll outputDir password options w a = Ret (result, w', a')
    /\ r_success result = true
    /\ filesProcessed result = u64 (size (List.filter (selected options) (m_entries a)))
    /\ m_entries a' = m_entries a
    /\ (forall e, In e (m_entries a) -> selected options e = true ->
                  files w' (output_of outputDir e)
                  = Some (Archive_getEntryData a (m_relativePath e))).
Proof.
  intros Hpw Hsizes Hg Hserved. unfold Archive_extractAll.
  destruct (@make_directories_served good outputDir options a Hserved w outputDir Hg)
    as (w1 & -> & Hg1 & _); [left; reflexivity|].
  cbn [bind].
  assert (G : forall w0 a0,
             calls w0 = calls w1 -> m_entries a0 = m_entries a ->
             exists result w' a',
               extractAll_loop (m_entries a0) outputDir password options
                 {| r_success := true; filesProcessed := 0; bytesProcessed := 0 |} w0 a0
               = Ret (result, w', a')
               /\ r_success result = true
               /\ filesProcessed result
                  = u64 (size (List.filter (selected options) (m_entries a)))
               /\ m_entries a' = m_entries a
               /\ (forall e, In e (m_entries a) -> selected options e = true ->
                             files w' (output_of outputDir e)
                             = Some (Archive_getEntryData a (m_relativePath e)))).
  { intros w0 a0 Hc Hes.
    assert (Hsizes0 : Forall (fun x => m_originalSize x = u64 (size (m_data x)))
                             (m_entries a0)) by (rewrite Hes; exact Hsizes).
    assert (Hserved0 : serves good options outputDir (m_entries a0))
      by (rewrite Hes; exact Hserved).
    destruct (@extractAll_loop_served good outputDir password options a0 Hsizes0 Hserved0
                (m_entries a0)
                {| r_success := true; filesProcessed := 0; bytesProcessed := 0 |} w0
                (incl_refl _))
      as (result' & w' & E & Hsucc & Hfp & Hrg & Hg' & HI).
    { rewrite Hc. exact Hg1. }
    exists result', w', a0. split; [exact E|]. split; [exact Hsucc|]. split.
    { cbn [filesProcessed] in Hfp, Hrg. rewrite Z.add_0_l in Hfp.
      rewrite <- Hes, <- Hfp. symmetry. apply u64_small. apply Hrg. pow64. lia. }
    split; [exact Hes|].
    intros e Hin Hs. rewrite <- Hes in Hin.
    replace (Archive_getEntryData a (m_relativePath e))
      with (Archive_getEntryData a0 (m_relativePath e))
      by (unfold Archive_getEntryData, Archive_findEntry; rewrite Hes; reflexivity).
    apply (HI e Hin Hs). exists e. auto. }
  destruct (GlobalHeader_isEncrypted (m_header a)) eqn:Enc.
  - specialize (Hpw eq_refl). apply str_empty_false in Hpw. rewrite Hpw.
    destruct (initializeFromPassword_ok (m_crypto a) password (salt (m_header a))
                (rand w1) Hpw) as (c' & -> & _).
    cbn [bind]. apply G; reflexivity.
  - cbn [bind]. apply G; reflexivity.
Qed.

(** X27.  [extractAll] on an archive whose entries hold the bytes their
    original size announces (as after [open] or [addFile]), on a disk
    that serves the extraction: it succeeds; it writes, for every entry
    that is no directory and passes the filter, the file
    [outputDir/path], and counts these entries; the file then holds
    what [getEntryData] gives for the path, which is the content of the
    first entry of that path, also where a later entry of the same path
    was written. *)
Theorem extractAll_writes_the_first_entry_of_each_path :
  forall (good : list fs_call -> Prop) (outputDir password : string)
         (options : ExtractOptions) (w : World) (a : Archive),
    (GlobalHeader_isEncrypted (m_header a) = true -> password <> ""%string) ->
    Forall (fun e => m_originalSize e = u64 (size (m_data e))) (m_entries a) ->
    good (calls w) ->
    serves good options outputDir (m_entries a) ->
    exists result w' a',
      Archive_extractAll outputDir password options w a = Ret (result, w', a')
      /\ r_success result = true
      /\ filesProcessed result = u64 (size (List.filter (selected options) (m_entries a)))
      /\ m_entries a' = m_entries a
      /\ (forall e, In e (m_entries a) -> selected options e = true ->
                    files w' (output_of outputDir e)
                    = Some (Archive_getEntryData a (m_relativePath e)))
      /\ (forall e first,
             In e (m_entries a) -> selected options e = true ->
             Archive_findEntry a (m_relativePath e) = Some first ->
             files w' (output_of outputDir e) = Some (m_data first)).
Proof.
  intros good outputDir password options w a Hpw Hsizes Hg Hserved.
  destruct (@extractAll_served good outputDir password options w a Hpw Hsizes Hg Hserved)
    as (result & w' & a' & E & Hsucc & Hfp & Hes & Hfiles).
  exists result, w', a'. split; [exact E|]. split; [exact Hsucc|].
  split; [exact Hfp|]. split; [exact Hes|]. split; [exact Hfiles|].
  intros e first Hin Hs Hfirst. rewrite (Hfiles e Hin Hs).
  unfold Archive_getEntryData. rewrite Hfirst. reflexivity.
Qed.

(** X28.  [extractPattern] hands the paths of the matching entries to
    [extractAll] as its filter, and an empty filter lets everything
    through: when no entry matches the pattern, [extractPattern] is
    [extractAll] without a filter, and on a disk that serves that
    extraction every entry that is no directory is written. *)
Theorem extractPattern_without_a_match_extracts_all :
  forall (good : list fs_call -> Prop) (pattern outputDir password : string)
         (w : World) (a : Archive),
    let everything :=
      {| overwrite := false; preservePermissions := true; preserveTimestamps := true;
         outputDirectory := outputDir; x_filter := [] |} in
    Archive_findEntries a pattern = [] ->
    (GlobalHeader_isEncrypted (m_header a) = true -> password <> ""%string) ->
    Forall (fun e => m_originalSize e = u64 (size (m_data e))) (m_entries a) ->
    good (calls w) ->
    serves good everything outputDir (m_entries a) ->
    Archive_extractPattern pattern outputDir password w a
    = Archive_extractAll outputDir password everything w a
    /\ exists result w' a',
         Archive_extractPattern pattern outputDir password w a = Ret (result, w', a')
         /\ r_success result = true
         /\ forall e, In e (m_entries a) -> VarcEntry_isDirectory e = false ->
                      files w' (output_of outputDir e)
                      = Some (Archive_getEntryData a (m_relativePath e)).
Proof.
  intros good pattern outputDir password w a everything Hnone Hpw Hsizes Hg Hserved.
  assert (E : Archive_extractPattern pattern outputDir password w a
              = Archive_extractAll outputDir password everything w a).
  { unfold Archive_extractPattern. rewrite Hnone. reflexivity. }
  split; [exact E|]. rewrite E.
  destruct (@extractAll_served good outputDir password everything w a Hpw Hsizes Hg Hserved)
    as (result & w' & a' & Ex & Hsucc & _ & _ & Hfiles).
  exists result, w', a'. split; [exact Ex|]. split; [exact Hsucc|].
  intros e Hin Hd. apply (Hfiles e Hin).
  unfold selected, passes_filter, everything. cbn [x_filter empty]. rewrite Hd. reflexivity.
Qed.

End Extraction.

(** ** Metadata of an archive *)

Section MetadataObject.
Context {prim : Primitives}.

Lemma isEncrypted_bit (h : GlobalHeader) :
  GlobalHeader_isEncrypted h = Z.testbit (gflags h) 0.
Proof.
  unfold GlobalHeader_isEncrypted, ArchiveFlags.ENCRYPTED.
  change 1 with (2 ^ 0). rewrite land_bit by lia. apply negb_involutive.
Qed.

Lemma updateHeader_bit (a : Archive) (k : Z) :
  2 <= k < 16 ->
  Z.testbit (gflags (m_header (Archive_updateHeader a))) k
  = Z.testbit (gflags (m_header a)) k.
Proof.
  intros Hk. unfold Archive_updateHeader.
  destruct (empty (m_entries a)); [|reflexivity].
  cbn [m_header set_header gflags header_set_flags header_set_fileCount].
  unfold u16, wrap, ArchiveFlags.ENCRYPTED, ArchiveFlags.COMPRESSED.
  rewrite !Z.mod_pow2_bits_low, !Z.land_spec, !Z.lnot_spec by lia.
  rewrite Z.mod_pow2_bits_low, Z.land_spec, Z.lnot_spec by lia.
  change 1 with (2 ^ 0). change 2 with (2 ^ 1) at 2.
  rewrite !Z.pow2_bits_false by lia. cbn [negb]. rewrite !andb_true_r. reflexivity.
Qed.

Lemma updateHeader_clears_encrypted (a : Archive) :
  GlobalHeader_isEncrypted (m_header a) = false ->
  GlobalHeader_isEncrypted (m_header (Archive_updateHeader a)) = false.
Proof.
  intros H.
  destruct (GlobalHeader_isEncrypted (m_header (Archive_updateHeader a))) eqn:E;
    [|reflexivity].
  apply updateHeader_isEncrypted in E. congruence.
Qed.

(** X29.  [setMetadata] keeps nothing of the metadata it is given: it
    sets the HAS_METADATA flag and marks the archive as modified, and
    [getMetadata] answers with empty metadata.  The file that is then
    saved, on a disk that keeps it, has the length of the header and
    the entries, with no room for metadata, and opens with the flag
    set. *)
Theorem setMetadata_keeps_no_metadata :
  forall (m1 m2 : ArchiveMetadata) (first : Z) (f : string) (w : World) (a : Archive),
    Archive_setMetadata m1 a = Archive_setMetadata m2 a
    /\ Archive_getMetadata first (Archive_setMetadata m1 a) = ArchiveMetadata_new first
    /\ creator (Archive_getMetadata first (Archive_setMetadata m1 a)) = ""%string
    /\ m_entries (Archive_setMetadata m1 a) = m_entries a
    /\ m_modified (Archive_setMetadata m1 a) = true
    /\ Z.land (gflags (m_header (Archive_setMetadata m1 a))) ArchiveFlags.HAS_METADATA <> 0
    /\ (f <> ""%string ->
        wf_header (m_header a) ->
        Forall wf_entry (m_entries a) ->
        size (m_entries a) < 2 ^ 32 ->
        64 + size (flat_map entry_record (m_entries a)) < 2 ^ 64 ->
        GlobalHeader_isEncrypted (m_header a) = false ->
        keeps w f ->
        exists w2 a2 content w3 a3,
          Archive_save f w (Archive_setMetadata m1 a) = Ret (true, w2, a2)
          /\ files w2 f = Some content
          /\ size content = 64 + total (map VarcEntry_getTotalSize (m_entries a))
          /\ Archive_open f "" w2 a2 = Ret (true, w3, a3)
          /\ Z.land (gflags (m_header a3)) ArchiveFlags.HAS_METADATA <> 0).
Proof.
  intros m1 m2 first f w a.
  set (am := Archive_setMetadata m1 a).
  assert (B : Z.testbit (gflags (m_header am)) 2 = true).
  { unfold am, Archive_setMetadata. cbn [m_header set_modified set_header gflags
                                         header_set_flags].
    unfold u16, wrap, ArchiveFlags.HAS_METADATA.
    rewrite Z.mod_pow2_bits_low, Z.lor_spec by lia. apply orb_true_r. }
  assert (N : forall g, Z.testbit g 2 = true -> Z.land g ArchiveFlags.HAS_METADATA <> 0).
  { intros g Hg. unfold ArchiveFlags.HAS_METADATA. change 4 with (2 ^ 2).
    apply Z.eqb_neq. rewrite land_bit by lia. rewrite Hg. reflexivity. }
  split; [reflexivity|]. split; [reflexivity|]. split; [reflexivity|].
  split; [reflexivity|]. split; [reflexivity|]. split; [apply N; exact B|].
  intros Hf Hh Hwf Hn Hsz Henc Hkeep.
  assert (Hh' : wf_header (m_header am)).
  { destruct Hh as (Hs & Hv & Hg). unfold am, Archive_setMetadata.
    cbn [m_header set_modified set_header]. unfold wf_header.
    cbn [signature version gflags header_set_flags].
    repeat split; try assumption; try lia; unfold u16; apply wrap_range; lia. }
  assert (Henc' : GlobalHeader_isEncrypted (m_header am) = false).
  { rewrite isEncrypted_bit in *. unfold am, Archive_setMetadata.
    cbn [m_header set_modified set_header gflags header_set_flags].
    unfold u16, wrap, ArchiveFlags.HAS_METADATA.
    rewrite Z.mod_pow2_bits_low, Z.lor_spec, Henc by lia. reflexivity. }
  assert (Hpw : GlobalHeader_isEncrypted (m_header (Archive_updateHeader am)) = true ->
                ""%string <> ""%string).
  { rewrite updateHeader_clears_encrypted by exact Henc'. discriminate. }
  change (m_entries a) with (m_entries am) in Hwf, Hn, Hsz.
  destruct (@save_open_roundtrip _ f "" w am Hf Hh' Hwf Hn Hsz Hpw Hkeep)
    as (w3 & a3 & Hopen & _ & _ & Hg & _).
  exists (write_file w f (archive_bytes am)), (saved am f), (archive_bytes am), w3, a3.
  split; [apply save_wf; try assumption; apply Hkeep|]. split.
  { apply Hkeep. }
  split.
  { unfold archive_bytes. rewrite size_app, header_on_disk_size.
    change (m_entries am) with (m_entries a) in *.
    rewrite total_records by (auto; lia). reflexivity. }
  split; [exact Hopen|].
  apply N. rewrite Hg, updateHeader_bit by lia. exact B.
Qed.

End MetadataObject.

(** ** The buffer of [writeArchive] *)

Section WriteBuffer.
Context {prim : Primitives}.

Lemma entry_front_length (e : VarcEntry) :
  size (entry_front e) = 26 + u32 (ssize (m_relativePath e)) + size (m_data e).
Proof.
  unfold entry_front, ssize. rewrite !size_app. unfold size at 1 2.
  rewrite EntryHeader_serialize_length, !peek_length.
  assert (0 <= u32 (Z.of_nat (String.length (m_relativePath e))))
    by (unfold u32; apply wrap_range; lia).
  lia.
Qed.

(** X30.  [writeArchive] sizes its buffer by the compressed size of
    the entries and copies the bytes they hold.  An entry whose
    compressed size was set below the length of its content is taken
    as it is by [addEntry], without compression or encryption, and
    [save] then writes behind the end of the buffer. *)
Theorem save_overruns_on_a_short_compressed_size :
  forall (f path : string) (data : list byte) (n : Z) (options : CreateOptions)
         (w : World),
    f <> ""%string ->
    compress options = false ->
    encrypt options = false ->
    0 <= n < size data ->
    size data < 2 ^ 63 ->
    let entry := VarcEntry_setCompressedSize (VarcEntry_of_data path data FILE) n in
    exists a1,
      Archive_addEntry entry options w (created f) = Ret (true, w, a1)
      /\ m_entries a1 = [entry]
      /\ Archive_save f w a1
         = Crash "writeArchive: write behind the end of m_archiveData".
Proof.
  intros f path data n options w Hf Hc He Hn Hs entry.
  unfold Archive_addEntry, Archive_processEntry, processEntry_encrypt,
    processEntry_compress.
  cbn [Archive_isOpen m_loaded created negb]. rewrite Hc, He. cbn [andb bind].
  eexists. split; [reflexivity|].
  cbn [m_entries created set_modified set_entries app]. split; [reflexivity|].
  unfold Archive_save. rewrite (str_empty_false Hf). cbn [str_empty].
  rewrite (str_empty_false Hf).
  unfold Archive_writeArchive.
  rewrite updateHeader_entries. cbn [m_entries set_modified set_entries].
  pose proof (GlobalHeader_serialize_length
                (m_header (Archive_updateHeader
                   (set_modified (set_entries (created f) [entry]) true)))) as Hl.
  match goal with
  | |- context [size ?h <? 64] =>
      destruct (Z.ltb_spec (size h) 64) as [C|C]; [unfold size in C; lia|]
  end.
  assert (U : 0 <= u32 (ssize path) < 2 ^ 32) by (unfold u32; apply wrap_range; lia).
  assert (T : archive_totalSize [entry] = 64 + 26 + u32 (ssize path) + n + 32).
  { unfold archive_totalSize. cbn [fold_left].
    change (Z.of_nat EntryHeader_fixedSize) with 26.
    change (m_relativePath entry) with path. change (m_compressedSize entry) with n.
    fold (ssize path). apply u64_small. pow64. lia. }
  rewrite T.
  pose proof (header_on_disk_size
                (m_header (Archive_updateHeader
                   (set_modified (set_entries (created f) [entry]) true)))) as H64.
  pose proof (entry_front_length entry) as F.
  change (m_relativePath entry) with path in F. change (m_data entry) with data in F.
  assert (K : length (m_checksum entry) = 32%nat) by apply sha256_length.
  unfold size in H64, F, Hn, Hs.
  destruct (Nat.ltb_spec (Z.to_nat (64 + 26 + u32 (ssize path) + n + 32)) 64) as [C'|_];
    [lia|].
  cbn [writeEntries].
  match goal with
  | |- context [(?t <? length ?l)%nat] =>
      destruct (Nat.ltb_spec t (length l)) as [_|Le]; [reflexivity|]
  end.
  rewrite K. destruct (Nat.ltb_spec 32 32) as [C32|_]; [lia|].
  match goal with
  | |- context [(?t <? length ?l)%nat] =>
      destruct (Nat.ltb_spec t (length l)) as [_|Le']; [reflexivity|]
  end.
  assert (K2 : length (firstn 32 (m_checksum entry)) = 32%nat)
    by (rewrite length_firstn, K; reflexivity).
  exfalso. rewrite !length_app, K2 in Le'. lia.
Qed.

End WriteBuffer.

(** ** The further properties on concrete values *)

(** X1 at a path length of 70000: 4464 comes back. *)
Lemma EntryHeader_written_is_read_witness :
  0 <= pathLength Sample.long_path_header < 2 ^ 32
  /\ 0 <= h_originalSize Sample.long_path_header < 2 ^ 64
  /\ 0 <= h_compressedSize Sample.long_path_header < 2 ^ 64
  /\ 0 <= h_fileType Sample.long_path_header < 2 ^ 32
  /\ 0 <= h_flags Sample.long_path_header < 2 ^ 32
  /\ option_map pathLength
       (EntryHeader_deserialize (prim := Standin.primitives)
          (EntryHeader_serialize Sample.long_path_header)) = Some 4464.
Proof.
  assert (H1 : 0 <= pathLength Sample.long_path_header < 2 ^ 32) by (cbn; lia).
  assert (H2 : 0 <= h_originalSize Sample.long_path_header < 2 ^ 64) by (cbn; lia).
  assert (H3 : 0 <= h_compressedSize Sample.long_path_header < 2 ^ 64) by (cbn; lia).
  assert (H4 : 0 <= h_fileType Sample.long_path_header < 2 ^ 32) by (cbn; lia).
  assert (H5 : 0 <= h_flags Sample.long_path_header < 2 ^ 32) by (cbn; lia).
  repeat (split; [assumption|]).
  rewrite (proj2 (@EntryHeader_written_is_read Standin.primitives
                    Sample.long_path_header H1 H2 H3 H4 H5)).
  reflexivity.
Defined.

(** X3 at a header with salt and IV, followed by two more bytes. *)
Lemma GlobalHeader_written_is_read_witness :
  signature Sample.header = VARC_SIGNATURE
  /\ 0 <= version Sample.header < 2 ^ 16
  /\ 0 <= gflags Sample.header < 2 ^ 16
  /\ 0 <= fileCount Sample.header < 2 ^ 32
  /\ length (salt Sample.header) = SALT_SIZE
  /\ length (iv Sample.header) = IV_SIZE
  /\ 0 <= reserved Sample.header < 2 ^ 64
  /\ GlobalHeader_deserialize (prim := Standin.primitives) GlobalHeader_default
       (GlobalHeader_serialize Sample.header ++ [x01; x02])
     = (true, Sample.header).
Proof.
  assert (H1 : signature Sample.header = VARC_SIGNATURE) by reflexivity.
  assert (H2 : 0 <= version Sample.header < 2 ^ 16) by (cbn; lia).
  assert (H3 : 0 <= gflags Sample.header < 2 ^ 16) by (cbn; lia).
  assert (H4 : 0 <= fileCount Sample.header < 2 ^ 32) by (cbn; lia).
  assert (H5 : length (salt Sample.header) = SALT_SIZE) by reflexivity.
  assert (H6 : length (iv Sample.header) = IV_SIZE) by reflexivity.
  assert (H7 : 0 <= reserved Sample.header < 2 ^ 64) by (cbn; lia).
  repeat (split; [assumption|]).
  exact (@GlobalHeader_written_is_read Standin.primitives GlobalHeader_default
           Sample.header [x01; x02] H1 H2 H3 H4 H5 H6 H7).
Defined.

(** X5 at the five bytes of [hello]. *)
Lemma FileType_detect_text_witness :
  3 <= size [x65; x6c; x6c; x6f]
  /\ Forall (fun x => printable x = true) [x68; x65; x6c; x6c; x6f]
  /\ ~ In x68 magic_initials
  /\ FileType_detect (prim := Standin.primitives) [x68; x65; x6c; x6c; x6f]
     = FileType.TEXT.
Proof.
  assert (H1 : 3 <= size [x65; x6c; x6c; x6f]) by (vm_compute; discriminate).
  assert (H2 : Forall (fun x => printable x = true) [x68; x65; x6c; x6c; x6f])
    by (repeat constructor).
  assert (H3 : ~ In x68 magic_initials)
    by (unfold magic_initials; simpl; intros H; repeat destruct H as [H|H];
        try discriminate H; exact H).
  repeat (split; [assumption|]).
  exact (@FileType_detect_text Standin.primitives x68 [x65; x6c; x6c; x6f] H1 H2 H3).
Defined.

(** X6 at metadata with two tags, read at offset 1 into an object that
    holds a tag already. *)
Lemma ArchiveMetadata_written_is_read_witness :
  0 <= creationTime Sample.metadata < 2 ^ 64
  /\ 0 <= modificationTime Sample.metadata < 2 ^ 64
  /\ ssize (creator Sample.metadata) < 2 ^ 32
  /\ ssize (description Sample.metadata) < 2 ^ 32
  /\ size (customTags Sample.metadata) < 2 ^ 16
  /\ Forall short_tag (customTags Sample.metadata)
  /\ size [x00] + size (ArchiveMetadata_serialize Sample.metadata) < 2 ^ 64
  /\ ArchiveMetadata_deserialize (prim := Standin.primitives) Sample.tagged
       ([x00] ++ ArchiveMetadata_serialize Sample.metadata ++ [xff]) (size [x00])
     = (size [x00] + size (ArchiveMetadata_serialize Sample.metadata),
        {| creationTime := 1; modificationTime := 2; creator := "me";
           description := "notes";
           customTags := [("old", "tag"); ("k", "v"); ("key", "")]%string |}).
Proof.
  assert (H1 : 0 <= creationTime Sample.metadata < 2 ^ 64) by (cbn; lia).
  assert (H2 : 0 <= modificationTime Sample.metadata < 2 ^ 64) by (cbn; lia).
  assert (H3 : ssize (creator Sample.metadata) < 2 ^ 32) by (vm_compute; reflexivity).
  assert (H4 : ssize (description Sample.metadata) < 2 ^ 32) by (vm_compute; reflexivity).
  assert (H5 : size (customTags Sample.metadata) < 2 ^ 16) by (vm_compute; reflexivity).
  assert (H6 : Forall short_tag (customTags Sample.metadata))
    by (repeat constructor; vm_compute; reflexivity).
  assert (H7 : size [x00] + size (ArchiveMetadata_serialize Sample.metadata) < 2 ^ 64)
    by (vm_compute; reflexivity).
  repeat (split; [assumption|]).
  exact (@ArchiveMetadata_written_is_read Standin.primitives Sample.tagged
           Sample.metadata [x00] [xff] H1 H2 H3 H4 H5 H6 H7).
Defined.

(** X8 at the archive with three entries. *)
Lemma getTotalSize_is_the_size_on_disk_witness :
  "f"%string <> ""%string
  /\ Forall wf_entry (m_entries Sample.twice)
  /\ 64 + size (flat_map (entry_record (prim := Standin.primitives))
                         (m_entries Sample.twice)) < 2 ^ 64
  /\ keeps (prim := Standin.primitives) Standin.world "f"
  /\ exists w' a' content,
      Archive_save (prim := Standin.primitives) "f" Standin.world Sample.twice
      = Ret (true, w', a')
      /\ files (prim := Standin.primitives) w' "f" = Some content
      /\ size content
         = 64 + total (map VarcEntry_getTotalSize (m_entries Sample.twice)).
Proof.
  assert (H1 : "f"%string <> ""%string) by discriminate.
  assert (H2 : Forall wf_entry (m_entries Sample.twice))
    by (repeat constructor; vm_compute; repeat split; try reflexivity; discriminate).
  assert (H3 : 64 + size (flat_map (entry_record (prim := Standin.primitives))
                                   (m_entries Sample.twice)) < 2 ^ 64)
    by (vm_compute; reflexivity).
  assert (H4 : keeps (prim := Standin.primitives) Standin.world "f")
    by apply standin_keeps.
  repeat (split; [assumption|]).
  exact (@getTotalSize_is_the_size_on_disk Standin.primitives "f" Standin.world
           Sample.twice H1 H2 H3 H4).
Defined.

(** X10 at three bytes, one of them below 16. *)
Lemma hexToBytes_of_bytesToHex_witness :
  CryptoEngine_bytesToHex [x00; x0a; xff] = "000aff"%string
  /\ CryptoEngine_hexToBytes (fun _ => 0) (CryptoEngine_bytesToHex [x00; x0a; xff])
     = Ret [x00; x0a; xff]
  /\ CryptoEngine_hexToBytes (fun _ => 0) "0AFf" = Ret [x0a; xff].
Proof.
  split; [reflexivity|]. split; [|reflexivity].
  exact (proj1 (proj2 (hexToBytes_of_bytesToHex (fun _ => 0) [x00; x0a; xff]))).
Defined.

(** X14 at a pattern with a question mark. *)
Lemma matchesPattern_without_star_witness :
  star_free "a.t?t" = true
  /\ ssize "a.txt" < 2 ^ 64
  /\ ssize "a.t?t" < 2 ^ 64
  /\ matchesPattern "a.txt" "a.t?t" = Some true.
Proof.
  assert (H1 : star_free "a.t?t" = true) by reflexivity.
  assert (H2 : ssize "a.txt" < 2 ^ 64) by (vm_compute; reflexivity).
  assert (H3 : ssize "a.t?t" < 2 ^ 64) by (vm_compute; reflexivity).
  repeat (split; [assumption|]).
  exact (proj1 (@matchesPattern_without_star "a.txt" "a.t?t" H1 H2 H3)).
Defined.

(** X15 at the pattern [ab*]: it matches [abc] and not [ab]. *)
Lemma matchesPattern_with_a_last_star_witness :
  star_free "ab" = true
  /\ ssize "abc" < 2 ^ 64
  /\ ssize ("ab" ++ "*") < 2 ^ 64
  /\ matchesPattern "abc" "ab*" = Some true
  /\ matchesPattern "ab" "ab*" = Some false.
Proof.
  assert (H1 : star_free "ab" = true) by reflexivity.
  assert (H2 : ssize "abc" < 2 ^ 64) by (vm_compute; reflexivity).
  assert (H3 : ssize ("ab" ++ "*") < 2 ^ 64) by (vm_compute; reflexivity).
  repeat (split; [assumption|]).
  split.
  - exact (proj1 (@matchesPattern_with_a_last_star "abc" "ab" H1 H2 H3)).
  - exact (proj1 (proj2 (proj2 (@matchesPattern_with_a_last_star "abc" "ab" H1 H2 H3)))).
Defined.

(** X16 at the pattern [dir/*a] and the archive that holds [dir/a]. *)
Lemma star_before_a_tail_matches_nothing_witness :
  "a"%string <> ""%string
  /\ star_free "a" = true
  /\ ssize ("dir/" ++ "*" ++ "a") < npos
  /\ matchesPattern "dir/a" "dir/*a" = Some false
  /\ Archive_findEntries Sample.twice "dir/*a" = [].
Proof.
  assert (H1 : "a"%string <> ""%string) by discriminate.
  assert (H2 : star_free "a" = true) by reflexivity.
  assert (H3 : ssize ("dir/" ++ "*" ++ "a") < npos) by (vm_compute; reflexivity).
  repeat (split; [assumption|]).
  split.
  - exact (proj1 (@star_before_a_tail_matches_nothing "dir/a" "dir/" "a"
                    Sample.twice H1 H2 H3)).
  - exact (proj1 (proj2 (@star_before_a_tail_matches_nothing "dir/a" "dir/" "a"
                           Sample.twice H1 H2 H3))).
Defined.

(** X19 at a second entry for the path [b]. *)
Lemma addVirtualFile_never_replaces_witness :
  Archive_isOpen Sample.twice = true
  /\ exists w' a' e',
      Archive_addVirtualFile (prim := Standin.primitives) "b" [x45] Standin.plain
        Standin.world Sample.twice = Ret (true, w', a')
      /\ m_entries a' = m_entries Sample.twice ++ [e']
      /\ m_relativePath e' = "b"%string
      /\ Archive_getEntryCount a' = u64 (size (m_entries Sample.twice) + 1)
      /\ (forall old, Archive_findEntry Sample.twice "b" = Some old ->
                      Archive_findEntry a' "b" = Some old)
      /\ (Archive_findEntry Sample.twice "b" = None -> Archive_findEntry a' "b" = Some e')
      /\ (forall q, q <> "b"%string ->
                    Archive_findEntry a' q = Archive_findEntry Sample.twice q).
Proof.
  split; [reflexivity|].
  exact (@addVirtualFile_never_replaces Standin.primitives "b" [x45] Standin.plain
           Standin.world Sample.twice eq_refl).
Defined.

(** X23 at the archive of the session, saved and opened. *)
Lemma open_recomputes_sizes_and_checksums_witness :
  exists w' a',
    Archive_open (prim := Standin.primitives) "f" ""
      (fst Standin.after_save) (snd Standin.after_save) = Ret (true, w', a')
    /\ Archive_getTotalOriginalSize a' = Archive_getTotalCompressedSize a'
    /\ m_filepath a' = "f"%string.
Proof.
  destruct (Archive_open (prim := Standin.primitives) "f" ""
              (fst Standin.after_save) (snd Standin.after_save))
    as [[[ok w'] a']| |] eqn:E; try (vm_compute in E; discriminate E).
  assert (Hok : ok = true) by (vm_compute in E; congruence).
  subst ok. exists w', a'. split; [reflexivity|].
  pose proof (@open_recomputes_sizes_and_checksums Standin.primitives "f" ""
                (fst Standin.after_save) w' (snd Standin.after_save) a' E)
    as (_ & T & _ & _ & P).
  split; assumption.
Defined.

(** X24 at the archive with three entries. *)
Lemma save_then_open_gives_the_entries_back_witness :
  "f"%string <> ""%string
  /\ wf_header (m_header Sample.twice)
  /\ Forall wf_entry (m_entries Sample.twice)
  /\ size (m_entries Sample.twice) < 2 ^ 32
  /\ 64 + size (flat_map (entry_record (prim := Standin.primitives))
                         (m_entries Sample.twice)) < 2 ^ 64
  /\ (GlobalHeader_isEncrypted (m_header Sample.twice) = true -> ""%string <> ""%string)
  /\ keeps (prim := Standin.primitives) Standin.world "f"
  /\ exists w2 a2 w3 a3,
      Archive_save (prim := Standin.primitives) "f" Standin.world Sample.twice
      = Ret (true, w2, a2)
      /\ Archive_open (prim := Standin.primitives) "f" "" w2 a2 = Ret (true, w3, a3)
      /\ map m_relativePath (m_entries a3) = map m_relativePath (m_entries Sample.twice)
      /\ map m_data (m_entries a3) = map m_data (m_entries Sample.twice)
      /\ map m_flags (m_entries a3) = map m_flags (m_entries Sample.twice)
      /\ Forall (fun e => m_type e = FILE) (m_entries a3)
      /\ fileCount (m_header a3) = size (m_entries Sample.twice).
Proof.
  assert (H1 : "f"%string <> ""%string) by discriminate.
  assert (H2 : wf_header (m_header Sample.twice))
    by (vm_compute; repeat split; discriminate).
  assert (H3 : Forall wf_entry (m_entries Sample.twice))
    by (repeat constructor; vm_compute; repeat split; try reflexivity; discriminate).
  assert (H4 : size (m_entries Sample.twice) < 2 ^ 32) by (vm_compute; reflexivity).
  assert (H5 : 64 + size (flat_map (entry_record (prim := Standin.primitives))
                                   (m_entries Sample.twice)) < 2 ^ 64)
    by (vm_compute; reflexivity).
  assert (H6 : GlobalHeader_isEncrypted (m_header Sample.twice) = true ->
               ""%string <> ""%string) by (vm_compute; discriminate).
  assert (H7 : keeps (prim := Standin.primitives) Standin.world "f")
    by apply standin_keeps.
  repeat (split; [assumption|]).
  exact (@save_then_open_gives_the_entries_back Standin.primitives "f" ""
           Standin.world Sample.twice H1 H2 H3 H4 H5 H6 H7).
Defined.

(** X25 at the file [f] on an empty disk. *)
Lemma create_then_close_leaves_an_empty_archive_witness :
  "f"%string <> ""%string
  /\ keeps (prim := Standin.primitives) Standin.world "f"
  /\ exists w2 a2 content,
      Archive_close (prim := Standin.primitives) Standin.world (created "f") = Ret (w2, a2)
      /\ files (prim := Standin.primitives) w2 "f" = Some content
      /\ size content = 64.
Proof.
  assert (H1 : "f"%string <> ""%string) by discriminate.
  assert (H2 : keeps (prim := Standin.primitives) Standin.world "f")
    by apply standin_keeps.
  split; [exact H1|]. split; [exact H2|].
  destruct (proj1 (proj2 (@create_then_close_leaves_an_empty_archive Standin.primitives
                            "f" Standin.world H1)) H2)
    as (w2 & a2 & content & Hc & _ & Hf & Hs & _).
  exists w2, a2, content. auto.
Defined.

(** X26 at a file that does not exist. *)
Lemma open_refuses_what_is_no_archive_witness :
  m_modified Archive_new = false
  /\ files (prim := Standin.primitives) Standin.world "none" = None
  /\ exists a',
      Archive_open (prim := Standin.primitives) "none" "" Standin.world Archive_new
      = Ret (false, Standin.world, a')
      /\ m_errorMessage a' = "Cannot open archive file: none"%string.
Proof.
  assert (H1 : m_modified Archive_new = false) by reflexivity.
  assert (H2 : files (prim := Standin.primitives) Standin.world "none" = None)
    by reflexivity.
  split; [exact H1|]. split; [exact H2|].
  destruct (proj1 (@open_refuses_what_is_no_archive Standin.primitives "none" ""
                     Standin.world Archive_new H1) H2)
    as (a' & E & M & _).
  exists a'. auto.
Defined.

(** The stand-in disk serves every extraction. *)
Lemma standin_last_written_dirs (cs : list fs_call) (d p : string) :
  Standin.last_written (cs ++ [MadeDirectories d]) p = Standin.last_written cs p.
Proof.
  induction cs as [|c cs IH]; cbn [app Standin.last_written]; [reflexivity|].
  rewrite IH. reflexivity.
Qed.

Lemma standin_last_written_other (cs : list fs_call) (p q : string) (content : list byte) :
  q <> p ->
  Standin.last_written (cs ++ [Wrote p content]) q = Standin.last_written cs q.
Proof.
  intros Hne. induction cs as [|c cs IH]; cbn [app Standin.last_written].
  - destruct (String.eqb_spec p q); [congruence | reflexivity].
  - rewrite IH. reflexivity.
Qed.

Lemma standin_serves (options : ExtractOptions) (outputDir : string) (es : list VarcEntry) :
  serves (prim := Standin.primitives) (fun _ => True) options outputDir es.
Proof.
  split.
  - intros cs d _ _. split; [reflexivity|]. split; [exact I|].
    intros e _ _. apply standin_last_written_dirs.
  - intros cs e content _ _ _. split; [reflexivity|]. split; [exact I|].
    split; [apply standin_last_written|].
    intros e' _ _ Hne. apply standin_last_written_other. exact Hne.
Qed.

(** X27 at the archive that holds the path [dir/a] twice: the file
    [out/dir/a] gets the content of the first of the two. *)
Lemma extractAll_writes_the_first_entry_of_each_path_witness :
  (GlobalHeader_isEncrypted (m_header Sample.twice) = true -> ""%string <> ""%string)
  /\ Forall (fun e => m_originalSize e = u64 (size (m_data e))) (m_entries Sample.twice)
  /\ serves (prim := Standin.primitives) (fun _ => True) ExtractOptions_default "out"
            (m_entries Sample.twice)
  /\ exists result w' a',
      Archive_extractAll (prim := Standin.primitives) "out" "" ExtractOptions_default
        Standin.world Sample.twice = Ret (result, w', a')
      /\ r_success result = true
      /\ filesProcessed result = 3
      /\ files (prim := Standin.primitives) w' "out/dir/a" = Some [x41]
      /\ files (prim := Standin.primitives) w' "out/b" = Some [x42; x43].
Proof.
  assert (H1 : GlobalHeader_isEncrypted (m_header Sample.twice) = true ->
               ""%string <> ""%string) by (vm_compute; discriminate).
  assert (H2 : Forall (fun e => m_originalSize e = u64 (size (m_data e)))
                      (m_entries Sample.twice))
    by (repeat constructor).
  assert (H3 : serves (prim := Standin.primitives) (fun _ => True) ExtractOptions_default
                 "out" (m_entries Sample.twice))
    by apply standin_serves.
  split; [exact H1|]. split; [exact H2|]. split; [exact H3|].
  destruct (@extractAll_writes_the_first_entry_of_each_path Standin.primitives
              (fun _ => True) "out" "" ExtractOptions_default Standin.world Sample.twice
              H1 H2 I H3)
    as (result & w' & a' & E & S & F & _ & W & _).
  exists result, w', a'. split; [exact E|]. split; [exact S|]. split; [exact F|].
  split.
  - apply (W (VarcEntry_of_data (prim := Standin.primitives) "dir/a" [x44] FILE));
      [right; right; left; reflexivity | reflexivity].
  - apply (W (VarcEntry_of_data (prim := Standin.primitives) "b" [x42; x43] FILE));
      [right; left; reflexivity | reflexivity].
Defined.

(** X28 at the pattern [*.txt] and an archive without such a path. *)
Lemma extractPattern_without_a_match_extracts_all_witness :
  Archive_findEntries Sample.twice "*.txt" = []
  /\ (GlobalHeader_isEncrypted (m_header Sample.twice) = true -> ""%string <> ""%string)
  /\ Forall (fun e => m_originalSize e = u64 (size (m_data e))) (m_entries Sample.twice)
  /\ serves (prim := Standin.primitives) (fun _ => True)
            {| overwrite := false; preservePermissions := true;
               preserveTimestamps := true; outputDirectory := "out"; x_filter := [] |}
            "out" (m_entries Sample.twice)
  /\ exists result w' a',
      Archive_extractPattern (prim := Standin.primitives) "*.txt" "out" ""
        Standin.world Sample.twice = Ret (result, w', a')
      /\ r_success result = true
      /\ files (prim := Standin.primitives) w' "out/b" = Some [x42; x43].
Proof.
  assert (H0 : Archive_findEntries Sample.twice "*.txt" = []) by reflexivity.
  assert (H1 : GlobalHeader_isEncrypted (m_header Sample.twice) = true ->
               ""%string <> ""%string) by (vm_compute; discriminate).
  assert (H2 : Forall (fun e => m_originalSize e = u64 (size (m_data e)))
                      (m_entries Sample.twice))
    by (repeat constructor).
  assert (H3 : serves (prim := Standin.primitives) (fun _ => True)
                 {| overwrite := false; preservePermissions := true;
                    preserveTimestamps := true; outputDirectory := "out";
                    x_filter := [] |}
                 "out" (m_entries Sample.twice))
    by apply standin_serves.
  split; [exact H0|]. split; [exact H1|]. split; [exact H2|]. split; [exact H3|].
  destruct (proj2 (@extractPattern_without_a_match_extracts_all Standin.primitives
                     (fun _ => True) "*.txt" "out" "" Standin.world Sample.twice
                     H0 H1 H2 I H3))
    as (result & w' & a' & E & S & W).
  exists result, w', a'. split; [exact E|]. split; [exact S|].
  apply (W (VarcEntry_of_data (prim := Standin.primitives) "b" [x42; x43] FILE));
    [right; left; reflexivity | reflexivity].
Defined.

(** X30 at an entry of two bytes with a compressed size of 0. *)
Lemma save_overruns_on_a_short_compressed_size_witness :
  "f"%string <> ""%string
  /\ compress Standin.plain = false
  /\ encrypt Standin.plain = false
  /\ 0 <= 0 < size [x41; x42]
  /\ size [x41; x42] < 2 ^ 63
  /\ exists a1,
      Archive_addEntry (prim := Standin.primitives)
        (VarcEntry_setCompressedSize
           (VarcEntry_of_data (prim := Standin.primitives) "a" [x41; x42] FILE) 0)
        Standin.plain Standin.world (created "f") = Ret (true, Standin.world, a1)
      /\ Archive_save (prim := Standin.primitives) "f" Standin.world a1
         = Crash "writeArchive: write behind the end of m_archiveData".
Proof.
  assert (H1 : "f"%string <> ""%string) by discriminate.
  assert (H2 : compress Standin.plain = false) by reflexivity.
  assert (H3 : encrypt Standin.plain = false) by reflexivity.
  assert (H4 : 0 <= 0 < size [x41; x42]) by (vm_compute; split; [discriminate | reflexivity]).
  assert (H5 : size [x41; x42] < 2 ^ 63) by (vm_compute; reflexivity).
  repeat (split; [assumption|]).
  destruct (@save_overruns_on_a_short_compressed_size Standin.primitives "f" "a"
              [x41; x42] 0 Standin.plain Standin.world H1 H2 H3 H4 H5)
    as (a1 & E & _ & S).
  exists a1. split; assumption.
Defined.
